(** * crypto-signals: the indicator library and the signal engine

    A shallow embedding of [src/indicators/technicalIndicators.js] and
    [src/signals/signalEngine.js].

    Numbers.  A JavaScript number is a rational or one of the three special
    values [Infinity], [-Infinity] and [NaN].  Module [JS] gives the
    arithmetic on them without rounding; it serves the properties that rest
    on comparisons and on control flow.  Module [Binary64] rounds every
    result to the nearest double (ties to even, overflow to the infinities,
    gradual underflow) and restates in that arithmetic the functions whose
    properties depend on rounding: [EMA], [RSI], [findSupportResistance] and
    [calculatePositionSize].  The sign of zero is not modelled: a zero
    divisor counts as [+0].  Arrays of [number | null] are lists of
    [option num], [None] being [null]. *)

From Stdlib Require Import String ZArith QArith Qround Qabs Qminmax Qpower.
From Stdlib Require Import List Bool Lia Lqa.
Import ListNotations.

Set Implicit Arguments.

(** ** JavaScript numbers *)

Module JS.

Inductive num : Type :=
| Fin (q : Q)
| PInf
| NInf
| NaN.

Definition Qltb (a b : Q) : bool := negb (Qle_bool b a).
Definition Qzerob (a : Q) : bool := Qeq_bool a 0.

Definition of_Z (z : Z) : num := Fin (inject_Z z).
Definition of_nat (n : nat) : num := of_Z (Z.of_nat n).

Definition is_fin (a : num) : bool :=
  match a with Fin _ => true | _ => false end.

(** unary minus *)
Definition neg (a : num) : num :=
  match a with
  | Fin q => Fin (- q)
  | PInf => NInf
  | NInf => PInf
  | NaN => NaN
  end.

(** [a + b] *)
Definition add (a b : num) : num :=
  match a, b with
  | NaN, _ | _, NaN => NaN
  | Fin x, Fin y => Fin (x + y)
  | PInf, NInf | NInf, PInf => NaN
  | PInf, _ | _, PInf => PInf
  | NInf, _ | _, NInf => NInf
  end.

(** [a - b] *)
Definition sub (a b : num) : num := add a (neg b).

(** the sign of a rational as an infinity, [NaN] for zero: [Infinity * q] *)
Definition inf_times (pos : bool) (q : Q) : num :=
  if Qzerob q then NaN
  else if Bool.eqb pos (Qltb 0 q) then PInf else NInf.

(** [a * b] *)
Definition mul (a b : num) : num :=
  match a, b with
  | NaN, _ | _, NaN => NaN
  | Fin x, Fin y => Fin (x * y)
  | PInf, Fin y | Fin y, PInf => inf_times true y
  | NInf, Fin y | Fin y, NInf => inf_times false y
  | PInf, PInf | NInf, NInf => PInf
  | PInf, NInf | NInf, PInf => NInf
  end.

(** [a / b]: a finite quotient needs a nonzero divisor; [x / 0] is an
    infinity with the sign of [x], and [0 / 0] is [NaN]. *)
Definition div (a b : num) : num :=
  match a, b with
  | NaN, _ | _, NaN => NaN
  | Fin x, Fin y =>
      if Qzerob y then
        if Qzerob x then NaN else if Qltb 0 x then PInf else NInf
      else Fin (x / y)
  | Fin _, PInf | Fin _, NInf => Fin 0
  | PInf, Fin y => if Qltb y 0 then NInf else PInf
  | NInf, Fin y => if Qltb y 0 then PInf else NInf
  | PInf, PInf | PInf, NInf | NInf, PInf | NInf, NInf => NaN
  end.

(** [Math.abs] *)
Definition abs (a : num) : num :=
  match a with
  | Fin q => Fin (Qabs q)
  | PInf | NInf => PInf
  | NaN => NaN
  end.

(** [Math.floor] *)
Definition floor (a : num) : num :=
  match a with
  | Fin q => of_Z (Qfloor q)
  | _ => a
  end.

(** [a < b]; every comparison with [NaN] is false *)
Definition lt (a b : num) : bool :=
  match a, b with
  | NaN, _ | _, NaN => false
  | Fin x, Fin y => Qltb x y
  | NInf, NInf => false
  | NInf, _ => true
  | PInf, _ => false
  | Fin _, PInf => true
  | Fin _, NInf => false
  end.

(** [a <= b] *)
Definition le (a b : num) : bool :=
  match a, b with
  | NaN, _ | _, NaN => false
  | Fin x, Fin y => Qle_bool x y
  | NInf, _ => true
  | _, PInf => true
  | PInf, _ => false
  | Fin _, NInf => false
  end.

Definition gt (a b : num) : bool := lt b a.
Definition ge (a b : num) : bool := le b a.

(** [a === b] on numbers *)
Definition eq (a b : num) : bool :=
  match a, b with
  | Fin x, Fin y => Qeq_bool x y
  | PInf, PInf | NInf, NInf => true
  | _, _ => false
  end.

(** the SameValueZero comparison of [Array.prototype.includes] *)
Definition same_value_zero (a b : num) : bool :=
  match a, b with
  | NaN, NaN => true
  | _, _ => eq a b
  end.

(** truthiness of a number: [0] and [NaN] are falsy *)
Definition truthy (a : num) : bool :=
  match a with
  | Fin q => negb (Qzerob q)
  | PInf | NInf => true
  | NaN => false
  end.

(** [Math.min(a, b)] and [Math.max(a, b)]: [NaN] if either is [NaN] *)
Definition min2 (a b : num) : num :=
  match a, b with
  | NaN, _ | _, NaN => NaN
  | _, _ => if lt b a then b else a
  end.

Definition max2 (a b : num) : num :=
  match a, b with
  | NaN, _ | _, NaN => NaN
  | _, _ => if lt a b then b else a
  end.

(** [Math.min(...l)] and [Math.max(...l)] *)
Definition Math_min (l : list num) : num := fold_left min2 l PInf.
Definition Math_max (l : list num) : num := fold_left max2 l NInf.

(** [Math.sqrt] is taken as a parameter where it is used. *)

(** [x.toFixed(d)], as the number its decimal string denotes: the nearest
    multiple of [10^-d], ties away from zero. *)
Definition toFixedQ (d : nat) (q : Q) : Q :=
  let scale := inject_Z (10 ^ Z.of_nat d) in
  let n := Qfloor (Qabs q * scale + (1 # 2)) in
  if Qltb q 0 then - (inject_Z n / scale) else inject_Z n / scale.

Definition toFixed (d : nat) (a : num) : num :=
  match a with
  | Fin q => Fin (toFixedQ d q)
  | _ => a
  end.

(** [l.reduce((a, b) => a + b, 0)] *)
Definition sum (l : list num) : num := fold_left add l (Fin 0).

(** equality of the numbers denoted *)
Definition same (a b : num) : Prop :=
  match a, b with
  | Fin x, Fin y => x == y
  | PInf, PInf | NInf, NInf | NaN, NaN => True
  | _, _ => False
  end.

End JS.

Import JS.

Declare Scope js_scope.
Delimit Scope js_scope with js.
Bind Scope js_scope with num.
Infix "+" := add : js_scope.
Infix "-" := sub : js_scope.
Infix "*" := mul : js_scope.
Infix "/" := div : js_scope.
Infix "<?" := lt : js_scope.
Infix "<=?" := le : js_scope.
Infix ">?" := gt : js_scope.
Infix ">=?" := ge : js_scope.
Infix "===" := eq (at level 70) : js_scope.

(** a decimal literal of the source *)
Notation "$ q" := (Fin q%Q) (at level 5, q at level 1, format "$ q") : js_scope.

(** ** Arrays *)

(** an entry of an indicator series: [null] or a number *)
Definition cell : Type := option num.

(** [arr.slice(a, b)], negative positions counting from the end *)
Definition slice {A : Type} (l : list A) (a b : Z) : list A :=
  let len := Z.of_nat (length l) in
  let start := if (a <? 0)%Z then Z.max (len + a) 0 else Z.min a len in
  let stop := if (b <? 0)%Z then Z.max (len + b) 0 else Z.min b len in
  firstn (Z.to_nat (stop - start)) (skipn (Z.to_nat start) l).

(** [arr.slice(-k)] *)
Definition slice_from {A : Type} (l : list A) (a : Z) : list A :=
  slice l a (Z.of_nat (length l)).

(** [arr.map((x, i) => f x i)] *)
Fixpoint mapi_from {A B : Type} (f : A -> nat -> B) (i : nat) (l : list A) : list B :=
  match l with
  | [] => []
  | x :: tl => f x i :: mapi_from f (S i) tl
  end.

Definition mapi {A B : Type} (f : A -> nat -> B) (l : list A) : list B :=
  mapi_from f 0 l.

(** [arr.filter(v => v !== null)] *)
Fixpoint valid (l : list cell) : list num :=
  match l with
  | [] => []
  | Some v :: tl => v :: valid tl
  | None :: tl => valid tl
  end.

(** the number read at [arr[i]] of an array of numbers; reading outside the
    array gives [undefined], which arithmetic turns into [NaN] *)
Definition at_num (l : list num) (i : nat) : num := nth i l NaN.

(** [arr[i]] of a series, read as a number inside arithmetic: [null] counts
    as [0] and [undefined] (outside the array) as [NaN] *)
Definition at_cell (l : list cell) (i : nat) : num :=
  match nth_error l i with
  | Some (Some v) => v
  | Some None => Fin 0
  | None => NaN
  end.

(** [v || null] for [v = arr[i]] *)
Definition or_null (v : option cell) : cell :=
  match v with
  | Some (Some x) => if truthy x then Some x else None
  | _ => None
  end.

(** [v || 0] for an entry [v] *)
Definition or_zero (v : cell) : num :=
  match v with
  | Some x => if truthy x then x else Fin 0
  | None => Fin 0
  end.

(** [f prev cur] over the adjacent pairs: the loops that start at [i = 1]
    and read [arr[i - 1]] and [arr[i]] *)
Fixpoint pairs_map {A B : Type} (f : A -> A -> B) (l : list A) : list B :=
  match l with
  | prev :: (cur :: _) as tl => f prev cur :: pairs_map f tl
  | _ => []
  end.

(** ** Candles *)

Record Candle : Type := mkCandle {
  time : num;
  open : num;
  high : num;
  low : num;
  close : num;
  volume : num;
  symbol : option string
}.

(** ** The indicator library: [class TechnicalIndicators] *)

Module TechnicalIndicators.

Local Open Scope js_scope.

(** [i < period - 1] and [i === period - 1] on loop indices *)
Definition before_warmup (i period : nat) : bool :=
  (Z.of_nat i <? Z.of_nat period - 1)%Z.
Definition at_warmup (i period : nat) : bool :=
  (Z.of_nat i =? Z.of_nat period - 1)%Z.

(** [data.slice(i - period + 1, i + 1)] *)
Definition window {A : Type} (data : list A) (i period : nat) : list A :=
  slice data (Z.of_nat i - Z.of_nat period + 1) (Z.of_nat i + 1).

(** [data.slice(0, period)] *)
Definition prefix {A : Type} (data : list A) (period : nat) : list A :=
  slice data 0 (Z.of_nat period).

Definition SMA (data : list num) (period : nat) : list cell :=
  map (fun i =>
         if before_warmup i period then None
         else Some (sum (window data i period) / of_nat period))
      (seq 0 (length data)).

(** the loop of [EMA]: [i] is the index of the head of [rest] *)
Fixpoint EMA_loop (multiplier : num) (period i : nat) (ema : num)
         (rest : list num) : list cell :=
  match rest with
  | [] => []
  | x :: tl =>
      if before_warmup i period then
        None :: EMA_loop multiplier period (S i) ema tl
      else if at_warmup i period then
        Some ema :: EMA_loop multiplier period (S i) ema tl
      else
        let ema' := (x - ema) * multiplier + ema in
        Some ema' :: EMA_loop multiplier period (S i) ema' tl
  end.

Definition EMA (data : list num) (period : nat) : list cell :=
  let multiplier := $2 / (of_nat period + $1) in
  let ema := sum (prefix data period) / of_nat period in
  EMA_loop multiplier period 0 ema data.

(** the price changes [closes[i] - closes[i - 1]], [i >= 1] *)
Definition changes (closes : list num) : list num :=
  pairs_map (fun prev cur => cur - prev) closes.

Definition RSI_gains (closes : list num) : list num :=
  map (fun change => if change >? $0 then change else $0) (changes closes).

Definition RSI_losses (closes : list num) : list num :=
  map (fun change => if change <? $0 then abs change else $0) (changes closes).

(** the trailing averages of [RSI] at index [i] of [gains]; the source
    recomputes the same window mean in both branches of its [prevRSI] test *)
Definition RSI_avg (xs : list num) (period i : nat) : num :=
  if at_warmup i period then sum (prefix xs period) / of_nat period
  else sum (window xs i period) / of_nat period.

Definition RSI_value (avgGain avgLoss : num) : num :=
  if avgLoss === $0 then $100
  else
    let rs := avgGain / avgLoss in
    $100 - $100 / ($1 + rs).

Definition RSI (closes : list num) (period : nat) : list cell :=
  let gains := RSI_gains closes in
  let losses := RSI_losses closes in
  None ::
  map (fun i =>
         if before_warmup i period then None
         else Some (RSI_value (RSI_avg gains period i) (RSI_avg losses period i)))
      (seq 0 (length gains)).

Record MACDSeries : Type := mkMACDSeries {
  macd : list cell;
  signal : list cell;
  histogram : list cell
}.

(** [a - b[i]] unless either is [null] *)
Definition diff_at (b : list cell) (a : cell) (i : nat) : cell :=
  match a, nth_error b i with
  | None, _ => None
  | Some _, Some None => None
  | Some x, Some (Some y) => Some (x - y)
  | Some x, None => Some NaN
  end.

(** the re-alignment loop of [MACD]: [signalIndex] advances on the
    non-null entries of [macdLine] *)
Fixpoint MACD_align (signalEMA : list cell) (signalIndex : nat)
         (macdLine : list cell) : list cell :=
  match macdLine with
  | [] => []
  | None :: tl => None :: MACD_align signalEMA signalIndex tl
  | Some _ :: tl =>
      or_null (nth_error signalEMA signalIndex)
        :: MACD_align signalEMA (S signalIndex) tl
  end.

Definition MACD (closes : list num) (fastPeriod slowPeriod signalPeriod : nat)
  : MACDSeries :=
  let fastEMA := EMA closes fastPeriod in
  let slowEMA := EMA closes slowPeriod in
  let macdLine := mapi (diff_at slowEMA) fastEMA in
  let validMacd := valid macdLine in
  let signalEMA := EMA validMacd signalPeriod in
  let signal := MACD_align signalEMA 0 macdLine in
  let histogram := mapi (diff_at signal) macdLine in
  mkMACDSeries macdLine signal histogram.

Record Bands : Type := mkBands {
  upper : list cell;
  middle : list cell;
  lower : list cell
}.

Section WithSqrt.

(** [Math.sqrt] *)
Variable Math_sqrt : num -> num.

(** the standard deviation of the window ending at [i] around [mean] *)
Definition BB_std (closes : list num) (period i : nat) (mean : num) : num :=
  let slice := window closes i period in
  let squaredDiffs := map (fun val => (val - mean) * (val - mean)) slice in
  let variance := sum squaredDiffs / of_nat period in
  Math_sqrt variance.

Definition BollingerBands (closes : list num) (period : nat) (stdDev : num)
  : Bands :=
  let middle := SMA closes period in
  let band (sign : num -> num -> num) :=
    map (fun i =>
           if before_warmup i period then None
           else
             let mean := at_cell middle i in
             let std := BB_std closes period i mean in
             Some (sign mean (stdDev * std)))
        (seq 0 (length closes)) in
  mkBands (band add) middle (band sub).

End WithSqrt.

(** the true range of a candle after [prev] *)
Definition trueRange (prev c : Candle) : num :=
  Math_max [high c - low c; abs (high c - close prev); abs (low c - close prev)].

Definition ATR_trueRanges (candles : list Candle) : list num :=
  match candles with
  | [] => []
  | c0 :: _ => (high c0 - low c0) :: pairs_map trueRange candles
  end.

Definition ATR (candles : list Candle) (period : nat) : list cell :=
  EMA (ATR_trueRanges candles) period.

Definition VolumeMA (volumes : list num) (period : nat) : list cell :=
  SMA volumes period.

(** the loop of [wilderSmooth]: [prior] is [result[i - 1]], [None] while
    nothing was pushed ([undefined]) *)
Fixpoint wilder_loop (period : nat) (first : num) (i : nat)
         (prior : option cell) (rest : list cell) : list cell :=
  match rest with
  | [] => []
  | d :: tl =>
      let out :=
        if before_warmup i period then None
        else if at_warmup i period then Some first
        else match prior with
             | Some None => None
             | Some (Some p) => Some (p - p / of_nat period + or_zero d)
             | None => Some NaN
             end in
      out :: wilder_loop period first (S i) (Some out) tl
  end.

Definition wilderSmooth (data : list cell) (period : nat) : list cell :=
  let sum :=
    fold_left (fun a b => or_zero (Some a) + or_zero b) (prefix data period) $0 in
  wilder_loop period (sum / of_nat period) 0 None data.

Definition plusDM (prev c : Candle) : num :=
  let upMove := high c - high prev in
  let downMove := low prev - low c in
  if (upMove >? downMove) && (upMove >? $0) then upMove else $0.

Definition minusDM (prev c : Candle) : num :=
  let upMove := high c - high prev in
  let downMove := low prev - low c in
  if (downMove >? upMove) && (downMove >? $0) then downMove else $0.

(** the entry of [dx] at index [i] *)
Definition ADX_dx (smoothedTR smoothedPlusDM smoothedMinusDM : list cell)
           (i : nat) : cell :=
  match nth_error smoothedTR i with
  | Some (Some tr) =>
      if tr === $0 then None
      else
        let pDI := at_cell smoothedPlusDM i / tr * $100 in
        let mDI := at_cell smoothedMinusDM i / tr * $100 in
        let diSum := pDI + mDI in
        if diSum === $0 then Some $0
        else Some (abs (pDI - mDI) / diSum * $100)
  | _ => None
  end.

Definition ADX (candles : list Candle) (period : nat) : list cell :=
  if (length candles <? period + 1)%nat then repeat None (length candles)
  else
    let plusDMs := pairs_map plusDM candles in
    let minusDMs := pairs_map minusDM candles in
    let trueRanges := pairs_map trueRange candles in
    let smoothedTR := wilderSmooth (map Some trueRanges) period in
    let smoothedPlusDM := wilderSmooth (map Some plusDMs) period in
    let smoothedMinusDM := wilderSmooth (map Some minusDMs) period in
    let dx :=
      map (ADX_dx smoothedTR smoothedPlusDM smoothedMinusDM)
          (seq 0 (length smoothedTR)) in
    None :: wilderSmooth dx period.

Record Stoch : Type := mkStoch {
  k : list cell;
  d : list cell;
  raw : list cell
}.

(** the entry of [stochRSI] at index [i] *)
Definition StochRSI_raw (rsi : list cell) (stochPeriod i : nat) : cell :=
  match nth_error rsi i with
  | Some (Some cur) =>
      if before_warmup i stochPeriod then None
      else
        let rsiSlice := valid (window rsi i stochPeriod) in
        if (length rsiSlice <? stochPeriod)%nat then None
        else
          let minRSI := Math_min rsiSlice in
          let maxRSI := Math_max rsiSlice in
          if maxRSI === minRSI then Some $50
          else Some ((cur - minRSI) / (maxRSI - minRSI) * $100)
  | _ => None
  end.

Definition StochRSI (closes : list num)
           (rsiPeriod stochPeriod kPeriod dPeriod : nat) : Stoch :=
  let rsi := RSI closes rsiPeriod in
  let stochRSI := map (StochRSI_raw rsi stochPeriod) (seq 0 (length rsi)) in
  let validStoch := valid stochRSI in
  let kLine := SMA validStoch kPeriod in
  let dLine := SMA (valid kLine) dPeriod in
  mkStoch kLine dLine stochRSI.

End TechnicalIndicators.

(** ** The signal engine: [class SignalEngine] *)

Module SignalEngine.

Import TechnicalIndicators.
Local Open Scope string_scope.
Local Open Scope list_scope.
Local Open Scope js_scope.

(** *** Values read from series and objects *)

(** [ToNumber] of an entry inside a comparison or arithmetic: [null] is [0] *)
Definition cnum (c : cell) : num :=
  match c with
  | Some v => v
  | None => $0
  end.

(** truthiness of an entry: [null], [0] and [NaN] are falsy *)
Definition ctruthy (c : cell) : bool :=
  match c with
  | Some v => truthy v
  | None => false
  end.

(** [candles[i]] for an index inside the array *)
Definition candle_at (l : list Candle) (i : nat) : Candle :=
  nth i l (mkCandle NaN NaN NaN NaN NaN NaN None).

(** [candles.slice(-k)] *)
Definition last_n {A : Type} (l : list A) (k : nat) : list A :=
  slice_from l (- Z.of_nat k).

(** *** Template strings

    A template literal is the list of its pieces: the literal parts and the
    interpolated values as they are formatted. *)

Inductive Piece : Type :=
| Lit (s : string)                (* literal text *)
| Fixed (digits : nat) (x : num)  (* [${x.toFixed(digits)}] *)
| Int (z : Z)                     (* [${z}] for an integer *)
| Num (x : num)                   (* [${x}] *)
| NA.                             (* ['N/A'] *)

Definition Text : Type := list Piece.

(** *** Configuration *)

Record Config : Type := mkConfig {
  rsiPeriod : nat;
  rsiOversold : num;
  rsiOverbought : num;
  macdFast : nat;
  macdSlow : nat;
  macdSignal : nat;
  emaFast : nat;
  emaSlow : nat;
  emaTrend : nat;
  ema200 : nat;
  bbPeriod : nat;
  bbStdDev : num;
  atrPeriod : nat;
  atrMultiplierLong : num;
  atrMultiplierShort : num;
  adxPeriod : nat;
  adxTrendThreshold : num;
  minScoreForSignal : num;
  minConfluence : num;
  sidewaysADXThreshold : num;
  riskRewardRatio : num;
  maxRiskPercent : num
}.

(** [config.x || d] for a period and for a threshold; [None] is a missing
    option *)
Definition period_or (v : option nat) (d : nat) : nat :=
  match v with
  | Some (S n) => S n
  | _ => d
  end.

Definition num_or (v : option num) (d : num) : num :=
  match v with
  | Some x => if truthy x then x else d
  | None => d
  end.

(** the options object given to the constructor *)
Record Options : Type := mkOptions {
  o_rsiPeriod : option nat;
  o_rsiOversold : option num;
  o_rsiOverbought : option num;
  o_macdFast : option nat;
  o_macdSlow : option nat;
  o_macdSignal : option nat;
  o_emaFast : option nat;
  o_emaSlow : option nat;
  o_emaTrend : option nat;
  o_ema200 : option nat;
  o_bbPeriod : option nat;
  o_bbStdDev : option num;
  o_atrPeriod : option nat;
  o_atrMultiplierLong : option num;
  o_atrMultiplierShort : option num;
  o_adxPeriod : option nat;
  o_adxTrendThreshold : option num;
  o_minScoreForSignal : option num;
  o_minConfluence : option num;
  o_sidewaysADXThreshold : option num;
  o_riskRewardRatio : option num;
  o_maxRiskPercent : option num
}.

Definition constructor (config : Options) : Config :=
  {| rsiPeriod := period_or (o_rsiPeriod config) 14;
     rsiOversold := num_or (o_rsiOversold config) $25;
     rsiOverbought := num_or (o_rsiOverbought config) $75;
     macdFast := period_or (o_macdFast config) 12;
     macdSlow := period_or (o_macdSlow config) 26;
     macdSignal := period_or (o_macdSignal config) 9;
     emaFast := period_or (o_emaFast config) 9;
     emaSlow := period_or (o_emaSlow config) 21;
     emaTrend := period_or (o_emaTrend config) 50;
     ema200 := period_or (o_ema200 config) 200;
     bbPeriod := period_or (o_bbPeriod config) 20;
     bbStdDev := num_or (o_bbStdDev config) $2;
     atrPeriod := period_or (o_atrPeriod config) 14;
     atrMultiplierLong := num_or (o_atrMultiplierLong config) $2.5;
     atrMultiplierShort := num_or (o_atrMultiplierShort config) $2.5;
     adxPeriod := period_or (o_adxPeriod config) 14;
     adxTrendThreshold := num_or (o_adxTrendThreshold config) $25;
     minScoreForSignal := num_or (o_minScoreForSignal config) $4;
     minConfluence := num_or (o_minConfluence config) $3;
     sidewaysADXThreshold := num_or (o_sidewaysADXThreshold config) $20;
     riskRewardRatio := num_or (o_riskRewardRatio config) $1.5;
     maxRiskPercent := num_or (o_maxRiskPercent config) $2 |}.

(** *** Smart-money analyzers *)

Inductive SwingType : Type := HIGH | LOW.

Record SwingPoint : Type := mkSwingPoint {
  sp_type : SwingType;
  sp_price : num;
  sp_index : nat
}.

Record MarketStructure : Type := mkMarketStructure {
  ms_trend : string;
  ms_pattern : string;
  ms_score : Z;
  ms_swingPoints : option (list SwingPoint)
}.

(** the swing points pushed at index [i] of [recentCandles] *)
Definition swings_at (recentCandles : list Candle) (i : nat) : list SwingPoint :=
  let curr := candle_at recentCandles i in
  let prev1 := candle_at recentCandles (i - 1) in
  let prev2 := candle_at recentCandles (i - 2) in
  let next1 := candle_at recentCandles (i + 1) in
  let next2 := candle_at recentCandles (i + 2) in
  (if (high curr >? high prev1) && (high curr >? high prev2) &&
      (high curr >? high next1) && (high curr >? high next2)
   then [mkSwingPoint HIGH (high curr) i] else [])
  ++
  (if (low curr <? low prev1) && (low curr <? low prev2) &&
      (low curr <? low next1) && (low curr <? low next2)
   then [mkSwingPoint LOW (low curr) i] else []).

Definition is_high (p : SwingPoint) : bool :=
  match sp_type p with HIGH => true | LOW => false end.

(** [xs[xs.length - 1]] and [xs[xs.length - 2]] *)
Definition last1 (xs : list num) : num := at_num xs (length xs - 1).
Definition last2 (xs : list num) : num := at_num xs (length xs - 2).

Definition analyzeMarketStructure (candles : list Candle) : MarketStructure :=
  if (length candles <? 20)%nat then mkMarketStructure "UNKNOWN" "N/A" 0 None
  else
    let recentCandles := last_n candles 20 in
    let swingPoints :=
      flat_map (swings_at recentCandles) (seq 2 (length recentCandles - 4)) in
    if (length swingPoints <? 4)%nat then
      mkMarketStructure "SIDEWAYS" "Không đủ swing points" 0 None
    else
      let lastPoints := last_n swingPoints 4 in
      let highs := map sp_price (filter is_high lastPoints) in
      let lows := map sp_price (filter (fun p => negb (is_high p)) lastPoints) in
      if (2 <=? length highs)%nat && (2 <=? length lows)%nat then
        let isHH := last1 highs >? last2 highs in
        let isHL := last1 lows >? last2 lows in
        let isLH := last1 highs <? last2 highs in
        let isLL := last1 lows <? last2 lows in
        if isHH && isHL then
          mkMarketStructure "UPTREND" "HH+HL" 2 (Some lastPoints)
        else if isLH && isLL then
          mkMarketStructure "DOWNTREND" "LH+LL" (-2) (Some lastPoints)
        else if isHH && isLL then
          mkMarketStructure "SIDEWAYS" "HH+LL (Expanding)" 0 (Some lastPoints)
        else if isLH && isHL then
          mkMarketStructure "SIDEWAYS" "LH+HL (Contracting)" 0 (Some lastPoints)
        else mkMarketStructure "SIDEWAYS" "" 0 (Some lastPoints)
      else mkMarketStructure "SIDEWAYS" "" 0 (Some lastPoints).

Record VolumeConfirmation : Type := mkVolumeConfirmation {
  vc_ratio : num;
  vc_signal : string;
  vc_score : Z;
  vc_description : option Text;
  vc_avgVolume : option num;
  vc_currentVolume : option num
}.

Definition analyzeVolumeConfirmation (candles : list Candle)
           (volumes : list num) : VolumeConfirmation :=
  if (length volumes <? 20)%nat then
    mkVolumeConfirmation $0 "N/A" 0 None None None
  else
    let recentVolumes := last_n volumes 20 in
    let avgVolume := sum recentVolumes / of_nat (length recentVolumes) in
    let currentVolume := at_num volumes (length volumes - 1) in
    let ratio := currentVolume / avgVolume in
    let out (signal : string) (score : Z) (description : string) :=
      mkVolumeConfirmation (toFixed 2 ratio) signal score
        (Some [Lit description]) (Some avgVolume) (Some currentVolume) in
    if ratio >=? $2 then out "VERY_HIGH" 2%Z "Volume rất cao - Xác nhận mạnh"
    else if ratio >=? $1.5 then out "HIGH" 1%Z "Volume cao - Có xác nhận"
    else if ratio <? $0.5 then out "LOW" (-1)%Z "Volume thấp - Thiếu xác nhận"
    else out "NORMAL" 0%Z "Volume bình thường".

Record Zone : Type := mkZone {
  z_high : num;
  z_low : num;
  z_index : nat
}.

Record OrderBlock : Type := mkOrderBlock {
  ob_type : string;
  ob_zone : option Zone;
  ob_score : Z;
  ob_description : option Text
}.

(** [recentCandles.slice(i + 1, i + 4)] *)
Definition nextCandles (recentCandles : list Candle) (i : nat) : list Candle :=
  slice recentCandles (Z.of_nat i + 1) (Z.of_nat i + 4).

(** one step of the first loop of [findOrderBlocks] *)
Definition bullishOB_step (recentCandles : list Candle) (currentPrice : num)
           (bullishOB : option Zone) (i : nat) : option Zone :=
  let candle := candle_at recentCandles i in
  if close candle <? open candle then
    let moveUp :=
      existsb (fun c => close c >? high candle * $1.01)
              (nextCandles recentCandles i) in
    if moveUp && (currentPrice >? low candle) &&
       (currentPrice <? high candle * $1.05)
    then Some (mkZone (high candle) (low candle) i)
    else bullishOB
  else bullishOB.

(** one step of the second loop *)
Definition bearishOB_step (recentCandles : list Candle) (currentPrice : num)
           (bearishOB : option Zone) (i : nat) : option Zone :=
  let candle := candle_at recentCandles i in
  if close candle >? open candle then
    let moveDown :=
      existsb (fun c => close c <? low candle * $0.99)
              (nextCandles recentCandles i) in
    if moveDown && (currentPrice <? high candle) &&
       (currentPrice >? low candle * $0.95)
    then Some (mkZone (high candle) (low candle) i)
    else bearishOB
  else bearishOB.

Definition findOrderBlocks (candles : list Candle) (currentPrice : num)
  : OrderBlock :=
  if (length candles <? 30)%nat then mkOrderBlock "NONE" None 0 None
  else
    let recentCandles := last_n candles 30 in
    let range := seq 5 (length recentCandles - 3 - 5) in
    let bullishOB :=
      fold_left (bullishOB_step recentCandles currentPrice) range None in
    let bearishOB :=
      fold_left (bearishOB_step recentCandles currentPrice) range None in
    match bullishOB, bearishOB with
    | Some b, None =>
        mkOrderBlock "BULLISH" bullishOB 2
          (Some [Lit "Giá trong vùng Bullish OB - Hỗ trợ LONG"])
    | Some b, Some s =>
        if (z_index s <? z_index b)%nat then
          mkOrderBlock "BULLISH" bullishOB 2
            (Some [Lit "Giá trong vùng Bullish OB - Hỗ trợ LONG"])
        else
          mkOrderBlock "BEARISH" bearishOB (-2)
            (Some [Lit "Giá trong vùng Bearish OB - Hỗ trợ SHORT"])
    | None, Some s =>
        mkOrderBlock "BEARISH" bearishOB (-2)
          (Some [Lit "Giá trong vùng Bearish OB - Hỗ trợ SHORT"])
    | None, None =>
        mkOrderBlock "NONE" None 0 (Some [Lit "Không có Order Block gần"])
    end.

Record Pullback : Type := mkPullback {
  pb_type : string;
  pb_depth : num;
  pb_score : Z;
  pb_description : option Text
}.

Definition analyzePullback (candles : list Candle) (currentPrice : num)
  : Pullback :=
  if (length candles <? 20)%nat then mkPullback "NONE" $0 0 None
  else
    let recentCandles := last_n candles 20 in
    let highs := map high recentCandles in
    let lows := map low recentCandles in
    let recentHigh := Math_max highs in
    let recentLow := Math_min lows in
    let range := recentHigh - recentLow in
    if range === $0 then mkPullback "NONE" $0 0 None
    else
      let distanceFromHigh := recentHigh - currentPrice in
      let distanceFromLow := currentPrice - recentLow in
      if distanceFromHigh >? distanceFromLow then
        let depth := distanceFromHigh / range * $100 in
        let out (type : string) (score : Z) (description : Text) :=
          mkPullback type (toFixed 1 depth) score (Some description) in
        if (depth >=? $38.2) && (depth <=? $61.8) then
          out "BULLISH_PULLBACK" 2%Z
            [Lit "Pullback "; Fixed 1 depth; Lit "% - Vùng Fibonacci hỗ trợ LONG"]
        else if (depth >=? $23.6) && (depth <? $38.2) then
          out "SHALLOW_PULLBACK" 1%Z
            [Lit "Pullback nông "; Fixed 1 depth; Lit "%"]
        else if depth >? $61.8 then
          out "DEEP_PULLBACK" (-1)%Z
            [Lit "Pullback sâu "; Fixed 1 depth; Lit "% - Cẩn thận đảo chiều"]
        else out "NONE" 0%Z []
      else
        let depth := distanceFromLow / range * $100 in
        let out (type : string) (score : Z) (description : Text) :=
          mkPullback type (toFixed 1 depth) score (Some description) in
        if (depth >=? $38.2) && (depth <=? $61.8) then
          out "BEARISH_PULLBACK" (-2)%Z
            [Lit "Pullback "; Fixed 1 depth; Lit "% - Vùng Fibonacci hỗ trợ SHORT"]
        else if (depth >=? $23.6) && (depth <? $38.2) then
          out "SHALLOW_PULLBACK" (-1)%Z
            [Lit "Pullback nông "; Fixed 1 depth; Lit "%"]
        else if depth >? $61.8 then
          out "DEEP_PULLBACK" 1%Z
            [Lit "Pullback sâu "; Fixed 1 depth; Lit "% - Có thể đảo chiều"]
        else out "NONE" 0%Z [].

(** *** Support and resistance *)

Record SRLevels : Type := mkSRLevels {
  supports : list num;
  resistances : list num;
  nearestSupport : cell;
  nearestResistance : cell;
  supportDistance : option num;     (* [toFixed(2) + '%'] *)
  resistanceDistance : option num
}.

(** [arr.sort(cmp)] by stable insertion; [cmp a b > 0] puts [b] first *)
Fixpoint insert_by (cmp : num -> num -> num) (x : num) (sorted : list num)
  : list num :=
  match sorted with
  | [] => [x]
  | y :: tl => if cmp y x >? $0 then x :: y :: tl else y :: insert_by cmp x tl
  end.

Definition sort_by (cmp : num -> num -> num) (l : list num) : list num :=
  fold_left (fun acc x => insert_by cmp x acc) l [].

(** [arr.includes(x)] *)
Definition includes (l : list num) (x : num) : bool :=
  existsb (fun y => same_value_zero y x) l.

(** the inner loop over [j = 1..window], [window = 3] *)
Definition isSwingLow (recentCandles : list Candle) (i : nat) : bool :=
  let curr := candle_at recentCandles i in
  forallb (fun j =>
             let prev := candle_at recentCandles (i - j) in
             let next := candle_at recentCandles (i + j) in
             negb ((low curr >=? low prev) || (low curr >=? low next)))
          [1; 2; 3]%nat.

Definition isSwingHigh (recentCandles : list Candle) (i : nat) : bool :=
  let curr := candle_at recentCandles i in
  forallb (fun j =>
             let prev := candle_at recentCandles (i - j) in
             let next := candle_at recentCandles (i + j) in
             negb ((high curr <=? high prev) || (high curr <=? high next)))
          [1; 2; 3]%nat.

(** the loop [for (const s of supports)]: the state is
    [(minSupportDist, nearestSupport)] *)
Definition nearest_below (currentPrice : num) (st : num * cell) (s : num)
  : num * cell :=
  if s <? currentPrice then
    let dist := currentPrice - s in
    if dist <? fst st then (dist, Some s) else st
  else st.

Definition nearest_above (currentPrice : num) (st : num * cell) (r : num)
  : num * cell :=
  if r >? currentPrice then
    let dist := r - currentPrice in
    if dist <? fst st then (dist, Some r) else st
  else st.

Definition findSupportResistance (candles : list Candle) (currentPrice : num)
  : SRLevels :=
  if (length candles <? 50)%nat then mkSRLevels [] [] None None None None
  else
    let recentCandles := last_n candles 50 in
    let range := seq 3 (length recentCandles - 3 - 3) in
    let supports0 :=
      flat_map (fun i => if isSwingLow recentCandles i
                         then [low (candle_at recentCandles i)] else []) range in
    let resistances0 :=
      flat_map (fun i => if isSwingHigh recentCandles i
                         then [high (candle_at recentCandles i)] else []) range in
    let last20 := last_n candles 20 in
    let recentLow := Math_min (map low last20) in
    let recentHigh := Math_max (map high last20) in
    let supports :=
      if includes supports0 recentLow then supports0
      else supports0 ++ [recentLow] in
    let resistances :=
      if includes resistances0 recentHigh then resistances0
      else resistances0 ++ [recentHigh] in
    let found_support :=
      snd (fold_left (nearest_below currentPrice) supports (PInf, None)) in
    let found_resistance :=
      snd (fold_left (nearest_above currentPrice) resistances (PInf, None)) in
    let nearestSupport :=
      if ctruthy found_support then found_support
      else Some (currentPrice * $0.97) in
    let nearestResistance :=
      if ctruthy found_resistance then found_resistance
      else Some (currentPrice * $1.03) in
    mkSRLevels
      (sort_by (fun a b => b - a) supports)
      (sort_by (fun a b => a - b) resistances)
      nearestSupport
      nearestResistance
      (Some (toFixed 2 ((currentPrice - cnum nearestSupport) / currentPrice * $100)))
      (Some (toFixed 2 ((cnum nearestResistance - currentPrice) / currentPrice * $100))).

(** *** Indicators and their latest values *)

Record Indicators : Type := mkIndicators {
  i_rsi : list cell;
  i_macd : MACDSeries;
  i_emaFast : list cell;
  i_emaSlow : list cell;
  i_emaTrend : list cell;
  i_ema200 : list cell;
  i_bb : Bands;
  i_atr : list cell;
  i_adx : option (list cell);
  i_volumeMA : list cell
}.

Record LatestRSI : Type := mkLatestRSI {
  current : cell;
  previous : cell
}.

Record LatestMACD : Type := mkLatestMACD {
  l_macd : cell;
  l_signal : cell;
  l_histogram : cell;
  l_prevHistogram : cell
}.

Record LatestEMA : Type := mkLatestEMA {
  l_fast : cell;
  l_slow : cell;
  l_trend : cell;
  l_ema200 : cell
}.

Record LatestBB : Type := mkLatestBB {
  l_upper : cell;
  l_middle : cell;
  l_lower : cell
}.

Record LatestIndicators : Type := mkLatestIndicators {
  li_rsi : LatestRSI;
  li_macd : LatestMACD;
  li_ema : LatestEMA;
  li_bb : LatestBB;
  li_atr : cell;
  li_adx : cell;
  li_volumeMA : cell
}.

(** the non-null entries met when scanning from the end *)
Definition from_end (arr : list cell) : list num := valid (rev arr).

Definition getLatest (arr : list cell) : cell := nth_error (from_end arr) 0.
Definition getPrevious (arr : list cell) : cell := nth_error (from_end arr) 1.

Definition getLatestIndicators (indicators : Indicators) : LatestIndicators :=
  {| li_rsi := mkLatestRSI (getLatest (i_rsi indicators))
                           (getPrevious (i_rsi indicators));
     li_macd := mkLatestMACD (getLatest (macd (i_macd indicators)))
                             (getLatest (signal (i_macd indicators)))
                             (getLatest (histogram (i_macd indicators)))
                             (getPrevious (histogram (i_macd indicators)));
     li_ema := mkLatestEMA (getLatest (i_emaFast indicators))
                           (getLatest (i_emaSlow indicators))
                           (getLatest (i_emaTrend indicators))
                           (getLatest (i_ema200 indicators));
     li_bb := mkLatestBB (getLatest (upper (i_bb indicators)))
                         (getLatest (middle (i_bb indicators)))
                         (getLatest (lower (i_bb indicators)));
     li_atr := getLatest (i_atr indicators);
     li_adx := match i_adx indicators with
               | Some adx => getLatest adx
               | None => None
               end;
     li_volumeMA := getLatest (i_volumeMA indicators) |}.

(** *** Per-indicator scoring *)

Record IndicatorAnalysis : Type := mkIndicatorAnalysis {
  ia_signal : string;
  ia_score : Z;
  ia_description : Text;
  ia_values : list (string * cell)   (* the raw values returned along *)
}.

Inductive Strength : Type := WEAK | MODERATE | STRONG.

Definition analyzeADX (adx : cell) : IndicatorAnalysis :=
  match adx with
  | None =>
      mkIndicatorAnalysis "N/A" 0 [Lit "Không có dữ liệu ADX"] [("value", None)]
  | Some a =>
      let out (signal : string) (description : string) :=
        mkIndicatorAnalysis signal 0
          [Lit "ADX "; Fixed 1 a; Lit description] [("value", adx)] in
      if a >=? $50 then
        out "VERY_STRONG_TREND" " - Trend RẤT MẠNH (thuận lợi cho trend following)"
      else if a >=? $25 then out "STRONG_TREND" " - Trend đủ mạnh để giao dịch"
      else if a >=? $20 then out "WEAK_TREND" " - Trend yếu, cẩn thận"
      else out "SIDEWAY" " - THỊ TRƯỜNG SIDEWAY, TRÁNH GIAO DỊCH"
  end.

Section Engine.

(** [this.config] *)
Variable config : Config.

Definition analyzeRSI (rsi : LatestRSI) : IndicatorAnalysis :=
  match current rsi with
  | None => mkIndicatorAnalysis "N/A" 0 [Lit "Không đủ dữ liệu RSI"] []
  | Some cur =>
      let prev := previous rsi in
      let out (signal : string) (score : Z) (description : Text) :=
        mkIndicatorAnalysis signal score description [("value", Some cur)] in
      if cur <? rsiOversold config then
        if ctruthy prev && (cur >? cnum prev) then
          out "LONG" 3%Z
            [Lit "RSI quá bán ("; Fixed 1 cur; Lit ") - Cơ hội LONG";
             Lit " + RSI đang phục hồi"]
        else
          out "LONG" 2%Z [Lit "RSI quá bán ("; Fixed 1 cur; Lit ") - Cơ hội LONG"]
      else if cur >? rsiOverbought config then
        if ctruthy prev && (cur <? cnum prev) then
          out "SHORT" (-3)%Z
            [Lit "RSI quá mua ("; Fixed 1 cur; Lit ") - Cơ hội SHORT";
             Lit " + RSI đang suy yếu"]
        else
          out "SHORT" (-2)%Z
            [Lit "RSI quá mua ("; Fixed 1 cur; Lit ") - Cơ hội SHORT"]
      else if cur <? $35 then
        out "SLIGHTLY_BULLISH" 1%Z [Lit "RSI "; Fixed 1 cur; Lit " - Gần oversold"]
      else if cur >? $65 then
        out "SLIGHTLY_BEARISH" (-1)%Z
          [Lit "RSI "; Fixed 1 cur; Lit " - Gần overbought"]
      else
        out "NEUTRAL" 0%Z
          [Lit "RSI "; Fixed 1 cur; Lit " - Trung tính (không có tín hiệu)"]
  end.

Definition analyzeMACD (macd : LatestMACD) : IndicatorAnalysis :=
  match l_macd macd, l_signal macd with
  | Some macdLine, Some signalLine =>
      let histogram := l_histogram macd in
      let prevHistogram := l_prevHistogram macd in
      let out (signal : string) (score : Z) (description : Text) :=
        mkIndicatorAnalysis signal score description
          [("macd", Some macdLine); ("signalLine", Some signalLine);
           ("histogram", histogram)] in
      let prev_nonnull_and (test : num -> bool) :=
        match prevHistogram with Some p => test p | None => false end in
      if (cnum histogram >? $0) && prev_nonnull_and (fun p => p <=? $0) then
        out "LONG" 3%Z [Lit "MACD Golden Cross - Tín hiệu LONG mạnh"]
      else if (cnum histogram <? $0) && prev_nonnull_and (fun p => p >=? $0) then
        out "SHORT" (-3)%Z [Lit "MACD Death Cross - Tín hiệu SHORT mạnh"]
      else if cnum histogram >? $0 then
        if cnum histogram >? cnum prevHistogram then
          out "BULLISH" 2%Z [Lit "MACD bullish"; Lit " và tăng"]
        else out "BULLISH" 1%Z [Lit "MACD bullish"; Lit ""]
      else
        if cnum histogram <? cnum prevHistogram then
          out "BEARISH" (-2)%Z [Lit "MACD bearish"; Lit " và giảm"]
        else out "BEARISH" (-1)%Z [Lit "MACD bearish"; Lit ""]
  | _, _ => mkIndicatorAnalysis "N/A" 0 [Lit "Không đủ dữ liệu MACD"] []
  end.

Definition analyzeEMA (ema : LatestEMA) (currentPrice : num)
  : IndicatorAnalysis :=
  match l_fast ema, l_slow ema with
  | Some fast, Some slow =>
      let trend := l_trend ema in
      let out (signal : string) (score : Z) (description : Text) :=
        mkIndicatorAnalysis signal score description
          [("fast", Some fast); ("slow", Some slow); ("trend", trend)] in
      if fast >? slow then
        if ctruthy trend && (currentPrice >? cnum trend) then
          out "BULLISH" (0 + 1 + 1)%Z
            [Lit "EMA9 > EMA21 (Bullish)"; Lit ", Giá > EMA50"]
        else out "BULLISH" (0 + 1)%Z [Lit "EMA9 > EMA21 (Bullish)"]
      else
        if ctruthy trend && (currentPrice <? cnum trend) then
          out "BEARISH" (0 - 1 - 1)%Z
            [Lit "EMA9 < EMA21 (Bearish)"; Lit ", Giá < EMA50"]
        else out "BEARISH" (0 - 1)%Z [Lit "EMA9 < EMA21 (Bearish)"]
  | _, _ => mkIndicatorAnalysis "N/A" 0 [Lit "Không đủ dữ liệu EMA"] []
  end.

Definition analyzeBB (bb : LatestBB) (currentPrice : num) : IndicatorAnalysis :=
  match l_upper bb, l_lower bb with
  | Some upper, Some lower =>
      let middle := l_middle bb in
      let bbWidth := (upper - lower) / cnum middle * $100 in
      let pricePosition := (currentPrice - lower) / (upper - lower) * $100 in
      let out (signal : string) (score : Z) (description : string) :=
        mkIndicatorAnalysis signal score [Lit description]
          [("upper", Some upper); ("middle", middle); ("lower", Some lower);
           ("width", Some (toFixed 2 bbWidth));
           ("pricePosition", Some (toFixed 2 pricePosition))] in
      if currentPrice <=? lower then
        out "LONG" 2%Z "Giá chạm BB Lower - Cơ hội LONG (Oversold)"
      else if currentPrice >=? upper then
        out "SHORT" (-2)%Z "Giá chạm BB Upper - Cơ hội SHORT (Overbought)"
      else if pricePosition <? $20 then
        out "BULLISH" 1%Z "Giá gần BB Lower - Tiềm năng tăng"
      else if pricePosition >? $80 then
        out "BEARISH" (-1)%Z "Giá gần BB Upper - Tiềm năng giảm"
      else out "NEUTRAL" 0%Z "Giá trong vùng trung tính BB"
  | _, _ => mkIndicatorAnalysis "N/A" 0 [Lit "Không đủ dữ liệu BB"] []
  end.

Definition analyzeTrend (ema : LatestEMA) (currentPrice : num)
  : IndicatorAnalysis :=
  let fast := cnum (l_fast ema) in
  let slow := cnum (l_slow ema) in
  if negb (ctruthy (l_trend ema)) then
    mkIndicatorAnalysis "N/A" 0 [Lit "Không đủ dữ liệu trend"] []
  else
    let trend := cnum (l_trend ema) in
    if (currentPrice >? fast) && (fast >? slow) && (slow >? trend) then
      mkIndicatorAnalysis "STRONG_UPTREND" 2
        [Lit "Uptrend mạnh - Thuận lợi cho LONG"] []
    else if (currentPrice <? fast) && (fast <? slow) && (slow <? trend) then
      mkIndicatorAnalysis "STRONG_DOWNTREND" (-2)
        [Lit "Downtrend mạnh - Thuận lợi cho SHORT"] []
    else if currentPrice >? trend then
      mkIndicatorAnalysis "UPTREND" 1 [Lit "Uptrend - Xu hướng tăng"] []
    else
      mkIndicatorAnalysis "DOWNTREND" (-1) [Lit "Downtrend - Xu hướng giảm"] [].

Definition getSignalStrength (avgScore : num) : Strength :=
  let absScore := abs avgScore in
  if absScore >=? $2 then STRONG
  else if absScore >=? $1 then MODERATE
  else WEAK.

(** *** Aggregation *)

Record Analysis : Type := mkAnalysis {
  a_rsi : IndicatorAnalysis;
  a_macd : IndicatorAnalysis;
  a_ema : IndicatorAnalysis;
  a_bb : IndicatorAnalysis;
  a_trend : IndicatorAnalysis;
  a_adx : IndicatorAnalysis;
  totalScore : Z;
  averageScore : num;
  strength : Strength;
  bullishConfluence : Z;
  bearishConfluence : Z;
  confluence : Z;
  isSideway : bool;
  hasTrend : bool
}.

(** the counters of the [mainIndicators.forEach] loop *)
Record Tally : Type := mkTally {
  t_totalScore : Z;
  t_signalCount : Z;
  t_bullishCount : Z;
  t_bearishCount : Z
}.

Definition tally_step (t : Tally) (a : IndicatorAnalysis) : Tally :=
  let total := (t_totalScore t + ia_score a)%Z in
  let count := (t_signalCount t + 1)%Z in
  if (ia_score a >? 0)%Z then
    mkTally total count (t_bullishCount t + 1)%Z (t_bearishCount t)
  else if (ia_score a <? 0)%Z then
    mkTally total count (t_bullishCount t) (t_bearishCount t + 1)%Z
  else mkTally total count (t_bullishCount t) (t_bearishCount t).

Definition analyzeIndicators (indicators : LatestIndicators)
           (currentPrice : num) : Analysis :=
  let rsi := analyzeRSI (li_rsi indicators) in
  let macd := analyzeMACD (li_macd indicators) in
  let ema := analyzeEMA (li_ema indicators) currentPrice in
  let bb := analyzeBB (li_bb indicators) currentPrice in
  let trend := analyzeTrend (li_ema indicators) currentPrice in
  let adx := analyzeADX (li_adx indicators) in
  let mainIndicators := [rsi; macd; ema; bb; trend] in
  let t := fold_left tally_step mainIndicators (mkTally 0 0 0 0) in
  let averageScore :=
    if (t_signalCount t >? 0)%Z
    then of_Z (t_totalScore t) / of_Z (t_signalCount t) else $0 in
  {| a_rsi := rsi; a_macd := macd; a_ema := ema; a_bb := bb;
     a_trend := trend; a_adx := adx;
     totalScore := t_totalScore t;
     averageScore := averageScore;
     strength := getSignalStrength averageScore;
     bullishConfluence := t_bullishCount t;
     bearishConfluence := t_bearishCount t;
     confluence := Z.max (t_bullishCount t) (t_bearishCount t);
     isSideway :=
       match li_adx indicators with
       | Some adx => adx <? sidewaysADXThreshold config
       | None => false
       end;
     hasTrend :=
       match li_adx indicators with
       | Some adx => adx >=? adxTrendThreshold config
       | None => false
       end |}.

(** *** The signal composer *)

Inductive Action : Type := LONG | SHORT | WAIT.

Inductive LeverageRisk : Type := RISK_LOW | RISK_MODERATE | RISK_HIGH.

Definition positive_descriptions (analysis : Analysis) (keep : Z -> bool)
  : list Text :=
  flat_map (fun a => if keep (ia_score a) then [ia_description a] else [])
           [a_rsi analysis; a_macd analysis; a_ema analysis; a_bb analysis;
            a_trend analysis].

Definition getLongReasons (analysis : Analysis) : list Text :=
  positive_descriptions analysis (fun s => (s >? 0)%Z).

Definition getShortReasons (analysis : Analysis) : list Text :=
  positive_descriptions analysis (fun s => (s <? 0)%Z).

(** the rejection reasons of the three filters *)
Definition reason_sideway : Text :=
  [Lit "⛔ THỊ TRƯỜNG SIDEWAY (ADX < "; Num (sidewaysADXThreshold config);
   Lit ") - KHÔNG NÊN GIAO DỊCH"].

Definition reason_score (totalScore : Z) : Text :=
  [Lit "⚠️ Score ("; Int totalScore; Lit ") chưa đủ mạnh (cần ≥";
   Num (minScoreForSignal config); Lit " hoặc ≤-";
   Num (minScoreForSignal config); Lit ")"].

Definition reason_confluence (confluence : Z) : Text :=
  [Lit "⚠️ Chỉ có "; Int confluence; Lit " indicators đồng thuận (cần ≥";
   Num (minConfluence config); Lit ")"].

Definition reason_no_support : Text :=
  [Lit "⚠️ Không tìm thấy support rõ ràng để đặt SL"].

Definition reason_no_resistance : Text :=
  [Lit "⚠️ Không tìm thấy resistance rõ ràng để đặt SL"].

Definition filters (analysis : Analysis) : list Text :=
  (if isSideway analysis then [reason_sideway] else [])
  ++
  (let absScore := Z.abs (totalScore analysis) in
   if of_Z absScore <? minScoreForSignal config
   then [reason_score (totalScore analysis)] else [])
  ++
  (let confluence :=
     if (totalScore analysis >? 0)%Z then bullishConfluence analysis
     else bearishConfluence analysis in
   if of_Z confluence <? minConfluence config
   then [reason_confluence confluence] else []).

(** [`$${level?.toFixed(4) || 'N/A'}`] *)
Definition level_text (level : cell) : Piece :=
  match level with
  | Some x => Fixed 4 x
  | None => NA
  end.

(** the local variables after the LONG / SHORT / WAIT decision *)
Record Decision : Type := mkDecision {
  d_action : Action;
  d_confidence : num;
  d_stopLoss : cell;
  d_takeProfit : cell;
  d_reason : list Text;
  d_rejectionReasons : list Text
}.

Definition decide_long (analysis : Analysis) (currentPrice : num)
           (srLevels : SRLevels) (rejectionReasons0 : list Text) : Decision :=
  let totalScore := totalScore analysis in
  let bullishConfluence := bullishConfluence analysis in
  let nearSupport :=
    ctruthy (nearestSupport srLevels) &&
    ((currentPrice - cnum (nearestSupport srLevels)) / currentPrice <? $0.015) in
  let rejectionReasons :=
    if negb (ctruthy (nearestSupport srLevels))
    then rejectionReasons0 ++ [reason_no_support] else rejectionReasons0 in
  if (length rejectionReasons =? 0)%nat then
    let confidence0 :=
      min2 (of_Z totalScore / $10 * $100 + $30 + of_Z bullishConfluence * $5) $95 in
    let confidence :=
      if nearSupport then min2 (confidence0 + $10) $95 else confidence0 in
    let stopLoss0 := cnum (nearestSupport srLevels) * $0.997 in
    let minSLDistance := currentPrice * $0.015 in
    let stopLoss :=
      if currentPrice - stopLoss0 <? minSLDistance
      then currentPrice - minSLDistance else stopLoss0 in
    let slDistance := currentPrice - stopLoss in
    let takeProfit0 :=
      if ctruthy (nearestResistance srLevels) &&
         (cnum (nearestResistance srLevels) >? currentPrice * $1.005)
      then cnum (nearestResistance srLevels) * $0.998
      else currentPrice + slDistance * $1.5 in
    let takeProfit :=
      if takeProfit0 <=? currentPrice * $1.005
      then currentPrice + slDistance * $1.5 else takeProfit0 in
    let headline :=
      if nearSupport then [Lit "🎯 LONG tại SUPPORT - Win rate cao"]
      else if (totalScore >=? 7)%Z && (bullishConfluence >=? 4)%Z
      then [Lit "🔥 Tín hiệu LONG RẤT MẠNH"]
      else [Lit "✅ Tín hiệu LONG tốt"] in
    let reason :=
      (headline :: getLongReasons analysis)
      ++ [[Lit "📊 Confluence: "; Int bullishConfluence; Lit "/5 indicators bullish"];
          [Lit "🛡️ Support: $"; level_text (nearestSupport srLevels)];
          [Lit "🎯 Resistance: $"; level_text (nearestResistance srLevels)]] in
    mkDecision LONG confidence (Some stopLoss) (Some takeProfit) reason
               rejectionReasons
  else mkDecision WAIT $0 None None [] rejectionReasons.

Definition decide_short (analysis : Analysis) (currentPrice : num)
           (srLevels : SRLevels) (rejectionReasons0 : list Text) : Decision :=
  let totalScore := totalScore analysis in
  let bearishConfluence := bearishConfluence analysis in
  let nearResistance :=
    ctruthy (nearestResistance srLevels) &&
    ((cnum (nearestResistance srLevels) - currentPrice) / currentPrice <? $0.015) in
  let rejectionReasons :=
    if negb (ctruthy (nearestResistance srLevels))
    then rejectionReasons0 ++ [reason_no_resistance] else rejectionReasons0 in
  if (length rejectionReasons =? 0)%nat then
    let confidence0 :=
      min2 (abs (of_Z totalScore) / $10 * $100 + $30
            + of_Z bearishConfluence * $5) $95 in
    let confidence :=
      if nearResistance then min2 (confidence0 + $10) $95 else confidence0 in
    let stopLoss0 := cnum (nearestResistance srLevels) * $1.003 in
    let minSLDistanceShort := currentPrice * $0.015 in
    let stopLoss :=
      if stopLoss0 - currentPrice <? minSLDistanceShort
      then currentPrice + minSLDistanceShort else stopLoss0 in
    let slDistanceShort := stopLoss - currentPrice in
    let takeProfit0 :=
      if ctruthy (nearestSupport srLevels) &&
         (cnum (nearestSupport srLevels) <? currentPrice * $0.995)
      then cnum (nearestSupport srLevels) * $1.002
      else currentPrice - slDistanceShort * $1.5 in
    let takeProfit :=
      if takeProfit0 >=? currentPrice * $0.995
      then currentPrice - slDistanceShort * $1.5 else takeProfit0 in
    let headline :=
      if nearResistance then [Lit "🎯 SHORT tại RESISTANCE - Win rate cao"]
      else if (totalScore <=? -7)%Z && (bearishConfluence >=? 4)%Z
      then [Lit "🔥 Tín hiệu SHORT RẤT MẠNH"]
      else [Lit "✅ Tín hiệu SHORT tốt"] in
    let reason :=
      (headline :: getShortReasons analysis)
      ++ [[Lit "📊 Confluence: "; Int bearishConfluence; Lit "/5 indicators bearish"];
          [Lit "🛡️ Support: $"; level_text (nearestSupport srLevels)];
          [Lit "🎯 Resistance: $"; level_text (nearestResistance srLevels)]] in
    mkDecision SHORT confidence (Some stopLoss) (Some takeProfit) reason
               rejectionReasons
  else mkDecision WAIT $0 None None [] rejectionReasons.

Definition decide_wait (analysis : Analysis) (rejectionReasons : list Text)
  : Decision :=
  let reason :=
    [[Lit "🛑 KHÔNG CÓ TÍN HIỆU - Đứng ngoài thị trường"]]
    ++ (if (0 <? length rejectionReasons)%nat then rejectionReasons
        else [[Lit "Các chỉ báo chưa hội tụ đủ mạnh"]])
    ++ [[Lit "📊 Score: "; Int (totalScore analysis); Lit " | Bullish: ";
         Int (bullishConfluence analysis); Lit " | Bearish: ";
         Int (bearishConfluence analysis)]]
    ++ (if negb (hasTrend analysis) && negb (isSideway analysis)
        then [[Lit "💡 Trend yếu - chờ ADX tăng trên 25"]] else []) in
  mkDecision WAIT $0 None None reason rejectionReasons.

(** the filters and the [if / else if / else] chain of [generateSignal] *)
Definition decide (analysis : Analysis) (currentPrice : num)
           (candles : list Candle) : Decision :=
  let rejectionReasons := filters analysis in
  let passAllFilters := (length rejectionReasons =? 0)%nat in
  let srLevels := findSupportResistance candles currentPrice in
  if (of_Z (totalScore analysis) >=? minScoreForSignal config)
     && passAllFilters
     && (of_Z (bullishConfluence analysis) >=? minConfluence config)
  then decide_long analysis currentPrice srLevels rejectionReasons
  else if (of_Z (totalScore analysis) <=? neg (minScoreForSignal config))
          && passAllFilters
          && (of_Z (bearishConfluence analysis) >=? minConfluence config)
  then decide_short analysis currentPrice srLevels rejectionReasons
  else decide_wait analysis rejectionReasons.

Record Signal : Type := mkSignal {
  action : Action;
  s_confidence : num;          (* [toFixed(1) + '%'] *)
  s_strength : Strength;
  entry : num;
  stopLoss : cell;             (* [toFixed(2)] or [null] *)
  takeProfit : cell;           (* [toFixed(2)] or [null] *)
  riskPercent : cell;          (* [toFixed(2) + '%'] or [null] *)
  rewardPercent : cell;
  riskReward : cell;
  leverage : num;
  leverageRisk : LeverageRisk;
  s_atr : cell;
  atrPercent : cell;
  s_totalScore : Z;
  s_averageScore : num;        (* [toFixed(2)] *)
  reasons : list Text
}.

(** [riskPercent] and [rewardPercent] before formatting *)
Definition percent_from (currentPrice : num) (level : cell) (towards : bool)
  : cell :=
  if ctruthy level then
    Some (abs ((if towards then cnum level - currentPrice
                else currentPrice - cnum level) / currentPrice * $100))
  else None.

Definition risk_name (r : LeverageRisk) : string :=
  match r with
  | RISK_LOW => "LOW"
  | RISK_MODERATE => "MODERATE"
  | RISK_HIGH => "HIGH"
  end.

(** the tier [desiredLeverage] *)
Definition desiredLeverage (absScore confluenceScore : Z) : num :=
  if (absScore >=? 7)%Z && (confluenceScore >=? 4)%Z then $15
  else if (absScore >=? 5)%Z && (confluenceScore >=? 3)%Z then $12
  else if (absScore >=? 4)%Z && (confluenceScore >=? 3)%Z then $10
  else $8.

(** the leverage block: [(suggestedLeverage, leverageRisk, pushed reasons)] *)
Definition suggest_leverage (analysis : Analysis) (action : Action)
           (riskPercent : cell) : num * LeverageRisk * list Text :=
  match action, ctruthy riskPercent with
  | WAIT, _ | _, false => ($1, RISK_LOW, [])
  | _, true =>
      let riskPercent := cnum riskPercent in
      let absScore := Z.abs (totalScore analysis) in
      let confluenceScore :=
        if (totalScore analysis >? 0)%Z then bullishConfluence analysis
        else bearishConfluence analysis in
      let targetRisk := $25 in
      let calculatedLeverage := floor (targetRisk / riskPercent) in
      let suggested0 :=
        min2 (desiredLeverage absScore confluenceScore) calculatedLeverage in
      let suggested1 := max2 suggested0 $5 in
      let suggestedLeverage := min2 suggested1 $15 in
      let accountRiskPercent := riskPercent * suggestedLeverage in
      let leverageRisk :=
        if accountRiskPercent >=? $35 then RISK_HIGH
        else if accountRiskPercent >=? $25 then RISK_MODERATE
        else RISK_LOW in
      (suggestedLeverage, leverageRisk,
       [[Lit "💡 Đòn bẩy: "; Num suggestedLeverage; Lit "x (";
         Lit (risk_name leverageRisk); Lit " risk)"];
        [Lit "📊 SL "; Fixed 2 riskPercent; Lit "% x "; Num suggestedLeverage;
         Lit "x = lỗ ~"; Fixed 0 accountRiskPercent; Lit "% nếu thua"]])
  end.

Definition generateSignal (analysis : Analysis) (currentPrice : num)
           (candles : list Candle) (indicators : Indicators) : Signal :=
  let atr := li_atr (getLatestIndicators indicators) in
  let entry := currentPrice in
  let dec := decide analysis currentPrice candles in
  let riskPercent := percent_from currentPrice (d_stopLoss dec) false in
  let rewardPercent := percent_from currentPrice (d_takeProfit dec) true in
  let '(suggestedLeverage, leverageRisk, pushed) :=
    suggest_leverage analysis (d_action dec) riskPercent in
  {| action := d_action dec;
     s_confidence := toFixed 1 (d_confidence dec);
     s_strength := strength analysis;
     entry := entry;
     stopLoss := if ctruthy (d_stopLoss dec)
                 then Some (toFixed 2 (cnum (d_stopLoss dec))) else None;
     takeProfit := if ctruthy (d_takeProfit dec)
                   then Some (toFixed 2 (cnum (d_takeProfit dec))) else None;
     riskPercent := if ctruthy riskPercent
                    then Some (toFixed 2 (cnum riskPercent)) else None;
     rewardPercent := if ctruthy rewardPercent
                      then Some (toFixed 2 (cnum rewardPercent)) else None;
     riskReward := if ctruthy riskPercent && ctruthy rewardPercent
                   then Some (toFixed 2 (cnum rewardPercent / cnum riskPercent))
                   else None;
     leverage := suggestedLeverage;
     leverageRisk := leverageRisk;
     s_atr := if ctruthy atr then Some (toFixed 2 (cnum atr)) else None;
     atrPercent := if ctruthy atr
                   then Some (toFixed 2 (cnum atr / currentPrice * $100))
                   else None;
     s_totalScore := totalScore analysis;
     s_averageScore := toFixed 2 (averageScore analysis);
     reasons := d_reason dec ++ pushed |}.

(** *** [analyze] *)

(** [Math.sqrt] *)
Variable Math_sqrt : num -> num.

(** [TechnicalIndicators.ADX], which one version of the library lacks *)
Variable TechnicalIndicators_ADX : option (list Candle -> nat -> list cell).

Definition calculateIndicators (candles : list Candle)
           (closes volumes : list num) : Indicators :=
  {| i_rsi := RSI closes (rsiPeriod config);
     i_macd := MACD closes (macdFast config) (macdSlow config)
                    (macdSignal config);
     i_emaFast := EMA closes (emaFast config);
     i_emaSlow := EMA closes (emaSlow config);
     i_emaTrend := EMA closes (emaTrend config);
     i_ema200 := EMA closes (ema200 config);
     i_bb := BollingerBands Math_sqrt closes (bbPeriod config) (bbStdDev config);
     i_atr := ATR candles (atrPeriod config);
     i_adx := match TechnicalIndicators_ADX with
              | Some adx => Some (adx candles (adxPeriod config))
              | None => None
              end;
     i_volumeMA := VolumeMA volumes 20 |}.

Record SmartMoney : Type := mkSmartMoney {
  sm_marketStructure : MarketStructure;
  sm_volumeConfirmation : VolumeConfirmation;
  sm_orderBlock : OrderBlock;
  sm_pullback : Pullback
}.

Definition analyzeSmartMoney (candles : list Candle) (volumes : list num)
           (currentPrice : num) : SmartMoney :=
  {| sm_marketStructure := analyzeMarketStructure candles;
     sm_volumeConfirmation := analyzeVolumeConfirmation candles volumes;
     sm_orderBlock := findOrderBlocks candles currentPrice;
     sm_pullback := analyzePullback candles currentPrice |}.

Record Report : Type := mkReport {
  timestamp : string;
  r_symbol : string;
  r_currentPrice : num;
  r_indicators : LatestIndicators;
  r_analysis : Analysis;
  r_signal : Signal;
  r_marketStructure : MarketStructure;
  r_volumeConfirmation : VolumeConfirmation;
  r_orderBlock : OrderBlock;
  r_pullback : Pullback
}.

Inductive AnalysisResult : Type :=
| InsufficientData (error : string)
| Analyzed (report : Report).

(** [candles[0]?.symbol || 'UNKNOWN'] *)
Definition symbol_of (candles : list Candle) : string :=
  match candles with
  | c :: _ =>
      match symbol c with
      | Some s => if String.eqb s "" then "UNKNOWN" else s
      | None => "UNKNOWN"
      end
  | [] => "UNKNOWN"
  end.

(** [now] is what [new Date().toISOString()] returns during the call *)
Definition analyze (now : string) (candles : list Candle) : AnalysisResult :=
  if (length candles <? 50)%nat then
    InsufficientData "Không đủ dữ liệu để phân tích (cần ít nhất 50 candles)"
  else
    let closes := map close candles in
    let highs := map high candles in
    let lows := map low candles in
    let volumes := map volume candles in
    let indicators := calculateIndicators candles closes volumes in
    let currentPrice := at_num closes (length closes - 1) in
    let latestIndicators := getLatestIndicators indicators in
    let analysis := analyzeIndicators latestIndicators currentPrice in
    let smartMoney := analyzeSmartMoney candles volumes currentPrice in
    let signal := generateSignal analysis currentPrice candles indicators in
    Analyzed
      {| timestamp := now;
         r_symbol := symbol_of candles;
         r_currentPrice := currentPrice;
         r_indicators := latestIndicators;
         r_analysis := analysis;
         r_signal := signal;
         r_marketStructure := sm_marketStructure smartMoney;
         r_volumeConfirmation := sm_volumeConfirmation smartMoney;
         r_orderBlock := sm_orderBlock smartMoney;
         r_pullback := sm_pullback smartMoney |}.

End Engine.

End SignalEngine.

(** ** Position sizing: [TradingService.calculatePositionSize] *)

Module TradingService.

Local Open Scope js_scope.

Record PositionSize : Type := mkPositionSize {
  riskAmount : num;
  positionSize : num;
  quantity : num;
  marginRequired : num
}.

(** [leverage] is [None] when the argument is left out: its default is 1 *)
Definition calculatePositionSize
           (accountBalance riskPercent entryPrice stopLoss : num)
           (leverage : option num) : PositionSize :=
  let leverage := match leverage with Some l => l | None => $1 end in
  let riskAmount := accountBalance * (riskPercent / $100) in
  let stopLossPercent := abs ((entryPrice - stopLoss) / entryPrice) in
  let positionSize := riskAmount / stopLossPercent in
  let quantity := positionSize / entryPrice in
  let marginRequired := positionSize / leverage in
  mkPositionSize riskAmount positionSize quantity marginRequired.

End TradingService.

(** ** Binary64 arithmetic *)

Module Binary64.

Import TechnicalIndicators SignalEngine.
Local Open Scope list_scope.
Local Open Scope js_scope.

(** [2 ^ e] for any integer [e] *)
Definition pow2 (e : Z) : Q := Qpower 2 e.

(** the integer part of the binary logarithm of a positive rational *)
Definition ilog2 (q : Q) : Z :=
  let l := (Z.log2 (Qnum q) - Z.log2 (Zpos (Qden q)))%Z in
  if Qle_bool (pow2 l) q then l else (l - 1)%Z.

(** the nearest integer, ties to even *)
Definition rne (x : Q) : Z :=
  let f := Qfloor x in
  match (x - inject_Z f ?= 1 # 2)%Q with
  | Lt => f
  | Gt => (f + 1)%Z
  | Eq => if Z.even f then f else (f + 1)%Z
  end.

(** 53 bits of precision, least exponent [-1074], overflow from [2^1024] *)
Definition prec : Z := 53.
Definition emin : Z := -1074.
Definition emax : Z := 1024.

(** the exponent of the spacing of the doubles at a positive [q] *)
Definition expo (q : Q) : Z := Z.max (ilog2 q - (prec - 1)) emin.

(** the nearest multiple of the spacing at a positive [q] *)
Definition round_pos (q : Q) : Q :=
  inject_Z (rne (q / pow2 (expo q))) * pow2 (expo q).

Definition rnd (q : Q) : Q :=
  match (q ?= 0)%Q with
  | Eq => 0
  | Gt => round_pos q
  | Lt => - round_pos (- q)
  end.

(** the double nearest to a rational *)
Definition round64 (q : Q) : num :=
  let v := rnd (Qred q) in
  if Qle_bool (pow2 emax) v then PInf
  else if Qle_bool v (- pow2 emax) then NInf
  else Fin (Qred v).

Definition rounded (a : num) : num :=
  match a with
  | Fin q => round64 q
  | _ => a
  end.

Definition add (a b : num) : num := rounded (JS.add a b).
Definition sub (a b : num) : num := rounded (JS.sub a b).
Definition mul (a b : num) : num := rounded (JS.mul a b).
Definition div (a b : num) : num := rounded (JS.div a b).

(** a decimal literal and an integer as doubles *)
Definition lit (q : Q) : num := round64 q.
Definition of_nat (n : nat) : num := round64 (inject_Z (Z.of_nat n)).

Definition sum (l : list num) : num := fold_left add l (Fin 0).

(** a rational the arithmetic holds exactly *)
Definition representable (q : Q) : Prop :=
  exists v, round64 q = Fin v /\ (v == q)%Q.

(** [TechnicalIndicators.EMA] in binary64 *)
Fixpoint EMA_loop (multiplier : num) (period i : nat) (ema : num)
         (rest : list num) : list cell :=
  match rest with
  | [] => []
  | x :: tl =>
      if before_warmup i period then
        None :: EMA_loop multiplier period (S i) ema tl
      else if at_warmup i period then
        Some ema :: EMA_loop multiplier period (S i) ema tl
      else
        let ema' := add (mul (sub x ema) multiplier) ema in
        Some ema' :: EMA_loop multiplier period (S i) ema' tl
  end.

Definition EMA (data : list num) (period : nat) : list cell :=
  let multiplier := div (lit 2) (add (of_nat period) (lit 1)) in
  let ema := div (sum (prefix data period)) (of_nat period) in
  EMA_loop multiplier period 0 ema data.

(** [TechnicalIndicators.RSI] in binary64 *)
Definition changes (closes : list num) : list num :=
  pairs_map (fun prev cur => sub cur prev) closes.

Definition RSI_gains (closes : list num) : list num :=
  map (fun change => if change >? $0 then change else $0) (changes closes).

Definition RSI_losses (closes : list num) : list num :=
  map (fun change => if change <? $0 then abs change else $0) (changes closes).

Definition RSI_avg (xs : list num) (period i : nat) : num :=
  if at_warmup i period then div (sum (prefix xs period)) (of_nat period)
  else div (sum (window xs i period)) (of_nat period).

Definition RSI_value (avgGain avgLoss : num) : num :=
  if avgLoss === $0 then lit 100
  else
    let rs := div avgGain avgLoss in
    sub (lit 100) (div (lit 100) (add (lit 1) rs)).

Definition RSI (closes : list num) (period : nat) : list cell :=
  let gains := RSI_gains closes in
  let losses := RSI_losses closes in
  None ::
  map (fun i =>
         if before_warmup i period then None
         else Some (RSI_value (RSI_avg gains period i) (RSI_avg losses period i)))
      (seq 0 (length gains)).

(** [TradingService.calculatePositionSize] in binary64 *)
Definition calculatePositionSize
           (accountBalance riskPercent entryPrice stopLoss : num)
           (leverage : option num) : TradingService.PositionSize :=
  let leverage := match leverage with Some l => l | None => lit 1 end in
  let riskAmount := mul accountBalance (div riskPercent (lit 100)) in
  let stopLossPercent := abs (div (sub entryPrice stopLoss) entryPrice) in
  let positionSize := div riskAmount stopLossPercent in
  let quantity := div positionSize entryPrice in
  let marginRequired := div positionSize leverage in
  TradingService.mkPositionSize riskAmount positionSize quantity marginRequired.

(** [SignalEngine.findSupportResistance] in binary64 *)
Definition nearest_below (currentPrice : num) (st : num * cell) (s : num)
  : num * cell :=
  if s <? currentPrice then
    let dist := sub currentPrice s in
    if dist <? fst st then (dist, Some s) else st
  else st.

Definition nearest_above (currentPrice : num) (st : num * cell) (r : num)
  : num * cell :=
  if r >? currentPrice then
    let dist := sub r currentPrice in
    if dist <? fst st then (dist, Some r) else st
  else st.

Definition findSupportResistance (candles : list Candle) (currentPrice : num)
  : SRLevels :=
  if (length candles <? 50)%nat then mkSRLevels [] [] None None None None
  else
    let recentCandles := last_n candles 50 in
    let range := seq 3 (length recentCandles - 3 - 3) in
    let supports0 :=
      flat_map (fun i => if isSwingLow recentCandles i
                         then [low (candle_at recentCandles i)] else []) range in
    let resistances0 :=
      flat_map (fun i => if isSwingHigh recentCandles i
                         then [high (candle_at recentCandles i)] else []) range in
    let last20 := last_n candles 20 in
    let recentLow := Math_min (map low last20) in
    let recentHigh := Math_max (map high last20) in
    let supports :=
      if includes supports0 recentLow then supports0
      else supports0 ++ [recentLow] in
    let resistances :=
      if includes resistances0 recentHigh then resistances0
      else resistances0 ++ [recentHigh] in
    let found_support :=
      snd (fold_left (nearest_below currentPrice) supports (PInf, None)) in
    let found_resistance :=
      snd (fold_left (nearest_above currentPrice) resistances (PInf, None)) in
    let nearestSupport :=
      if ctruthy found_support then found_support
      else Some (mul currentPrice (lit 0.97)) in
    let nearestResistance :=
      if ctruthy found_resistance then found_resistance
      else Some (mul currentPrice (lit 1.03)) in
    mkSRLevels
      (sort_by (fun a b => sub b a) supports)
      (sort_by (fun a b => sub a b) resistances)
      nearestSupport
      nearestResistance
      (Some (toFixed 2 (mul (div (sub currentPrice (cnum nearestSupport))
                                 currentPrice) (lit 100))))
      (Some (toFixed 2 (mul (div (sub (cnum nearestResistance) currentPrice)
                                 currentPrice) (lit 100)))).

End Binary64.

(** * Specification vocabulary *)

Import TechnicalIndicators SignalEngine.
Local Open Scope js_scope.

(** a finite number that is not negative *)
Definition nonneg (a : num) : Prop := exists q, a = Fin q /\ (0 <= q)%Q.

(** the number of leading [null] entries of a series *)
Fixpoint absent_prefix (l : list cell) : nat :=
  match l with
  | None :: tl => S (absent_prefix tl)
  | _ => 0
  end.

(** [0 <= v && v <= 100], as JavaScript compares *)
Definition in_0_100 (v : num) : Prop :=
  ($0 <=? v) = true /\ (v <=? $100) = true.


(** a level strictly below the price, or none yet *)
Definition below_or_none (p : Q) (c : cell) : Prop :=
  c = None \/ exists q, c = Some (Fin q) /\ (q < p)%Q.

Definition above_or_none (p : Q) (c : cell) : Prop :=
  c = None \/ exists q, c = Some (Fin q) /\ (p < q)%Q.

(** what [decide] leaves in [stopLoss] and [takeProfit] before they are
    formatted *)
Definition levels_ok (p : Q) (d : Decision) : Prop :=
  match d_action d with
  | LONG =>
      exists sl tp,
        d_stopLoss d = Some (Fin sl) /\ d_takeProfit d = Some (Fin tp) /\
        (sl < p)%Q /\ (p < tp)%Q /\ (p * 0.015 <= p - sl)%Q /\ ~ (sl == 0)%Q
  | SHORT =>
      exists sl tp,
        d_stopLoss d = Some (Fin sl) /\ d_takeProfit d = Some (Fin tp) /\
        (tp < p)%Q /\ (p < sl)%Q /\ (p * 0.015 <= sl - p)%Q
  | WAIT => d_stopLoss d = None /\ d_takeProfit d = None
  end.

(** ** Concrete inputs *)

Module Samples.

(** the configuration of [new SignalEngine()] *)
Definition default_config : Config :=
  constructor (mkOptions None None None None None None None None None None None
                         None None None None None None None None None None None).

(** indicator series that are not read by the composer, left empty *)
Definition no_series : Indicators :=
  mkIndicators [] (mkMACDSeries [] [] []) [] [] [] [] (mkBands [] [] []) []
               None [].

(** scores 1, 2, 2, 0 and 1: a total of 6 with four bullish indicators *)
Definition long_analysis (sideway : bool) : Analysis :=
  {| a_rsi := mkIndicatorAnalysis "SLIGHTLY_BULLISH" 1 [Lit "RSI"] [];
     a_macd := mkIndicatorAnalysis "BULLISH" 2 [Lit "MACD bullish"] [];
     a_ema := mkIndicatorAnalysis "BULLISH" 2 [Lit "EMA9 > EMA21 (Bullish)"] [];
     a_bb := mkIndicatorAnalysis "NEUTRAL" 0 [Lit "BB"] [];
     a_trend := mkIndicatorAnalysis "UPTREND" 1 [Lit "Uptrend"] [];
     a_adx := mkIndicatorAnalysis "N/A" 0 [Lit "ADX"] [];
     totalScore := 6;
     averageScore := $1.2;
     strength := MODERATE;
     bullishConfluence := 4;
     bearishConfluence := 0;
     confluence := 4;
     isSideway := sideway;
     hasTrend := false |}.

(** [n] equal candles with the given high, low and close *)
Definition level_candles (h l c : Q) (n : nat) : list Candle :=
  repeat (mkCandle $0 (Fin c) (Fin h) (Fin l) (Fin c) $1000 None) n.

End Samples.

Import Samples.

(** further inputs for the examples below *)
Module MoreSamples.

(** [n] candles rising by 1 each: candle [i] has low [i], close [i + 1/2]
    and high [i + 1] *)
Definition rising_candles (n : nat) : list Candle :=
  map (fun i => let x := inject_Z (Z.of_nat i) in
                mkCandle $0 (Fin x) (Fin (x + 1)) (Fin x) (Fin (x + (1 # 2)))
                         $1000 None)
      (seq 0 n).

End MoreSamples.

Import MoreSamples.

(** ** Vocabulary of the further properties *)

(** a magnitude far inside the range of binary64: the source's sums of a
    million such numbers stay finite *)
Definition huge : Q := inject_Z (10 ^ 300).

Definition bounded (q : Q) : Prop := (- huge <= q <= huge)%Q.




(** a non-negative number of at most [2 ^ 998] *)
Definition capped (x : num) : Prop :=
  exists g, x = Fin g /\ (0 <= g <= Binary64.pow2 998)%Q.

(** the number zero *)
Definition is_zero (a : num) : Prop := exists q, a = Fin q /\ (q == 0)%Q.

(** a zone found by the first loop: the price is above its low and below
    105% of its high *)
Definition bullish_zone (currentPrice : num) (o : option Zone) : Prop :=
  match o with
  | Some z =>
      (currentPrice >? z_low z) = true /\
      (currentPrice <? z_high z * $1.05) = true /\
      (5 <= z_index z < 27)%nat
  | None => True
  end.

Definition bearish_zone (currentPrice : num) (o : option Zone) : Prop :=
  match o with
  | Some z =>
      (currentPrice <? z_high z) = true /\
      (currentPrice >? z_low z * $0.95) = true /\
      (5 <= z_index z < 27)%nat
  | None => True
  end.

(** the state of the support loop in binary64 after the levels [seen] *)
Definition nearest_below_state64 (p : Q) (seen : list num) (st : num * cell)
  : Prop :=
  (st = (PInf, None) /\
   forall q, In (Fin q) seen -> (q < p)%Q ->
             Binary64.sub (Fin p) (Fin q) = PInf) \/
  (exists s d, st = (Fin d, Some (Fin s)) /\
               Binary64.sub (Fin p) (Fin s) = Fin d /\ (s < p)%Q /\
               In (Fin s) seen /\
               forall q, In (Fin q) seen -> (q < p)%Q ->
                         (Fin d <=? Binary64.sub (Fin p) (Fin q)) = true).

Definition nearest_above_state64 (p : Q) (seen : list num) (st : num * cell)
  : Prop :=
  (st = (PInf, None) /\
   forall q, In (Fin q) seen -> (p < q)%Q ->
             Binary64.sub (Fin q) (Fin p) = PInf) \/
  (exists r d, st = (Fin d, Some (Fin r)) /\
               Binary64.sub (Fin r) (Fin p) = Fin d /\ (p < r)%Q /\
               In (Fin r) seen /\
               forall q, In (Fin q) seen -> (p < q)%Q ->
                         (Fin d <=? Binary64.sub (Fin q) (Fin p)) = true).



(** an absent entry or a zero *)
Definition null_or_zero (c : cell) : Prop :=
  c = None \/ exists q, c = Some (Fin q) /\ (q == 0)%Q.

(** a candle whose high, low and close are all [P] *)
Definition flat_candle (P : Q) (c : Candle) : Prop :=
  high c = Fin P /\ low c = Fin P /\ close c = Fin P.

(** * Properties *)

Unset Implicit Arguments.

(** ** The model on small inputs *)

Example div_by_zero :
  $1 / $0 = PInf /\ $(-1) / $0 = NInf /\ $0 / $0 = NaN.
Proof. repeat split; reflexivity. Qed.

Example toFixed_two_decimals :
  toFixed 2 $99.1895 = $99.19 /\ toFixed 2 $0.0038883 = $0.00.
Proof. repeat split; reflexivity. Qed.

Example SMA_of_four :
  SMA (map of_Z [1; 2; 3; 4]%Z) 2
  = [None; Some $(3 # 2); Some $(5 # 2); Some $(7 # 2)].
Proof. reflexivity. Qed.

Example EMA_of_four :
  EMA (map of_Z [1; 2; 3; 4]%Z) 2
  = [None; Some $(3 # 2); Some $(30 # 12); Some $(1512 # 432)].
Proof. reflexivity. Qed.

Example RSI_of_four :
  RSI (map of_Z [1; 2; 3; 2]%Z) 2 = [None; None; Some $100; Some $(200 # 4)].
Proof. reflexivity. Qed.

Example StochRSI_of_four :
  StochRSI (map of_Z [1; 2; 3; 2]%Z) 1 1 1 1
  = mkStoch [Some $50; Some $50; Some $50] [Some $50; Some $50; Some $50]
            [None; Some $50; Some $50; Some $50].
Proof. reflexivity. Qed.

Example getLatest_skips_null :
  getLatest [Some $1; None; Some $2; None] = Some $2 /\
  getPrevious [Some $1; None; Some $2; None] = Some $1.
Proof. split; reflexivity. Qed.

(** ** Numbers *)

Lemma Qltb_lt (a b : Q) : Qltb a b = true <-> (a < b)%Q.
Proof.
  unfold Qltb. rewrite negb_true_iff.
  split; intro H.
  - apply Qnot_le_lt. intro Hle. apply Qle_bool_iff in Hle. congruence.
  - destruct (Qle_bool b a) eqn:E; [|reflexivity].
    apply Qle_bool_iff in E. exfalso. exact (Qlt_not_le _ _ H E).
Qed.

Lemma Qltb_ge (a b : Q) : Qltb a b = false <-> (b <= a)%Q.
Proof.
  unfold Qltb. rewrite negb_false_iff. apply Qle_bool_iff.
Qed.

Lemma Qzerob_true (a : Q) : Qzerob a = true <-> (a == 0)%Q.
Proof. unfold Qzerob. apply Qeq_bool_iff. Qed.

Lemma Qzerob_false (a : Q) : Qzerob a = false <-> ~ (a == 0)%Q.
Proof.
  unfold Qzerob. split; intro H.
  - intro E. apply Qeq_bool_iff in E. congruence.
  - destruct (Qeq_bool a 0) eqn:E; [|reflexivity].
    apply Qeq_bool_iff in E. contradiction.
Qed.

Lemma lt_Fin (a b : Q) : (Fin a <? Fin b) = true <-> (a < b)%Q.
Proof. apply Qltb_lt. Qed.

Lemma lt_Fin_false (a b : Q) : (Fin a <? Fin b) = false <-> (b <= a)%Q.
Proof. apply Qltb_ge. Qed.

Lemma le_Fin (a b : Q) : (Fin a <=? Fin b) = true <-> (a <= b)%Q.
Proof. apply Qle_bool_iff. Qed.

Lemma le_Fin_false (a b : Q) : (Fin a <=? Fin b) = false <-> (b < a)%Q.
Proof.
  simpl. split; intro H.
  - apply Qnot_le_lt. intro Hle. apply Qle_bool_iff in Hle. congruence.
  - destruct (Qle_bool a b) eqn:E; [|reflexivity].
    apply Qle_bool_iff in E. exfalso. exact (Qlt_not_le _ _ H E).
Qed.

Lemma div_Fin (a b : Q) : ~ (b == 0)%Q -> Fin a / Fin b = Fin (a / b).
Proof.
  intro H. simpl. apply Qzerob_false in H. rewrite H. reflexivity.
Qed.

Lemma of_nat_nonzero (n : nat) : (1 <= n)%nat -> ~ (inject_Z (Z.of_nat n) == 0)%Q.
Proof.
  intros H E. unfold Qeq in E. simpl in E. lia.
Qed.

Lemma of_nat_pos (n : nat) : (1 <= n)%nat -> (0 < inject_Z (Z.of_nat n))%Q.
Proof.
  intros H. unfold Qlt. simpl. lia.
Qed.





Lemma Forall_firstn_keep {A : Type} (P : A -> Prop) (n : nat) (l : list A) :
  Forall P l -> Forall P (firstn n l).
Proof.
  revert l. induction n as [|n IH]; intros [|x l] H; simpl; try constructor.
  - now inversion H.
  - apply IH. now inversion H.
Qed.

Lemma Forall_skipn_keep {A : Type} (P : A -> Prop) (n : nat) (l : list A) :
  Forall P l -> Forall P (skipn n l).
Proof.
  revert l. induction n as [|n IH]; intros [|x l] H; simpl; try assumption.
  apply IH. now inversion H.
Qed.

Lemma Forall_slice {A : Type} (P : A -> Prop) (l : list A) (a b : Z) :
  Forall P l -> Forall P (slice l a b).
Proof.
  intro H. unfold slice.
  now apply Forall_firstn_keep, Forall_skipn_keep.
Qed.


(** ** Series lengths *)


Lemma length_mapi_from {A B : Type} (f : A -> nat -> B) (i : nat) (l : list A) :
  length (mapi_from f i l) = length l.
Proof.
  revert i. induction l as [|x l IH]; intro i; simpl; [reflexivity|].
  now rewrite IH.
Qed.

Lemma length_mapi {A B : Type} (f : A -> nat -> B) (l : list A) :
  length (mapi f l) = length l.
Proof. apply length_mapi_from. Qed.

Lemma length_pairs_map {A B : Type} (f : A -> A -> B) (l : list A) :
  length (pairs_map f l) = (length l - 1)%nat.
Proof.
  induction l as [|x [|y l] IH]; simpl in *; try reflexivity.
  rewrite IH. lia.
Qed.

Lemma length_valid (l : list cell) : (length (valid l) <= length l)%nat.
Proof.
  induction l as [|[v|] l IH]; simpl; lia.
Qed.

Lemma length_SMA (data : list num) (period : nat) :
  length (SMA data period) = length data.
Proof. unfold SMA. now rewrite length_map, length_seq. Qed.

Lemma length_EMA_loop (m : num) (period i : nat) (ema : num) (rest : list num) :
  length (EMA_loop m period i ema rest) = length rest.
Proof.
  revert i ema. induction rest as [|x tl IH]; intros i ema; simpl; [reflexivity|].
  destruct (before_warmup i period); [simpl; now rewrite IH|].
  destruct (at_warmup i period); simpl; now rewrite IH.
Qed.

Lemma length_EMA (data : list num) (period : nat) :
  length (EMA data period) = length data.
Proof. apply length_EMA_loop. Qed.

Lemma length_RSI (closes : list num) (period : nat) :
  length (RSI closes period) = S (length closes - 1).
Proof.
  unfold RSI. simpl. rewrite length_map, length_seq.
  unfold RSI_gains, changes. now rewrite length_map, length_pairs_map.
Qed.

Lemma length_MACD_align (signalEMA : list cell) (k : nat) (macdLine : list cell) :
  length (MACD_align signalEMA k macdLine) = length macdLine.
Proof.
  revert k. induction macdLine as [|[v|] tl IH]; intro k; simpl;
    [reflexivity | now rewrite IH | now rewrite IH].
Qed.

Lemma length_MACD (closes : list num) (f s g : nat) :
  length (macd (MACD closes f s g)) = length closes /\
  length (signal (MACD closes f s g)) = length closes /\
  length (histogram (MACD closes f s g)) = length closes.
Proof.
  unfold MACD; simpl.
  rewrite length_MACD_align, !length_mapi, length_EMA. auto.
Qed.

Lemma length_BollingerBands (sqrt : num -> num) (closes : list num)
      (period : nat) (stdDev : num) :
  length (upper (BollingerBands sqrt closes period stdDev)) = length closes /\
  length (middle (BollingerBands sqrt closes period stdDev)) = length closes /\
  length (lower (BollingerBands sqrt closes period stdDev)) = length closes.
Proof.
  unfold BollingerBands; simpl.
  rewrite !length_map, !length_seq, length_SMA. auto.
Qed.

Lemma length_ATR (candles : list Candle) (period : nat) :
  length (ATR candles period) = length candles.
Proof.
  unfold ATR. rewrite length_EMA. unfold ATR_trueRanges.
  destruct candles as [|c0 tl]; [reflexivity|].
  cbn [length]. rewrite length_pairs_map. cbn [length]. lia.
Qed.

Lemma length_wilder_loop (period : nat) (first : num) (i : nat)
      (prior : option cell) (rest : list cell) :
  length (wilder_loop period first i prior rest) = length rest.
Proof.
  revert i prior. induction rest as [|x tl IH]; intros i prior; simpl;
    [reflexivity | now rewrite IH].
Qed.

Lemma length_wilderSmooth (data : list cell) (period : nat) :
  length (wilderSmooth data period) = length data.
Proof. apply length_wilder_loop. Qed.

Lemma length_ADX (candles : list Candle) (period : nat) :
  length (ADX candles period) = length candles.
Proof.
  unfold ADX. destruct (length candles <? period + 1)%nat eqn:E.
  - apply repeat_length.
  - apply Nat.ltb_ge in E. cbn [length].
    rewrite length_wilderSmooth, length_map, length_seq, length_wilderSmooth,
      length_map, length_pairs_map.
    lia.
Qed.

Lemma before_warmup_true (i period : nat) :
  before_warmup i period = true <-> (i < period - 1)%nat.
Proof. unfold before_warmup. rewrite Z.ltb_lt. lia. Qed.

Lemma before_warmup_false (i period : nat) :
  before_warmup i period = false <-> (period - 1 <= i)%nat.
Proof. unfold before_warmup. rewrite Z.ltb_ge. lia. Qed.

Lemma at_warmup_true (i period : nat) :
  at_warmup i period = true <-> (1 <= period /\ i = period - 1)%nat.
Proof. unfold at_warmup. rewrite Z.eqb_eq. lia. Qed.

Lemma absent_prefix_map_seq (f : nat -> cell) (t s n : nat) :
  (forall i, (i < t)%nat -> f i = None) ->
  (forall i, (t <= i)%nat -> f i <> None) ->
  absent_prefix (map f (seq s n)) = Nat.min (t - s) n.
Proof.
  intros Hlo Hhi. revert s. induction n as [|n IH]; intro s; simpl.
  - now rewrite Nat.min_0_r.
  - destruct (Nat.lt_ge_cases s t) as [Hs|Hs].
    + rewrite (Hlo s Hs), IH. lia.
    + specialize (Hhi s Hs). destruct (f s); [lia | contradiction].
Qed.

Lemma absent_prefix_SMA (data : list num) (period : nat) :
  absent_prefix (SMA data period) = Nat.min (period - 1) (length data).
Proof.
  unfold SMA.
  rewrite (absent_prefix_map_seq _ (period - 1)); [f_equal; lia | |].
  - intros i Hi. apply before_warmup_true in Hi. now rewrite Hi.
  - intros i Hi. apply before_warmup_false in Hi. now rewrite Hi.
Qed.

Lemma absent_prefix_EMA_loop (m : num) (period i : nat) (ema : num)
      (rest : list num) :
  absent_prefix (EMA_loop m period i ema rest)
  = Nat.min (period - 1 - i) (length rest).
Proof.
  revert i ema. induction rest as [|x tl IH]; intros i ema; simpl.
  - now rewrite Nat.min_0_r.
  - destruct (before_warmup i period) eqn:E.
    + apply before_warmup_true in E. simpl. rewrite IH. lia.
    + apply before_warmup_false in E.
      destruct (at_warmup i period); simpl; lia.
Qed.

Lemma absent_prefix_EMA (data : list num) (period : nat) :
  absent_prefix (EMA data period) = Nat.min (period - 1) (length data).
Proof.
  unfold EMA. rewrite absent_prefix_EMA_loop. f_equal. lia.
Qed.

Lemma absent_prefix_BollingerBands (sqrt : num -> num) (closes : list num)
      (period : nat) (stdDev : num) :
  let bb := BollingerBands sqrt closes period stdDev in
  absent_prefix (upper bb) = Nat.min (period - 1) (length closes) /\
  absent_prefix (middle bb) = Nat.min (period - 1) (length closes) /\
  absent_prefix (lower bb) = Nat.min (period - 1) (length closes).
Proof.
  unfold BollingerBands; simpl. rewrite absent_prefix_SMA.
  repeat split; try reflexivity.
  all: rewrite (absent_prefix_map_seq _ (period - 1)); [f_equal; lia | |].
  all: intros i Hi.
  all: try (apply before_warmup_true in Hi; now rewrite Hi).
  all: apply before_warmup_false in Hi; now rewrite Hi.
Qed.

Lemma length_StochRSI (closes : list num) (rsiPeriod stochPeriod kPeriod dPeriod : nat) :
  let st := StochRSI closes rsiPeriod stochPeriod kPeriod dPeriod in
  length (raw st) = S (length closes - 1) /\
  length (k st) = length (valid (raw st)) /\
  length (d st) = length (valid (k st)).
Proof.
  unfold StochRSI; cbn [raw k d].
  rewrite length_map, length_seq, length_RSI, !length_SMA. auto.
Qed.

(** the %K line of a non-empty input is shorter than the input *)
Lemma StochRSI_k_shorter (closes : list num) (rsiPeriod stochPeriod kPeriod dPeriod : nat) :
  closes <> [] ->
  (length (k (StochRSI closes rsiPeriod stochPeriod kPeriod dPeriod))
   < length closes)%nat.
Proof.
  intro Hne. unfold StochRSI; cbn [k]. rewrite length_SMA.
  assert (Hlen : length (RSI closes rsiPeriod) = length closes).
  { rewrite length_RSI. destruct closes; [congruence | simpl; lia]. }
  rewrite <- Hlen. unfold RSI at 2. cbn [length seq map].
  unfold StochRSI_raw at 1. unfold RSI at 1. cbn [nth_error valid].
  eapply Nat.le_lt_trans; [apply length_valid|].
  rewrite length_map, length_seq. unfold RSI. cbn [length]. lia.
Qed.

(** C5 (as amended).  Every series of [SMA], [EMA], [MACD],
    [BollingerBands], [ATR], [VolumeMA] and [ADX] has the length of its
    input, and so have [RSI] and the raw line of [StochRSI] on a non-empty
    input; the absent prefix of [SMA], [EMA] and the three Bollinger bands
    has length [period - 1], capped at the length of the input. *)
Theorem C5_series_lengths
        (data : list num) (candles : list Candle) (sqrt : num -> num)
        (period fast slow sig stochPeriod kPeriod dPeriod : nat) (stdDev : num) :
  let macd_ := MACD data fast slow sig in
  let bb := BollingerBands sqrt data period stdDev in
  (length (SMA data period) = length data /\
   length (EMA data period) = length data /\
   length (macd macd_) = length data /\
   length (signal macd_) = length data /\
   length (histogram macd_) = length data /\
   length (upper bb) = length data /\
   length (middle bb) = length data /\
   length (lower bb) = length data /\
   length (ATR candles period) = length candles /\
   length (VolumeMA data period) = length data /\
   length (ADX candles period) = length candles) /\
  (data <> [] ->
   length (RSI data period) = length data /\
   length (raw (StochRSI data period stochPeriod kPeriod dPeriod))
   = length data) /\
  (absent_prefix (SMA data period) = Nat.min (period - 1) (length data) /\
   absent_prefix (EMA data period) = Nat.min (period - 1) (length data) /\
   absent_prefix (upper bb) = Nat.min (period - 1) (length data) /\
   absent_prefix (middle bb) = Nat.min (period - 1) (length data) /\
   absent_prefix (lower bb) = Nat.min (period - 1) (length data)).
Proof.
  intros macd_ bb.
  destruct (length_MACD data fast slow sig) as (Hm & Hs & Hh).
  destruct (length_BollingerBands sqrt data period stdDev) as (Hu & Hmid & Hl).
  destruct (absent_prefix_BollingerBands sqrt data period stdDev) as (Pu & Pm & Pl).
  split; [|split].
  - repeat split; auto using length_SMA, length_EMA, length_ATR, length_ADX.
  - intro Hne.
    destruct (length_StochRSI data period stochPeriod kPeriod dPeriod) as (Hr & _).
    cbv zeta in Hr. rewrite Hr, length_RSI.
    destruct data; [congruence | simpl; lia].
  - repeat split; auto using absent_prefix_SMA, absent_prefix_EMA.
Qed.

(** C5 at a concrete input: four closes, every period 2. *)
Lemma C5_series_lengths_witness :
  let data := map of_Z [1; 2; 3; 2]%Z in
  data <> [] /\
  length (RSI data 2) = 4%nat /\
  length (raw (StochRSI data 2 2 2 2)) = 4%nat /\
  absent_prefix (EMA data 2) = 1%nat.
Proof.
  intro data.
  pose proof (C5_series_lengths data [] (fun x => x) 2 2 2 2 2 2 2 $2) as H.
  cbv zeta in H. destruct H as (_ & Hne & Hp).
  assert (Hd : data <> []) by (unfold data; simpl; discriminate).
  destruct (Hne Hd) as (Hr & Hs). destruct Hp as (_ & He & _).
  split; [exact Hd|]. split; [exact Hr|]. split; [exact Hs|]. exact He.
Defined.

(** C5 as stated fails: the %K and %D lines of [StochRSI] are shorter than
    the input, the absent prefix of a short input is shorter than
    [period - 1], and [RSI] of the empty list has one entry. *)
Lemma C5_counterexample :
  let closes := map of_Z [1; 2; 3; 2]%Z in
  length (k (StochRSI closes 1 1 1 1)) <> length closes /\
  length (d (StochRSI closes 1 1 1 1)) <> length closes /\
  absent_prefix (SMA [$1] 5) <> (5 - 1)%nat /\
  length (RSI [] 14) <> length (@nil num).
Proof.
  vm_compute. repeat split; discriminate.
Qed.

(** ** EMA of a constant series *)

Lemma prefix_repeat {A : Type} (x : A) (n len : nat) :
  (n <= len)%nat -> prefix (repeat x len) n = repeat x n.
Proof.
  intro H. unfold prefix, slice. rewrite repeat_length. cbn [Z.ltb Z.compare].
  destruct (Z.of_nat n <? 0)%Z eqn:E; [apply Z.ltb_lt in E; lia|].
  rewrite Z.min_l by lia. rewrite Z.min_l by lia.
  cbn [Z.to_nat skipn]. rewrite Z.sub_0_r, Nat2Z.id.
  replace len with (n + (len - n))%nat by lia.
  rewrite repeat_app, firstn_app, repeat_length, Nat.sub_diag.
  cbn [firstn]. rewrite app_nil_r.
  rewrite firstn_all2; [reflexivity | rewrite repeat_length; lia].
Qed.


(** ** The range of RSI *)


Lemma nth_error_map_seq {B : Type} (f : nat -> B) (s n i : nat) :
  nth_error (map f (seq s n)) i
  = if (i <? n)%nat then Some (f (s + i)%nat) else None.
Proof.
  revert s i. induction n as [|n IH]; intros s i; simpl.
  - now destruct i.
  - destruct i as [|i]; simpl.
    + now rewrite Nat.add_0_r.
    + rewrite IH. replace (S s + i)%nat with (s + S i)%nat by lia.
      reflexivity.
Qed.






Lemma in_0_100_Fin (q : Q) : (0 <= q <= 100)%Q -> in_0_100 (Fin q).
Proof.
  intros [H1 H2]. split; apply le_Fin; assumption.
Qed.

(** C6 as stated fails at period 0: the averages are [0 / 0], and the entry
    is [NaN], which is not absent and not in [[0, 100]]; in binary64 as in
    exact arithmetic. *)
Lemma C6_counterexample :
  nth_error (RSI (map Fin [1; 2]%Q) 0) 1 = Some (Some NaN) /\
  nth_error (Binary64.RSI (map Fin [1; 2]%Q) 0) 1 = Some (Some NaN) /\
  ~ in_0_100 NaN.
Proof.
  split; [reflexivity|]. split; [vm_compute; reflexivity|].
  intros [H _]. discriminate H.
Qed.

(** ** The engine *)

(** C3.  On fewer than 50 candles [analyze] returns the insufficiency
    error and no report: nothing is computed. *)
Theorem C3_analyze_insufficient
        (config : Config) (sqrt : num -> num)
        (adx : option (list Candle -> nat -> list cell))
        (now : string) (candles : list Candle) :
  (length candles < 50)%nat ->
  analyze config sqrt adx now candles
  = InsufficientData "Không đủ dữ liệu để phân tích (cần ít nhất 50 candles)"
  /\ (forall report, analyze config sqrt adx now candles <> Analyzed report).
Proof.
  intro H. unfold analyze. apply Nat.ltb_lt in H. rewrite H.
  split; [reflexivity | discriminate].
Qed.

(** C3 on three candles. *)
Lemma C3_analyze_insufficient_witness :
  let c := mkCandle $0 $10 $11 $9 $10 $100 None in
  analyze (constructor (mkOptions None None None None None None None None
                                  None None None None None None None None
                                  None None None None None None))
          (fun x => x) None "2024-01-01T00:00:00.000Z" [c; c; c]
  = InsufficientData "Không đủ dữ liệu để phân tích (cần ít nhất 50 candles)".
Proof.
  intro c. apply C3_analyze_insufficient. simpl. lia.
Defined.


Lemma filters_sideway (config : Config) (analysis : Analysis) :
  isSideway analysis = true ->
  exists rest, filters config analysis = reason_sideway config :: rest.
Proof.
  intro H. unfold filters. rewrite H. eexists. reflexivity.
Qed.

Lemma decide_sideway (config : Config) (analysis : Analysis)
      (currentPrice : num) (candles : list Candle) :
  isSideway analysis = true ->
  decide config analysis currentPrice candles
  = decide_wait analysis (filters config analysis).
Proof.
  intro H. unfold decide.
  destruct (filters_sideway config analysis H) as [rest ->].
  cbn [length Nat.eqb]. rewrite !andb_false_r. reflexivity.
Qed.

(** C4.  When [isSideway] holds, [generateSignal] answers [WAIT] without a
    stop-loss or a take-profit, and the sideways rejection is among the
    reasons. *)
Theorem C4_sideway_wait
        (config : Config) (analysis : Analysis) (currentPrice : num)
        (candles : list Candle) (indicators : Indicators) :
  isSideway analysis = true ->
  let s := generateSignal config analysis currentPrice candles indicators in
  action s = WAIT /\ stopLoss s = None /\ takeProfit s = None /\
  In (reason_sideway config) (reasons s).
Proof.
  intros H s. unfold s, generateSignal.
  rewrite (decide_sideway config analysis currentPrice candles H).
  destruct (filters_sideway config analysis H) as [rest Hrest].
  unfold decide_wait. cbn [d_action d_stopLoss d_takeProfit d_reason ctruthy].
  unfold suggest_leverage.
  cbn [action stopLoss takeProfit reasons].
  repeat split; try reflexivity.
  rewrite Hrest. cbn [length Nat.ltb Nat.leb]. rewrite app_nil_r.
  apply in_or_app. right. apply in_or_app. left. left. reflexivity.
Qed.

(** ** The MACD snapshot *)

Lemma In_valid (l : list cell) (v : num) : In v (valid l) <-> In (Some v) l.
Proof.
  induction l as [|[x|] l IH]; simpl.
  - tauto.
  - rewrite IH. split; intros [H|H]; auto; left; congruence.
  - rewrite IH. split; [auto | intros [H|H]; [discriminate | assumption]].
Qed.

Lemma getLatest_In (l : list cell) (v : num) :
  getLatest l = Some v -> In (Some v) l.
Proof.
  unfold getLatest, from_end. intro H.
  apply nth_error_In in H. apply In_valid in H. now apply in_rev.
Qed.

Lemma In_getLatest (l : list cell) (v : num) :
  In (Some v) l -> exists w, getLatest l = Some w.
Proof.
  unfold getLatest, from_end. intro H.
  apply in_rev, In_valid in H.
  assert (Hhead : forall xs : list num, In v xs -> exists w, nth_error xs 0 = Some w).
  { intros [|w tl] Hin; [destruct Hin | exists w; reflexivity]. }
  exact (Hhead _ H).
Qed.

Lemma In_mapi_from {A B : Type} (f : A -> nat -> B) (s : nat) (l : list A) (y : B) :
  In y (mapi_from f s l) ->
  exists i x, nth_error l i = Some x /\ y = f x (s + i)%nat.
Proof.
  revert s. induction l as [|a l IH]; intros s H; simpl in H; [contradiction|].
  destruct H as [H|H].
  - exists 0%nat, a. split; [reflexivity|]. now rewrite Nat.add_0_r.
  - destruct (IH (S s) H) as (i & x & Hx & Hy).
    exists (S i), x. split; [exact Hx|]. rewrite Hy. f_equal. lia.
Qed.

(** a present entry of [histogram] has present entries of [macd] and
    [signal] at its index *)
Lemma histogram_present (closes : list num) (f s g : nat) (h : num) :
  In (Some h) (histogram (MACD closes f s g)) ->
  (exists m, In (Some m) (macd (MACD closes f s g))) /\
  (exists sg, In (Some sg) (signal (MACD closes f s g))).
Proof.
  unfold MACD. cbn [histogram macd signal].
  set (macdLine := mapi (diff_at (EMA closes s)) (EMA closes f)).
  set (sig := MACD_align (EMA (valid macdLine) g) 0 macdLine).
  intro H. apply In_mapi_from in H. destruct H as (i & x & Hx & Hh).
  cbn [Nat.add] in Hh. unfold diff_at in Hh.
  destruct x as [m|]; [|discriminate].
  split; [exists m; eapply nth_error_In; exact Hx|].
  destruct (nth_error sig i) as [[sg|]|] eqn:Es.
  - exists sg. eapply nth_error_In; exact Es.
  - discriminate.
  - apply nth_error_None in Es. unfold sig in Es.
    rewrite length_MACD_align in Es.
    assert (i < length macdLine)%nat by (apply nth_error_Some; congruence).
    lia.
Qed.

Lemma lt_gt_false (a b : num) : (a <? b) = true -> (b <? a) = false.
Proof.
  destruct a as [x| | |], b as [y| | |]; simpl; try congruence.
  intro H. apply Qltb_lt in H. apply Qltb_ge. lra.
Qed.

(** C8.  In the snapshot that [getLatestIndicators] takes of a [MACD]
    result, a current histogram above 0 after a previous histogram of at
    most 0 scores +3, and a current histogram below 0 after a previous
    histogram of at least 0 scores -3. *)
Theorem C8_MACD_cross
        (config : Config) (indicators : Indicators) (closes : list num)
        (fast slow sig : nat) (h p : num) :
  i_macd indicators = MACD closes fast slow sig ->
  let snapshot := li_macd (getLatestIndicators indicators) in
  l_histogram snapshot = Some h ->
  l_prevHistogram snapshot = Some p ->
  ((h >? $0) = true -> (p <=? $0) = true ->
   ia_score (analyzeMACD snapshot) = 3%Z) /\
  ((h <? $0) = true -> (p >=? $0) = true ->
   ia_score (analyzeMACD snapshot) = (-3)%Z).
Proof.
  intros Hm snapshot Hh Hp.
  unfold snapshot, getLatestIndicators in *. cbn [li_macd] in *.
  cbn [l_histogram l_prevHistogram] in Hh, Hp.
  rewrite Hm in *.
  destruct (histogram_present _ _ _ _ _ (getLatest_In _ _ Hh))
    as [[m Hmacd] [sg Hsig]].
  destruct (In_getLatest _ _ Hmacd) as [m' Em].
  destruct (In_getLatest _ _ Hsig) as [sg' Es].
  unfold analyzeMACD.
  cbn [l_macd l_signal l_histogram l_prevHistogram].
  rewrite Em, Es, Hh, Hp. cbn [cnum].
  split; intros H1 H2.
  - rewrite H1, H2. reflexivity.
  - unfold gt. rewrite (lt_gt_false _ _ H1), H1, H2. reflexivity.
Qed.

(** ** Support and resistance *)

Section Levels.

Variable p : Q.
Hypothesis p_pos : (0 < p)%Q.


Lemma nearest_below_keeps (st : num * cell) (s : num) :
  below_or_none p (snd st) -> below_or_none p (snd (nearest_below (Fin p) st s)).
Proof.
  intro H. unfold nearest_below.
  destruct (s <? Fin p) eqn:E; [|exact H].
  destruct (Fin p - s <? fst st) eqn:D; [|exact H].
  destruct s as [q| | |]; simpl in E; try discriminate.
  - right. exists q. split; [reflexivity | now apply Qltb_lt].
  - destruct (fst st); simpl in D; discriminate.
Qed.

Lemma nearest_above_keeps (st : num * cell) (r : num) :
  above_or_none p (snd st) -> above_or_none p (snd (nearest_above (Fin p) st r)).
Proof.
  intro H. unfold nearest_above, gt.
  destruct (Fin p <? r) eqn:E; [|exact H].
  destruct (r - Fin p <? fst st) eqn:D; [|exact H].
  destruct r as [q| | |]; simpl in E; try discriminate.
  - right. exists q. split; [reflexivity | now apply Qltb_lt].
  - destruct (fst st); simpl in D; discriminate.
Qed.

Lemma fold_nearest_below (l : list num) (st : num * cell) :
  below_or_none p (snd st) ->
  below_or_none p (snd (fold_left (nearest_below (Fin p)) l st)).
Proof.
  revert st. induction l as [|s l IH]; intros st H; simpl; [exact H|].
  apply IH, nearest_below_keeps, H.
Qed.

Lemma fold_nearest_above (l : list num) (st : num * cell) :
  above_or_none p (snd st) ->
  above_or_none p (snd (fold_left (nearest_above (Fin p)) l st)).
Proof.
  revert st. induction l as [|s l IH]; intros st H; simpl; [exact H|].
  apply IH, nearest_above_keeps, H.
Qed.

Lemma fold_nearest_below_none (l : list num) (st : num * cell) :
  (forall x, In x l -> (x <? Fin p) = false) ->
  fold_left (nearest_below (Fin p)) l st = st.
Proof.
  revert st. induction l as [|s l IH]; intros st H; simpl; [reflexivity|].
  unfold nearest_below at 2. rewrite (H s (or_introl Logic.eq_refl)).
  apply IH. intros x Hx. apply H. now right.
Qed.

Lemma fold_nearest_above_none (l : list num) (st : num * cell) :
  (forall x, In x l -> (x >? Fin p) = false) ->
  fold_left (nearest_above (Fin p)) l st = st.
Proof.
  revert st. induction l as [|s l IH]; intros st H; simpl; [reflexivity|].
  unfold nearest_above at 2. rewrite (H s (or_introl Logic.eq_refl)).
  apply IH. intros x Hx. apply H. now right.
Qed.

(** what the fallback leaves: a non-zero level strictly below the price *)
Lemma support_after_fallback (found : cell) :
  below_or_none p found ->
  exists s,
    (if ctruthy found then found else Some (Fin p * $0.97)) = Some (Fin s) /\
    (s < p)%Q /\ ~ (s == 0)%Q.
Proof.
  intros [-> | [q [-> Hq]]].
  - exists (p * 0.97)%Q. cbn. split; [reflexivity|]. split; lra.
  - cbn [ctruthy truthy]. destruct (Qzerob q) eqn:E; cbn [negb].
    + exists (p * 0.97)%Q. split; [reflexivity|]. split; lra.
    + exists q. split; [reflexivity|]. split; [exact Hq|].
      now apply Qzerob_false.
Qed.

Lemma resistance_after_fallback (found : cell) :
  above_or_none p found ->
  exists r,
    (if ctruthy found then found else Some (Fin p * $1.03)) = Some (Fin r) /\
    (p < r)%Q.
Proof.
  intros [-> | [q [-> Hq]]].
  - exists (p * 1.03)%Q. cbn. split; [reflexivity | lra].
  - cbn [ctruthy truthy]. destruct (Qzerob q) eqn:E; cbn [negb].
    + exists (p * 1.03)%Q. split; [reflexivity | lra].
    + exists q. split; [reflexivity | exact Hq].
Qed.

End Levels.

Lemma In_insert_by (cmp : num -> num -> num) (x y : num) (l : list num) :
  In x (insert_by cmp y l) <-> y = x \/ In x l.
Proof.
  induction l as [|z l IH]; cbn [insert_by].
  - simpl. tauto.
  - destruct (cmp z y >? $0); simpl; [tauto|].
    rewrite IH. tauto.
Qed.

Lemma In_sort_by (cmp : num -> num -> num) (x : num) (l : list num) :
  In x (sort_by cmp l) <-> In x l.
Proof.
  unfold sort_by.
  assert (H : forall acc, In x (fold_left (fun acc y => insert_by cmp y acc) l acc)
                          <-> In x acc \/ In x l).
  { induction l as [|y l IH]; intro acc; simpl.
    - tauto.
    - rewrite IH, In_insert_by. tauto. }
  rewrite H. simpl. tauto.
Qed.

Lemma findSupportResistance_levels (candles : list Candle) (p : Q) :
  (50 <= length candles)%nat -> (0 < p)%Q ->
  let sr := findSupportResistance candles (Fin p) in
  (exists s, nearestSupport sr = Some (Fin s) /\ (s < p)%Q /\ ~ (s == 0)%Q) /\
  (exists r, nearestResistance sr = Some (Fin r) /\ (p < r)%Q) /\
  ((forall x, In x (supports sr) -> (x <? Fin p) = false) ->
   nearestSupport sr = Some (Fin p * $0.97)) /\
  ((forall x, In x (resistances sr) -> (x >? Fin p) = false) ->
   nearestResistance sr = Some (Fin p * $1.03)).
Proof.
  intros Hlen Hp. unfold findSupportResistance.
  apply Nat.ltb_ge in Hlen. rewrite Hlen. cbv zeta.
  cbn [nearestSupport nearestResistance supports resistances].
  match goal with
  | |- context [fold_left (nearest_below (Fin p)) ?l _] => set (sup := l)
  end.
  match goal with
  | |- context [fold_left (nearest_above (Fin p)) ?l _] => set (res := l)
  end.
  split; [|split; [|split]].
  - apply support_after_fallback; [exact Hp|].
    apply fold_nearest_below. now left.
  - apply resistance_after_fallback; [exact Hp|].
    apply fold_nearest_above. now left.
  - intro H. rewrite fold_nearest_below_none; [reflexivity|].
    intros x Hx. apply H. now apply In_sort_by.
  - intro H. rewrite fold_nearest_above_none; [reflexivity|].
    intros x Hx. apply H. now apply In_sort_by.
Qed.

Lemma decide_rejections (config : Config) (analysis : Analysis)
      (currentPrice : num) (candles : list Candle) :
  ctruthy (nearestSupport (findSupportResistance candles currentPrice)) = true ->
  ctruthy (nearestResistance (findSupportResistance candles currentPrice)) = true ->
  d_rejectionReasons (decide config analysis currentPrice candles)
  = filters config analysis.
Proof.
  intros Hs Hr. unfold decide.
  destruct (_ && _ && _).
  - unfold decide_long. rewrite Hs. cbn [negb].
    destruct (length (filters config analysis) =? 0)%nat; reflexivity.
  - destruct (_ && _ && _).
    + unfold decide_short. rewrite Hr. cbn [negb].
      destruct (length (filters config analysis) =? 0)%nat; reflexivity.
    + reflexivity.
Qed.

(** ** Binary64 arithmetic *)

Section Binary64Facts.

Import Binary64.
Local Open Scope Q_scope.

(** *** Powers of two *)

Lemma pow2_pos (e : Z) : 0 < pow2 e.
Proof. apply Qpower_0_lt. reflexivity. Qed.

Lemma pow2_plus (a b : Z) : pow2 (a + b) == pow2 a * pow2 b.
Proof. apply Qpower_plus. intro H. discriminate H. Qed.

Lemma pow2_le (a b : Z) : (a <= b)%Z -> pow2 a <= pow2 b.
Proof. intro H. apply Qpower_le_compat_l; [exact H | discriminate]. Qed.

Lemma pow2_lt (a b : Z) : (a < b)%Z -> pow2 a < pow2 b.
Proof. intro H. apply Qpower_lt_compat_l; [exact H | reflexivity]. Qed.

Lemma pow2_lt_inv (a b : Z) : pow2 a < pow2 b -> (a < b)%Z.
Proof. intro H. apply (Qpower_lt_compat_l_inv 2); [exact H | reflexivity]. Qed.

Lemma pow2_Z (e : Z) : (0 <= e)%Z -> pow2 e == inject_Z (2 ^ e).
Proof. intro H. unfold pow2. now rewrite Zpower_Qpower. Qed.

Lemma pow2_div (x : Q) (e : Z) : x / pow2 e == x * pow2 (- e).
Proof.
  unfold pow2. rewrite Qpower_opp. reflexivity.
Qed.

Lemma pow2_cancel (e : Z) : pow2 (- e) * pow2 e == 1.
Proof.
  rewrite <- pow2_plus. replace (- e + e)%Z with 0%Z by lia. reflexivity.
Qed.

(** *** The binary logarithm *)

Lemma ilog2_spec (q : Q) :
  0 < q -> pow2 (ilog2 q) <= q /\ q < pow2 (ilog2 q + 1).
Proof.
  intro Hq. destruct q as [n d]. unfold ilog2. cbn [Qnum Qden].
  assert (Hn : (0 < n)%Z) by (unfold Qlt in Hq; cbn in Hq; lia).
  set (a := Z.log2 n). set (b := Z.log2 (Zpos d)).
  destruct (Z.log2_spec n Hn) as [Ha1 Ha2]. fold a in Ha1, Ha2.
  destruct (Z.log2_spec (Zpos d) (Pos2Z.is_pos d)) as [Hb1 Hb2].
  fold b in Hb1, Hb2.
  assert (Ha0 : (0 <= a)%Z) by apply Z.log2_nonneg.
  assert (Hb0 : (0 <= b)%Z) by apply Z.log2_nonneg.
  assert (Hd : 0 < inject_Z (Zpos d)) by reflexivity.
  assert (Hqe : n # d == inject_Z n / inject_Z (Zpos d)) by apply Qmake_Qdiv.
  assert (Hpa : pow2 a <= inject_Z n).
  { rewrite pow2_Z by exact Ha0. now rewrite <- Zle_Qle. }
  assert (Hpa' : inject_Z n < pow2 (a + 1)).
  { rewrite pow2_Z by lia. rewrite <- Zlt_Qlt. exact Ha2. }
  assert (Hpb : pow2 b <= inject_Z (Zpos d)).
  { rewrite pow2_Z by exact Hb0. now rewrite <- Zle_Qle. }
  assert (Hpb' : inject_Z (Zpos d) < pow2 (b + 1)).
  { rewrite pow2_Z by lia. rewrite <- Zlt_Qlt. exact Hb2. }
  (* n / d < 2^(a - b + 1) and 2^(a - b - 1) < n / d *)
  assert (Hup : n # d < pow2 (a - b + 1)).
  { rewrite Hqe. apply Qlt_shift_div_r; [exact Hd|].
    apply Qlt_le_trans with (pow2 (a + 1)); [exact Hpa'|].
    replace (a + 1)%Z with ((a - b + 1) + b)%Z by lia.
    rewrite pow2_plus. apply Qmult_le_l; [apply pow2_pos | exact Hpb]. }
  assert (Hlo : pow2 (a - b - 1) < n # d).
  { rewrite Hqe. apply Qlt_shift_div_l; [exact Hd|].
    apply Qlt_le_trans with (pow2 a); [|exact Hpa].
    replace a with ((a - b - 1) + (b + 1))%Z at 2 by lia.
    rewrite pow2_plus. apply Qmult_lt_l; [apply pow2_pos | exact Hpb']. }
  destruct (Qle_bool (pow2 (a - b)) (n # d)) eqn:E.
  - apply Qle_bool_iff in E. split; assumption.
  - assert (E' : n # d < pow2 (a - b)).
    { apply Qnot_le_lt. intro H. apply Qle_bool_iff in H. congruence. }
    split.
    + apply Qlt_le_weak. exact Hlo.
    + replace (a - b - 1 + 1)%Z with (a - b)%Z by lia. exact E'.
Qed.

Lemma ilog2_le (x y : Q) : 0 < x -> x <= y -> (ilog2 x <= ilog2 y)%Z.
Proof.
  intros Hx Hxy.
  assert (Hy : 0 < y) by (apply Qlt_le_trans with x; assumption).
  destruct (ilog2_spec x Hx) as [Hx1 _].
  destruct (ilog2_spec y Hy) as [_ Hy2].
  assert (H : pow2 (ilog2 x) < pow2 (ilog2 y + 1)).
  { apply Qle_lt_trans with x; [exact Hx1|].
    apply Qle_lt_trans with y; assumption. }
  apply pow2_lt_inv in H. lia.
Qed.

Lemma ilog2_unique (q : Q) (a : Z) :
  pow2 a <= q -> q < pow2 (a + 1) -> ilog2 q = a.
Proof.
  intros H1 H2.
  assert (Hq : 0 < q) by (apply Qlt_le_trans with (pow2 a); [apply pow2_pos | exact H1]).
  destruct (ilog2_spec q Hq) as [H3 H4].
  assert (Ha : pow2 a < pow2 (ilog2 q + 1)) by (apply Qle_lt_trans with q; assumption).
  assert (Hb : pow2 (ilog2 q) < pow2 (a + 1)) by (apply Qle_lt_trans with q; assumption).
  apply pow2_lt_inv in Ha. apply pow2_lt_inv in Hb. lia.
Qed.

(** *** Rounding to the nearest integer *)

Lemma rne_floor (x : Q) : (Qfloor x <= rne x <= Qfloor x + 1)%Z.
Proof.
  unfold rne. destruct (x - inject_Z (Qfloor x) ?= 1 # 2);
    [destruct (Z.even (Qfloor x))|..]; lia.
Qed.

Lemma rne_Z (k : Z) : rne (inject_Z k) = k.
Proof.
  unfold rne. rewrite Qfloor_Z.
  assert (H : (inject_Z k - inject_Z k ?= 1 # 2) = Lt)
    by (apply (proj1 (Qlt_alt _ _)); ring_simplify; reflexivity).
  now rewrite H.
Qed.

Lemma rne_le (x y : Q) : x <= y -> (rne x <= rne y)%Z.
Proof.
  intro Hxy. pose proof (Qfloor_resp_le x y Hxy) as Hf.
  pose proof (rne_floor x) as Hx. pose proof (rne_floor y) as Hy.
  destruct (Z.eq_dec (Qfloor x) (Qfloor y)) as [E|E]; [|lia].
  unfold rne. rewrite <- E.
  destruct (Qcompare_spec (x - inject_Z (Qfloor x)) (1 # 2));
    destruct (Qcompare_spec (y - inject_Z (Qfloor x)) (1 # 2));
    try (destruct (Z.even (Qfloor x))); try lia; exfalso; lra.
Qed.

Lemma rne_compat (x y : Q) : x == y -> rne x = rne y.
Proof.
  intro H. apply Z.le_antisymm; apply rne_le; rewrite H; apply Qle_refl.
Qed.

Lemma rne_ge (x : Q) (k : Z) : inject_Z k <= x -> (k <= rne x)%Z.
Proof. intro H. rewrite <- (rne_Z k). now apply rne_le. Qed.

Lemma rne_le_Z (x : Q) (k : Z) : x <= inject_Z k -> (rne x <= k)%Z.
Proof. intro H. rewrite <- (rne_Z k). now apply rne_le. Qed.

(** *** Rounding a positive rational *)

Lemma round_pos_eq (q : Q) :
  round_pos q = inject_Z (rne (q / pow2 (expo q))) * pow2 (expo q).
Proof. reflexivity. Qed.

Lemma round_pos_nonneg (q : Q) : 0 < q -> 0 <= round_pos q.
Proof.
  intro Hq. rewrite round_pos_eq.
  apply Qmult_le_0_compat; [|apply Qlt_le_weak, pow2_pos].
  change 0 with (inject_Z 0). rewrite <- Zle_Qle. apply rne_ge.
  apply Qle_shift_div_l; [apply pow2_pos|].
  change (inject_Z 0) with 0. rewrite Qmult_0_l. now apply Qlt_le_weak.
Qed.

Lemma round_pos_le (x y : Q) : 0 < x -> x <= y -> round_pos x <= round_pos y.
Proof.
  intros Hx Hxy.
  assert (Hy : 0 < y) by (apply Qlt_le_trans with x; assumption).
  pose proof (ilog2_le x y Hx Hxy) as Hl.
  rewrite !round_pos_eq.
  assert (He : (expo x <= expo y)%Z) by (unfold expo; lia).
  destruct (Z.eq_dec (expo x) (expo y)) as [E|E].
  - rewrite E. apply Qmult_le_r; [apply pow2_pos|].
    rewrite <- Zle_Qle. apply rne_le.
    apply Qmult_le_r; [apply Qinv_lt_0_compat, pow2_pos | exact Hxy].
  - assert (Hey : expo y = (ilog2 y - (prec - 1))%Z).
    { unfold expo in *. unfold emin, prec in *. lia. }
    assert (Hlt : (ilog2 x + 1 <= ilog2 y)%Z).
    { unfold expo in *. unfold emin, prec in *. lia. }
    destruct (ilog2_spec x Hx) as [_ Hx2].
    destruct (ilog2_spec y Hy) as [Hy1 _].
    apply Qle_trans with (pow2 (ilog2 y)).
    + (* the rounded [x] is at most [2 ^ ilog2 y] *)
      set (t := (ilog2 y - expo x)%Z).
      assert (Ht : (0 <= t)%Z) by (unfold t; unfold prec in *; lia).
      assert (Hm : (rne (x / pow2 (expo x)) <= 2 ^ t)%Z).
      { apply rne_le_Z. rewrite <- pow2_Z by exact Ht.
        apply Qle_shift_div_r; [apply pow2_pos|].
        rewrite <- pow2_plus. unfold t.
        replace (ilog2 y - expo x + expo x)%Z with (ilog2 y) by lia.
        apply Qlt_le_weak. apply Qlt_le_trans with (pow2 (ilog2 x + 1));
          [exact Hx2 | now apply pow2_le]. }
      apply Qle_trans with (inject_Z (2 ^ t) * pow2 (expo x)).
      * apply Qmult_le_r; [apply pow2_pos|]. now rewrite <- Zle_Qle.
      * rewrite <- pow2_Z by exact Ht. rewrite <- pow2_plus. unfold t.
        replace (ilog2 y - expo x + expo x)%Z with (ilog2 y) by lia.
        apply Qle_refl.
    + (* the rounded [y] is at least [2 ^ ilog2 y] *)
      assert (Hm : (2 ^ (prec - 1) <= rne (y / pow2 (expo y)))%Z).
      { apply rne_ge. rewrite <- pow2_Z by (unfold prec; lia).
        apply Qle_shift_div_l; [apply pow2_pos|].
        rewrite <- pow2_plus. rewrite Hey.
        replace (prec - 1 + (ilog2 y - (prec - 1)))%Z with (ilog2 y) by lia.
        exact Hy1. }
      apply Qle_trans with (inject_Z (2 ^ (prec - 1)) * pow2 (expo y)).
      * rewrite <- pow2_Z by (unfold prec; lia). rewrite <- pow2_plus.
        rewrite Hey.
        replace (prec - 1 + (ilog2 y - (prec - 1)))%Z with (ilog2 y) by lia.
        apply Qle_refl.
      * apply Qmult_le_r; [apply pow2_pos|]. now rewrite <- Zle_Qle.
Qed.

(** *** Rounding any rational *)

Lemma rnd_pos (q : Q) : 0 < q -> rnd q = round_pos q.
Proof. intro H. unfold rnd. now rewrite (proj1 (Qgt_alt q 0) H). Qed.

Lemma rnd_neg (q : Q) : q < 0 -> rnd q = - round_pos (- q).
Proof. intro H. unfold rnd. now rewrite (proj1 (Qlt_alt q 0) H). Qed.

Lemma rnd_zero (q : Q) : q == 0 -> rnd q = 0.
Proof. intro H. unfold rnd. now rewrite (proj1 (Qeq_alt q 0) H). Qed.

Lemma rnd_le (x y : Q) : x <= y -> rnd x <= rnd y.
Proof.
  intro Hxy.
  destruct (Q_dec x 0) as [[Hx|Hx]|Hx]; destruct (Q_dec y 0) as [[Hy|Hy]|Hy].
  - rewrite (rnd_neg x Hx), (rnd_neg y Hy).
    apply Qopp_le_compat. apply round_pos_le; lra.
  - rewrite (rnd_neg x Hx), (rnd_pos y Hy).
    pose proof (round_pos_nonneg (- x)). pose proof (round_pos_nonneg y). lra.
  - rewrite (rnd_neg x Hx), (rnd_zero y Hy).
    pose proof (round_pos_nonneg (- x)). lra.
  - lra.
  - rewrite (rnd_pos x Hx), (rnd_pos y Hy). now apply round_pos_le.
  - lra.
  - lra.
  - rewrite (rnd_zero x Hx), (rnd_pos y Hy). now apply round_pos_nonneg.
  - rewrite (rnd_zero x Hx), (rnd_zero y Hy). apply Qle_refl.
Qed.

(** *** The nearest double *)

Lemma round64_compat (x y : Q) : x == y -> round64 x = round64 y.
Proof. intro H. unfold round64. now rewrite (Qred_complete x y H). Qed.

Lemma round64_not_NaN (q : Q) : round64 q <> NaN.
Proof.
  unfold round64. cbv zeta.
  destruct (Qle_bool _ _); [discriminate|].
  destruct (Qle_bool _ _); discriminate.
Qed.

(** rounding is monotone *)
Lemma round64_le (x y : Q) : x <= y -> (round64 x <=? round64 y)%js = true.
Proof.
  intro Hxy. unfold round64. cbv zeta.
  assert (H : rnd (Qred x) <= rnd (Qred y)).
  { apply rnd_le. now rewrite !Qred_correct. }
  set (vx := rnd (Qred x)) in *. set (vy := rnd (Qred y)) in *.
  assert (Hneg : - pow2 emax < pow2 emax).
  { pose proof (pow2_pos emax). lra. }
  destruct (Qle_bool (pow2 emax) vx) eqn:E1.
  - apply Qle_bool_iff in E1.
    assert (E2 : Qle_bool (pow2 emax) vy = true) by (apply Qle_bool_iff; lra).
    now rewrite E2.
  - destruct (Qle_bool vx (- pow2 emax)) eqn:E3.
    + destruct (Qle_bool (pow2 emax) vy); [reflexivity|].
      destruct (Qle_bool vy (- pow2 emax)); reflexivity.
    + destruct (Qle_bool (pow2 emax) vy) eqn:E4; [reflexivity|].
      destruct (Qle_bool vy (- pow2 emax)) eqn:E5.
      * exfalso. apply Qle_bool_iff in E5.
        assert (E6 : Qle_bool vx (- pow2 emax) = true)
          by (apply Qle_bool_iff; lra).
        congruence.
      * cbn [le]. apply Qle_bool_iff. now rewrite !Qred_correct.
Qed.

(** every output of [round64] is a [Fin] between the two infinities *)
Lemma round64_Fin (q v : Q) :
  round64 q = Fin v -> v == rnd (Qred q) /\ - pow2 emax < v < pow2 emax.
Proof.
  unfold round64. cbv zeta.
  destruct (Qle_bool (pow2 emax) (rnd (Qred q))) eqn:E1; [discriminate|].
  destruct (Qle_bool (rnd (Qred q)) (- pow2 emax)) eqn:E2; [discriminate|].
  intro H. injection H as <-. rewrite Qred_correct. split; [reflexivity|].
  split; apply Qnot_le_lt; intro H; apply Qle_bool_iff in H; congruence.
Qed.

Lemma round64_of_rnd (q : Q) :
  - pow2 emax < rnd (Qred q) < pow2 emax ->
  exists v, round64 q = Fin v /\ v == rnd (Qred q).
Proof.
  intros [H1 H2]. unfold round64. cbv zeta.
  destruct (Qle_bool (pow2 emax) (rnd (Qred q))) eqn:E1.
  { apply Qle_bool_iff in E1. lra. }
  destruct (Qle_bool (rnd (Qred q)) (- pow2 emax)) eqn:E2.
  { apply Qle_bool_iff in E2. lra. }
  eexists. split; [reflexivity | apply Qred_correct].
Qed.

(** *** Integers below [2^53] are doubles *)

Lemma round_pos_Z (z : Z) (q : Q) :
  (0 < z < 2 ^ prec)%Z -> q == inject_Z z -> round_pos q == inject_Z z.
Proof.
  intros [Hz1 Hz2] Hq.
  destruct (Z.log2_spec z Hz1) as [Ha1 Ha2].
  set (a := Z.log2 z) in *.
  assert (Ha0 : (0 <= a)%Z) by apply Z.log2_nonneg.
  assert (Ha : (a < prec)%Z).
  { apply (proj2 (Z.pow_lt_mono_r_iff 2 a prec ltac:(lia)
                    ltac:(unfold prec; lia))).
    apply Z.le_lt_trans with z; assumption. }
  assert (Hl : ilog2 q = a).
  { apply ilog2_unique; rewrite Hq.
    - rewrite pow2_Z by exact Ha0. now rewrite <- Zle_Qle.
    - rewrite pow2_Z by lia. rewrite <- Zlt_Qlt. exact Ha2. }
  rewrite round_pos_eq.
  assert (He : expo q = (a - (prec - 1))%Z).
  { unfold expo. rewrite Hl. unfold prec, emin in *. lia. }
  rewrite He.
  set (t := (prec - 1 - a)%Z).
  assert (Ht : (0 <= t)%Z) by (unfold t; lia).
  assert (Hdiv : q / pow2 (a - (prec - 1)) == inject_Z (z * 2 ^ t)).
  { rewrite pow2_div, Hq, inject_Z_mult, <- pow2_Z by exact Ht.
    unfold t. replace (- (a - (prec - 1)))%Z with (prec - 1 - a)%Z by lia.
    reflexivity. }
  rewrite (rne_compat _ _ Hdiv), rne_Z, inject_Z_mult, <- pow2_Z by exact Ht.
  rewrite <- Qmult_assoc, <- pow2_plus. unfold t.
  replace (prec - 1 - a + (a - (prec - 1)))%Z with 0%Z by lia.
  change (pow2 0) with 1. ring.
Qed.

Lemma rnd_Z (z : Z) (q : Q) :
  (Z.abs z < 2 ^ prec)%Z -> q == inject_Z z -> rnd q == inject_Z z.
Proof.
  intros Hz Hq. destruct (Z.lt_trichotomy z 0) as [H|[H|H]].
  - assert (Hq0 : q < 0).
    { rewrite Hq. change 0 with (inject_Z 0). now rewrite <- Zlt_Qlt. }
    rewrite (rnd_neg q Hq0).
    rewrite (round_pos_Z (- z) (- q)); [rewrite inject_Z_opp; ring | lia |].
    rewrite Hq, inject_Z_opp. reflexivity.
  - subst z. rewrite (rnd_zero q Hq). reflexivity.
  - assert (Hq0 : 0 < q).
    { rewrite Hq. change 0 with (inject_Z 0). now rewrite <- Zlt_Qlt. }
    rewrite (rnd_pos q Hq0). apply round_pos_Z; [lia | exact Hq].
Qed.

Lemma representable_Z (z : Z) :
  (Z.abs z < 2 ^ prec)%Z -> representable (inject_Z z).
Proof.
  intro Hz.
  assert (Hr : rnd (Qred (inject_Z z)) == inject_Z z)
    by (apply rnd_Z; [exact Hz | apply Qred_correct]).
  destruct (round64_of_rnd (inject_Z z)) as (v & Hv & Ev).
  - rewrite Hr.
    assert (Hb : inject_Z (Z.abs z) < pow2 emax).
    { apply Qlt_trans with (pow2 prec).
      - rewrite pow2_Z by (unfold prec; lia). now rewrite <- Zlt_Qlt.
      - apply pow2_lt. unfold prec, emax. lia. }
    assert (H1 : inject_Z z <= inject_Z (Z.abs z))
      by (rewrite <- Zle_Qle; lia).
    assert (H2 : - inject_Z (Z.abs z) <= inject_Z z)
      by (rewrite <- inject_Z_opp, <- Zle_Qle; lia).
    lra.
  - exists v. split; [exact Hv|]. now rewrite Ev.
Qed.

Lemma representable_compat (x y : Q) :
  x == y -> representable x -> representable y.
Proof.
  intros H (v & Hv & Ev). exists v.
  rewrite <- (round64_compat x y H). split; [exact Hv|]. now rewrite <- H.
Qed.

(** a positive double is at least the least subnormal *)
Lemma representable_pos (q : Q) :
  representable q -> 0 < q -> pow2 emin <= q.
Proof.
  intros (v & Hv & Ev) Hq.
  apply round64_Fin in Hv. destruct Hv as [Hv _].
  assert (Hq' : 0 < Qred q) by now rewrite Qred_correct.
  rewrite (rnd_pos _ Hq'), round_pos_eq in Hv.
  set (m := rne (Qred q / pow2 (expo (Qred q)))) in *.
  set (e := expo (Qred q)) in *.
  assert (He : (emin <= e)%Z) by (unfold e, expo; lia).
  assert (Hm : (1 <= m)%Z).
  { destruct (Z_lt_le_dec m 1) as [Hlt|]; [exfalso | assumption].
    assert (Hm0 : inject_Z m <= 0).
    { change 0 with (inject_Z 0). rewrite <- Zle_Qle. lia. }
    pose proof (pow2_pos e) as Hpe.
    assert (Hprod : inject_Z m * pow2 e <= 0).
    { setoid_replace 0 with (0 * pow2 e) by ring.
      apply Qmult_le_r; assumption. }
    rewrite <- Hv, Ev in Hprod. lra. }
  rewrite <- Ev, Hv.
  apply Qle_trans with (pow2 e); [now apply pow2_le|].
  setoid_replace (pow2 e) with (1 * pow2 e) at 1 by ring.
  apply Qmult_le_r; [apply pow2_pos|].
  change 1 with (inject_Z 1). now rewrite <- Zle_Qle.
Qed.

(** *** The arithmetic on doubles *)

Lemma round64_zero (x : Q) : x == 0 -> round64 x = Fin 0.
Proof. intro H. now rewrite (round64_compat x 0 H). Qed.

Lemma round64_same (x q : Q) :
  x == q -> representable q -> exists v, round64 x = Fin v /\ v == q.
Proof. intros H Hq. rewrite (round64_compat x q H). exact Hq. Qed.

(** a rounded value between two doubles is a finite number between them *)
Lemma round64_between (x lo hi : Q) :
  representable lo -> representable hi -> lo <= x <= hi ->
  exists v, round64 x = Fin v /\ lo <= v <= hi.
Proof.
  intros (l & Hl & El) (h & Hh & Eh) [H1 H2].
  pose proof (round64_le lo x H1) as Hlo.
  pose proof (round64_le x hi H2) as Hhi.
  rewrite Hl in Hlo. rewrite Hh in Hhi.
  destruct (round64 x) as [v| | |]; try discriminate.
  exists v. split; [reflexivity|].
  cbn [le] in Hlo, Hhi. apply Qle_bool_iff in Hlo. apply Qle_bool_iff in Hhi.
  lra.
Qed.

(** ** EMA of a constant series in binary64 *)

Lemma sum_repeat_exact (P : Q) (n : nat) :
  (forall k, (1 <= k <= n)%nat ->
             representable (inject_Z (Z.of_nat k) * P)) ->
  forall (j k0 : nat) (a : Q),
    (k0 + j <= n)%nat -> a == inject_Z (Z.of_nat k0) * P ->
    exists s,
      fold_left Binary64.add (repeat (Fin P) j) (Fin a) = Fin s /\
      s == inject_Z (Z.of_nat (k0 + j)) * P.
Proof.
  intros Hrep. induction j as [|j IH]; intros k0 a Hk Ha.
  - exists a. split; [reflexivity|]. now rewrite Nat.add_0_r.
  - cbn [repeat fold_left]. unfold Binary64.add at 2. cbn [JS.add rounded].
    destruct (round64_same (a + P) (inject_Z (Z.of_nat (S k0)) * P))
      as (v & Hv & Ev).
    + rewrite Ha, Nat2Z.inj_succ. unfold Z.succ. rewrite inject_Z_plus. ring.
    + apply Hrep. lia.
    + rewrite Hv. destruct (IH (S k0) v) as (s & Hs & Es); [lia | exact Ev|].
      exists s. split; [exact Hs|].
      rewrite Es. now replace (S k0 + j)%nat with (k0 + S j)%nat by lia.
Qed.

Lemma EMA_loop_constant64 (period : nat) (m P : Q) (k : nat) :
  representable P ->
  forall (j : nat) (e : Q) (t : nat),
    e == P -> (t < k)%nat -> (period - 1 <= j + t)%nat ->
    exists v,
      nth_error (Binary64.EMA_loop (Fin m) period j (Fin e) (repeat (Fin P) k)) t
      = Some (Some (Fin v)) /\ v == P.
Proof.
  intro HP. induction k as [|k IH]; intros j e t He Ht Hj; [lia|].
  cbn [repeat Binary64.EMA_loop].
  destruct (before_warmup j period) eqn:Eb.
  - apply before_warmup_true in Eb.
    destruct t as [|t]; [lia|]. cbn [nth_error].
    apply IH; [assumption | lia | lia].
  - destruct (at_warmup j period) eqn:Ea.
    + destruct t as [|t]; cbn [nth_error].
      * exists e. split; [reflexivity | assumption].
      * apply IH; [assumption | lia | lia].
    + cbv zeta.
      assert (Hstep : exists v,
                Binary64.add (Binary64.mul (Binary64.sub (Fin P) (Fin e)) (Fin m))
                             (Fin e) = Fin v /\ v == P).
      { unfold Binary64.sub. cbn [JS.sub JS.add JS.neg rounded].
        rewrite (round64_zero (P + - e)) by (rewrite He; ring).
        unfold Binary64.mul. cbn [JS.mul rounded].
        rewrite (round64_zero (0 * m)) by ring.
        unfold Binary64.add. cbn [JS.add rounded].
        apply round64_same; [rewrite He; ring | exact HP]. }
      destruct Hstep as (v & Hv & Ev). rewrite Hv.
      destruct t as [|t]; cbn [nth_error].
      * exists v. split; [reflexivity | exact Ev].
      * apply IH; [exact Ev | lia | lia].
Qed.

Lemma representable_2_53 : representable (inject_Z (2 ^ prec)).
Proof. eexists. split; [vm_compute; reflexivity | reflexivity]. Qed.

Lemma multiplier_finite (n : nat) :
  (1 <= n)%nat -> (Z.of_nat n < 2 ^ prec)%Z ->
  exists m, Binary64.div (lit 2) (Binary64.add (Binary64.of_nat n) (lit 1)) = Fin m.
Proof.
  intros Hn Hb.
  destruct (representable_Z (Z.of_nat n)) as (vn & Hvn & Evn); [lia|].
  unfold Binary64.of_nat. rewrite Hvn.
  change (lit 1) with (Fin 1). change (lit 2) with (Fin 2).
  unfold Binary64.add. cbn [JS.add rounded].
  destruct (round64_between (vn + 1) 1 (inject_Z (2 ^ prec)))
    as (c & Hc & Hc1 & Hc2).
  - apply (representable_Z 1). unfold prec. cbn. lia.
  - exact representable_2_53.
  - rewrite Evn. split.
    + assert (H : 0 <= inject_Z (Z.of_nat n)).
      { change 0 with (inject_Z 0). rewrite <- Zle_Qle. lia. }
      lra.
    + change 1 with (inject_Z 1). rewrite <- inject_Z_plus, <- Zle_Qle. lia.
  - rewrite Hc. unfold Binary64.div. cbn [JS.div].
    assert (Hcz : ~ c == 0) by lra.
    rewrite (proj2 (Qzerob_false c) Hcz). cbn [rounded].
    destruct (round64_between (2 / c) 0 2) as (m & Hm & _).
    + apply (representable_Z 0). unfold prec. cbn. lia.
    + apply (representable_Z 2). unfold prec. cbn. lia.
    + split.
      * apply Qle_shift_div_l; lra.
      * apply Qle_shift_div_r; lra.
    + exists m. exact Hm.
Qed.

(** C7 (as amended).  In binary64, for a period [1 <= n < 2^53] and a
    constant series of value [P] of length at least [n] whose multiples
    [P], [2P], ..., [nP] are doubles (so that the seed [(P + ... + P) / n]
    is computed without rounding; every integer [P] with [n |P| < 2^53] is
    such a value), the entry of [EMA] at index [n - 1] and at every later
    index is the number [P]. *)
Theorem C7_EMA_constant_binary64 (n len : nat) (P : Q) (i : nat) :
  (1 <= n)%nat -> (Z.of_nat n < 2 ^ 53)%Z -> (n <= len)%nat ->
  (n - 1 <= i)%nat -> (i < len)%nat ->
  (forall k, (1 <= k <= n)%nat ->
             representable (inject_Z (Z.of_nat k) * P)) ->
  exists v,
    nth_error (Binary64.EMA (repeat (Fin P) len) n) i = Some (Some (Fin v)) /\
    v == P.
Proof.
  intros Hn Hb Hlen Hi Hlt Hrep. unfold Binary64.EMA. cbv zeta.
  change (2 ^ 53)%Z with (2 ^ prec)%Z in Hb.
  rewrite prefix_repeat by assumption.
  destruct (multiplier_finite n Hn Hb) as (m & ->).
  destruct (sum_repeat_exact P n Hrep n 0 0) as (s & Hs & Es);
    [lia | cbn; ring |].
  unfold Binary64.sum. rewrite Hs.
  destruct (representable_Z (Z.of_nat n)) as (vn & Hvn & Evn); [lia|].
  unfold Binary64.of_nat. rewrite Hvn.
  unfold Binary64.div. cbn [JS.div].
  assert (Hnz : ~ vn == 0).
  { rewrite Evn. now apply of_nat_nonzero. }
  rewrite (proj2 (Qzerob_false vn) Hnz). cbn [rounded].
  assert (HP : representable P).
  { apply (representable_compat (inject_Z (Z.of_nat 1) * P)); [cbn; ring|].
    apply Hrep. lia. }
  destruct (round64_same (s / vn) P) as (e & He & Ee); [|exact HP|].
  { rewrite Es, Evn. cbn [Nat.add]. field.
    now apply of_nat_nonzero. }
  rewrite He.
  apply EMA_loop_constant64; [exact HP | exact Ee | assumption | lia].
Qed.

(** C7 at period 3 on five entries of value 5, at the seed index 2. *)
Lemma C7_EMA_constant_binary64_witness :
  exists v,
    nth_error (Binary64.EMA (repeat (Fin 5) 5) 3) 2 = Some (Some (Fin v)) /\
    v == 5.
Proof.
  apply (C7_EMA_constant_binary64 3 5 5 2);
    [lia | reflexivity | lia | lia | lia |].
  intros k Hk.
  apply (representable_compat (inject_Z (Z.of_nat k * 5)));
    [now rewrite inject_Z_mult|].
  apply representable_Z. unfold prec.
  change (2 ^ 53)%Z with 9007199254740992%Z. lia.
Defined.

(** C7 as stated fails in binary64: on the constant series of the double
    nearest to 0.1 with period 3, the seed [(0.1 + 0.1 + 0.1) / 3] is
    0.10000000000000002, so the entry at index [n - 1 = 2] is not the value
    of the series. *)
Lemma C7_counterexample :
  exists P v,
    lit 0.1 = Fin P /\
    nth_error (Binary64.EMA (repeat (Fin P) 5) 3) 2 = Some (Some (Fin v)) /\
    ~ v == P.
Proof.
  do 2 eexists. split; [vm_compute; reflexivity|].
  split; [vm_compute; reflexivity|].
  intro H. vm_compute in H. discriminate H.
Qed.

(** *** The rounding error *)

Lemma rne_error (y : Q) :
  inject_Z (rne y) - (1 # 2) <= y /\ y <= inject_Z (rne y) + (1 # 2).
Proof.
  pose proof (Qfloor_le y) as H1. pose proof (Qlt_floor y) as H2.
  rewrite inject_Z_plus in H2. change (inject_Z 1) with 1 in H2.
  unfold rne.
  destruct (Qcompare_spec (y - inject_Z (Qfloor y)) (1 # 2)) as [E|E|E];
    [destruct (Z.even (Qfloor y))|..];
    try rewrite inject_Z_plus; change (inject_Z 1) with 1; lra.
Qed.

Lemma round_pos_error (x : Q) :
  round_pos x - pow2 (expo x - 1) <= x /\ x <= round_pos x + pow2 (expo x - 1).
Proof.
  rewrite round_pos_eq.
  assert (Hh : pow2 (expo x - 1) == (1 # 2) * pow2 (expo x)).
  { replace (expo x - 1)%Z with (-1 + expo x)%Z by lia.
    rewrite pow2_plus. reflexivity. }
  rewrite Hh.
  pose proof (pow2_pos (expo x)) as He.
  destruct (rne_error (x / pow2 (expo x))) as [H1 H2].
  set (E := pow2 (expo x)) in *.
  set (m := inject_Z (rne (x / E))) in *.
  assert (Hx : x / E * E == x) by (field; lra).
  assert (A1 : (m - (1 # 2)) * E <= x / E * E)
    by (apply Qmult_le_r; assumption).
  assert (A2 : x / E * E <= (m + (1 # 2)) * E)
    by (apply Qmult_le_r; assumption).
  rewrite Hx in A1, A2. split; lra.
Qed.

(** half the spacing at a positive [x]: a relative [2^-53], or [2^-1075] *)
Lemma half_spacing (x : Q) :
  0 < x ->
  pow2 (expo x - 1) <= x * pow2 (- prec) \/ pow2 (expo x - 1) = pow2 (emin - 1).
Proof.
  intro Hx. unfold expo.
  destruct (Z.max_spec (ilog2 x - (prec - 1)) emin) as [[_ ->]|[_ ->]].
  - now right.
  - left. destruct (ilog2_spec x Hx) as [H _].
    replace (ilog2 x - (prec - 1) - 1)%Z with (ilog2 x + - prec)%Z by lia.
    rewrite pow2_plus. apply Qmult_le_r; [apply pow2_pos | exact H].
Qed.

(** ** Support and resistance in binary64 *)

Lemma lit_097 :
  exists c, lit 0.97 = Fin c /\ 0 < c /\ c < (63 # 64) /\
            c * (1 + pow2 (- prec)) < 1 /\
            exists m, round64 (pow2 emin * c) = Fin m /\ 0 < m.
Proof.
  eexists. split; [vm_compute; reflexivity|].
  split; [reflexivity|]. split; [reflexivity|]. split; [reflexivity|].
  eexists. split; [vm_compute; reflexivity | reflexivity].
Qed.

Lemma lit_103 :
  exists c, lit 1.03 = Fin c /\ (65 # 64) < c /\
            1 < c * (1 - pow2 (- prec)).
Proof.
  eexists. split; [vm_compute; reflexivity|]. repeat split; reflexivity.
Qed.

(** a rounded positive product, before the overflow test *)
Lemma round64_pos_value (x v : Q) :
  0 < x -> round64 x = Fin v ->
  v - pow2 (expo (Qred x) - 1) <= x /\ x <= v + pow2 (expo (Qred x) - 1).
Proof.
  intros Hx Hv. apply round64_Fin in Hv. destruct Hv as [Hv _].
  assert (Hx' : 0 < Qred x) by now rewrite Qred_correct.
  rewrite (rnd_pos _ Hx') in Hv.
  destruct (round_pos_error (Qred x)) as [H1 H2].
  pose proof (Qred_correct x) as Ex. split; lra.
Qed.

Lemma tiny_gap (p d : Q) :
  pow2 (-1069) <= p -> (1 # 64) < d -> pow2 (emin - 1) < p * d.
Proof.
  intros Hp Hd.
  assert (E : pow2 (emin - 1) == pow2 (-1069) * (1 # 64)) by reflexivity.
  rewrite E.
  assert (H0 : 0 < pow2 (-1069)) by apply pow2_pos.
  apply Qle_lt_trans with (p * (1 # 64)).
  - apply Qmult_le_r; [reflexivity | exact Hp].
  - apply Qmult_lt_l; [lra | exact Hd].
Qed.

Lemma support_fallback64 (p : Q) :
  0 < p -> representable p ->
  exists s, Binary64.mul (Fin p) (lit 0.97) = Fin s /\
            0 < s /\ s <= p /\ (pow2 (-1069) <= p -> s < p).
Proof.
  intros Hp Hrep.
  destruct lit_097 as (c & -> & Hc0 & Hc1 & Hc2 & m & Hm & Hm0).
  unfold Binary64.mul. cbn [JS.mul rounded].
  pose proof (representable_pos p Hrep Hp) as Hmin.
  assert (Hlo : pow2 emin * c <= p * c) by (apply Qmult_le_r; assumption).
  assert (Hhi : p * c <= p).
  { setoid_replace p with (p * 1) at 2 by ring.
    apply Qmult_le_l; [exact Hp | lra]. }
  pose proof (round64_le _ _ Hlo) as L1. rewrite Hm in L1.
  pose proof (round64_le _ _ Hhi) as L2.
  destruct Hrep as (p' & Hp' & Ep). rewrite Hp' in L2.
  destruct (round64 (p * c)) as [s| | |] eqn:Es; try discriminate.
  cbn [le] in L1, L2. apply Qle_bool_iff in L1. apply Qle_bool_iff in L2.
  exists s. split; [reflexivity|]. split; [lra|]. split; [lra|].
  intro Hbig.
  assert (Hx : 0 < p * c) by (apply Qmult_lt_0_compat; assumption).
  destruct (round64_pos_value (p * c) s Hx Es) as [H1 _].
  assert (Hx' : 0 < Qred (p * c)) by now rewrite Qred_correct.
  destruct (half_spacing (Qred (p * c)) Hx') as [Hh|Hh];
    set (e := expo (Qred (p * c))) in *.
  - rewrite (Qred_correct (p * c)) in Hh.
    assert (Hk : p * c + p * c * pow2 (- prec) < p).
    { setoid_replace (p * c + p * c * pow2 (- prec))
        with (p * (c * (1 + pow2 (- prec)))) by ring.
      setoid_replace p with (p * 1) at 2 by ring.
      apply Qmult_lt_l; assumption. }
    lra.
  - rewrite Hh in H1.
    pose proof (tiny_gap p (1 - c) Hbig ltac:(lra)) as Hg.
    setoid_replace (p * (1 - c)) with (p - p * c) in Hg by ring.
    lra.
Qed.

Lemma resistance_fallback64 (p : Q) :
  0 < p -> representable p ->
  exists r, Binary64.mul (Fin p) (lit 1.03) = r /\
            (Fin p <=? r) = true /\ truthy r = true /\
            (pow2 (-1069) <= p -> (Fin p <? r) = true).
Proof.
  intros Hp Hrep.
  destruct lit_103 as (c & -> & Hc1 & Hc2).
  unfold Binary64.mul. cbn [JS.mul rounded].
  assert (Hlo : p <= p * c).
  { setoid_replace p with (p * 1) at 1 by ring.
    apply Qmult_le_l; [exact Hp | lra]. }
  pose proof (round64_le _ _ Hlo) as L.
  destruct Hrep as (p' & Hp' & Ep). rewrite Hp' in L.
  eexists. split; [reflexivity|].
  destruct (round64 (p * c)) as [r| | |] eqn:Er; try discriminate.
  - cbn [le] in L. apply Qle_bool_iff in L.
    split; [cbn [le]; apply Qle_bool_iff; lra|].
    split.
    { cbn [truthy]. assert (Hz : ~ r == 0) by lra.
      now rewrite (proj2 (Qzerob_false r) Hz). }
    intro Hbig. cbn [lt]. apply Qltb_lt.
    assert (Hx : 0 < p * c) by (apply Qmult_lt_0_compat; lra).
    destruct (round64_pos_value (p * c) r Hx Er) as [_ H2].
    assert (Hx' : 0 < Qred (p * c)) by now rewrite Qred_correct.
    destruct (half_spacing (Qred (p * c)) Hx') as [Hh|Hh];
      set (e := expo (Qred (p * c))) in *.
    + rewrite (Qred_correct (p * c)) in Hh.
      assert (Hk : p < p * c - p * c * pow2 (- prec)).
      { setoid_replace (p * c - p * c * pow2 (- prec))
          with (p * (c * (1 - pow2 (- prec)))) by ring.
        setoid_replace p with (p * 1) at 1 by ring.
        apply Qmult_lt_l; assumption. }
      lra.
    + rewrite Hh in H2.
      pose proof (tiny_gap p (c - 1) Hbig ltac:(lra)) as Hg.
      setoid_replace (p * (c - 1)) with (p * c - p) in Hg by ring.
      lra.
  - repeat split; reflexivity.
Qed.

Section Levels64.

Variable p : Q.

Lemma nearest_below_keeps64 (st : num * cell) (s : num) :
  below_or_none p (snd st) ->
  below_or_none p (snd (Binary64.nearest_below (Fin p) st s)).
Proof.
  intro H. unfold Binary64.nearest_below.
  destruct (s <? Fin p) eqn:E; [|exact H].
  destruct (Binary64.sub (Fin p) s <? fst st) eqn:D; [|exact H].
  destruct s as [q| | |]; simpl in E; try discriminate.
  - right. exists q. split; [reflexivity | now apply Qltb_lt].
  - destruct (fst st); simpl in D; discriminate.
Qed.

Lemma nearest_above_keeps64 (st : num * cell) (r : num) :
  above_or_none p (snd st) ->
  above_or_none p (snd (Binary64.nearest_above (Fin p) st r)).
Proof.
  intro H. unfold Binary64.nearest_above, gt.
  destruct (Fin p <? r) eqn:E; [|exact H].
  destruct (Binary64.sub r (Fin p) <? fst st) eqn:D; [|exact H].
  destruct r as [q| | |]; simpl in E; try discriminate.
  - right. exists q. split; [reflexivity | now apply Qltb_lt].
  - destruct (fst st); simpl in D; discriminate.
Qed.

Lemma fold_nearest_below64 (l : list num) (st : num * cell) :
  below_or_none p (snd st) ->
  below_or_none p (snd (fold_left (Binary64.nearest_below (Fin p)) l st)).
Proof.
  revert st. induction l as [|s l IH]; intros st H; simpl; [exact H|].
  apply IH, nearest_below_keeps64, H.
Qed.

Lemma fold_nearest_above64 (l : list num) (st : num * cell) :
  above_or_none p (snd st) ->
  above_or_none p (snd (fold_left (Binary64.nearest_above (Fin p)) l st)).
Proof.
  revert st. induction l as [|s l IH]; intros st H; simpl; [exact H|].
  apply IH, nearest_above_keeps64, H.
Qed.

Lemma fold_nearest_below_none64 (l : list num) (st : num * cell) :
  (forall x, In x l -> (x <? Fin p) = false) ->
  fold_left (Binary64.nearest_below (Fin p)) l st = st.
Proof.
  revert st. induction l as [|s l IH]; intros st H; simpl; [reflexivity|].
  unfold Binary64.nearest_below at 2. rewrite (H s (or_introl Logic.eq_refl)).
  apply IH. intros x Hx. apply H. now right.
Qed.

Lemma fold_nearest_above_none64 (l : list num) (st : num * cell) :
  (forall x, In x l -> (x >? Fin p) = false) ->
  fold_left (Binary64.nearest_above (Fin p)) l st = st.
Proof.
  revert st. induction l as [|s l IH]; intros st H; simpl; [reflexivity|].
  unfold Binary64.nearest_above at 2. rewrite (H s (or_introl Logic.eq_refl)).
  apply IH. intros x Hx. apply H. now right.
Qed.

Hypothesis p_pos : 0 < p.
Hypothesis p_double : representable p.

Lemma support_after_fallback64 (found : cell) :
  below_or_none p found ->
  exists s,
    (if ctruthy found then found else Some (Binary64.mul (Fin p) (lit 0.97)))
    = Some (Fin s) /\
    s <= p /\ ~ s == 0 /\ (pow2 (-1069) <= p -> s < p).
Proof.
  destruct (support_fallback64 p p_pos p_double) as (f & Hf & Hf0 & Hf1 & Hf2).
  intros [-> | [q [-> Hq]]].
  - cbn [ctruthy]. exists f. rewrite Hf. split; [reflexivity|].
    split; [exact Hf1|]. split; [lra | exact Hf2].
  - cbn [ctruthy truthy]. destruct (Qzerob q) eqn:E; cbn [negb].
    + exists f. rewrite Hf. split; [reflexivity|].
      split; [exact Hf1|]. split; [lra | exact Hf2].
    + exists q. split; [reflexivity|]. split; [lra|].
      split; [now apply Qzerob_false | intros _; exact Hq].
Qed.

Lemma resistance_after_fallback64 (found : cell) :
  above_or_none p found ->
  exists r,
    (if ctruthy found then found else Some (Binary64.mul (Fin p) (lit 1.03)))
    = Some r /\
    (Fin p <=? r) = true /\ truthy r = true /\
    (pow2 (-1069) <= p -> (Fin p <? r) = true).
Proof.
  destruct (resistance_fallback64 p p_pos p_double) as (f & Hf & Hf0 & Hf1 & Hf2).
  intros [-> | [q [-> Hq]]].
  - cbn [ctruthy]. exists f. rewrite Hf. repeat split; assumption.
  - assert (Hz : ~ q == 0) by lra.
    cbn [ctruthy truthy]. rewrite (proj2 (Qzerob_false q) Hz). cbn [negb].
    exists (Fin q). split; [reflexivity|].
    split; [cbn [le]; apply Qle_bool_iff; lra|].
    split; [cbn [truthy]; now rewrite (proj2 (Qzerob_false q) Hz)|].
    intros _. cbn [lt]. now apply Qltb_lt.
Qed.

End Levels64.

(** C10 (as amended).  In binary64, on at least 50 candles and a strictly
    positive price (a double), [findSupportResistance] returns a support
    and a resistance that are both present and non-zero, the support not
    above the price and the resistance not below it, and strictly so once
    the price is at least [2^-1069]; the fallbacks are [price * 0.97] and
    [price * 1.03] when no level qualifies; so the tests of [generateSignal]
    on these levels never add the missing-support or missing-resistance
    rejection. *)
Theorem C10_levels_present_binary64
        (analysis : Analysis) (rej : list Text)
        (candles : list Candle) (p : Q) :
  (50 <= length candles)%nat -> 0 < p -> representable p ->
  let sr := Binary64.findSupportResistance candles (Fin p) in
  (exists s, nearestSupport sr = Some (Fin s) /\
             s <= p /\ ~ s == 0 /\ (pow2 (-1069) <= p -> s < p)) /\
  (exists r, nearestResistance sr = Some r /\
             (Fin p <=? r) = true /\ truthy r = true /\
             (pow2 (-1069) <= p -> (Fin p <? r) = true)) /\
  ((forall x, In x (supports sr) -> (x <? Fin p) = false) ->
   nearestSupport sr = Some (Binary64.mul (Fin p) (lit 0.97))) /\
  ((forall x, In x (resistances sr) -> (x >? Fin p) = false) ->
   nearestResistance sr = Some (Binary64.mul (Fin p) (lit 1.03))) /\
  d_rejectionReasons (decide_long analysis (Fin p) sr rej) = rej /\
  d_rejectionReasons (decide_short analysis (Fin p) sr rej) = rej.
Proof.
  intros Hlen Hp Hrep sr.
  assert (Hs : exists s, nearestSupport sr = Some (Fin s) /\
             s <= p /\ ~ s == 0 /\ (pow2 (-1069) <= p -> s < p)).
  { unfold sr, Binary64.findSupportResistance.
    apply Nat.ltb_ge in Hlen. rewrite Hlen. cbv zeta. cbn [nearestSupport].
    apply support_after_fallback64; [exact Hp | exact Hrep|].
    apply fold_nearest_below64. now left. }
  assert (Hr : exists r, nearestResistance sr = Some r /\
             (Fin p <=? r) = true /\ truthy r = true /\
             (pow2 (-1069) <= p -> (Fin p <? r) = true)).
  { unfold sr, Binary64.findSupportResistance.
    apply Nat.ltb_ge in Hlen. rewrite Hlen. cbv zeta. cbn [nearestResistance].
    apply resistance_after_fallback64; [exact Hp | exact Hrep|].
    apply fold_nearest_above64. now left. }
  split; [exact Hs|]. split; [exact Hr|].
  split; [|split; [|split]].
  - intro H. unfold sr, Binary64.findSupportResistance in *.
    apply Nat.ltb_ge in Hlen. rewrite Hlen in *. cbv zeta in *.
    cbn [nearestSupport supports] in *.
    rewrite fold_nearest_below_none64; [reflexivity|].
    intros x Hx. apply H. now apply In_sort_by.
  - intro H. unfold sr, Binary64.findSupportResistance in *.
    apply Nat.ltb_ge in Hlen. rewrite Hlen in *. cbv zeta in *.
    cbn [nearestResistance resistances] in *.
    rewrite fold_nearest_above_none64; [reflexivity|].
    intros x Hx. apply H. now apply In_sort_by.
  - destruct Hs as (s & Hs & _ & Hz & _).
    unfold decide_long. rewrite Hs. cbn [ctruthy truthy].
    rewrite (proj2 (Qzerob_false s) Hz). cbn [negb].
    destruct (length rej =? 0)%nat; reflexivity.
  - destruct Hr as (r & Hr & _ & Ht & _).
    unfold decide_short. rewrite Hr. cbn [ctruthy]. rewrite Ht. cbn [negb].
    destruct (length rej =? 0)%nat; reflexivity.
Qed.

(** C10 at the price 100.5 between a low of 100 and a high of 101. *)
Lemma C10_levels_present_binary64_witness :
  exists s,
    nearestSupport (Binary64.findSupportResistance
                      (level_candles 101 100 100.5 50) (Fin 100.5))
    = Some (Fin s) /\
    s < 100.5.
Proof.
  destruct (C10_levels_present_binary64 (long_analysis false) []
              (level_candles 101 100 100.5 50) 100.5)
    as ((s & Hs & _ & _ & Hlt) & _).
  - vm_compute. lia.
  - reflexivity.
  - eexists. split; [vm_compute; reflexivity | reflexivity].
  - exists s. split; [exact Hs|]. apply Hlt.
    apply Qle_bool_iff. vm_compute. reflexivity.
Defined.

(** C10 as stated fails in binary64 at the least positive price: on 50
    candles at 1 no level lies below the price [2^-1074], and the fallback
    [price * 0.97] rounds back to the price, so the support returned is not
    strictly below it. *)
Lemma C10_counterexample :
  (50 <= length (level_candles 1 1 1 50))%nat /\
  0 < pow2 (-1074) /\
  exists s,
    nearestSupport (Binary64.findSupportResistance
                      (level_candles 1 1 1 50) (Fin (pow2 (-1074))))
    = Some (Fin s) /\
    ~ s < pow2 (-1074).
Proof.
  split; [vm_compute; lia|]. split; [reflexivity|].
  eexists. split; [vm_compute; reflexivity|].
  intro H. vm_compute in H. discriminate H.
Qed.

(** ** The range of RSI in binary64 *)

Lemma round_pos_scaled (z e : Z) (q : Q) :
  (0 < z < 2 ^ prec)%Z -> (0 <= e)%Z -> q == inject_Z z * pow2 e ->
  round_pos q == q.
Proof.
  intros [Hz1 Hz2] He Hq.
  destruct (Z.log2_spec z Hz1) as [Ha1 Ha2].
  set (a := Z.log2 z) in *.
  assert (Ha0 : (0 <= a)%Z) by apply Z.log2_nonneg.
  assert (Ha : (a < prec)%Z).
  { apply (proj2 (Z.pow_lt_mono_r_iff 2 a prec ltac:(lia)
                    ltac:(unfold prec; lia))).
    apply Z.le_lt_trans with z; assumption. }
  pose proof (pow2_pos e) as Hpe.
  assert (Hl : ilog2 q = (a + e)%Z).
  { apply ilog2_unique; rewrite Hq.
    - rewrite pow2_plus. apply Qmult_le_r; [exact Hpe|].
      rewrite pow2_Z by exact Ha0. now rewrite <- Zle_Qle.
    - replace (a + e + 1)%Z with ((a + 1) + e)%Z by lia.
      rewrite pow2_plus. apply Qmult_lt_r; [exact Hpe|].
      rewrite pow2_Z by lia. rewrite <- Zlt_Qlt. exact Ha2. }
  rewrite round_pos_eq.
  assert (Hx : expo q = (a + e - (prec - 1))%Z).
  { unfold expo. rewrite Hl. unfold prec, emin in *. lia. }
  rewrite Hx.
  set (t := (prec - 1 - a)%Z).
  assert (Ht : (0 <= t)%Z) by (unfold t; lia).
  assert (Hdiv : q / pow2 (a + e - (prec - 1)) == inject_Z (z * 2 ^ t)).
  { rewrite pow2_div, Hq, inject_Z_mult, <- pow2_Z by exact Ht.
    unfold t. replace (- (a + e - (prec - 1)))%Z with ((prec - 1 - a) + - e)%Z by lia.
    rewrite (pow2_plus (prec - 1 - a) (- e)).
    pose proof (pow2_cancel e) as Hc.
    setoid_replace (inject_Z z * pow2 e * (pow2 (prec - 1 - a) * pow2 (- e)))
      with (inject_Z z * pow2 (prec - 1 - a) * (pow2 (- e) * pow2 e)) by ring.
    rewrite Hc. ring. }
  rewrite (rne_compat _ _ Hdiv), rne_Z, inject_Z_mult, <- pow2_Z by exact Ht.
  rewrite <- Qmult_assoc, <- pow2_plus. unfold t.
  replace (prec - 1 - a + (a + e - (prec - 1)))%Z with e by lia.
  now rewrite Hq.
Qed.

Lemma representable_scaled (z e : Z) :
  (0 <= z < 2 ^ prec)%Z -> (0 <= e)%Z ->
  inject_Z z * pow2 e < pow2 emax ->
  representable (inject_Z z * pow2 e).
Proof.
  intros [Hz1 Hz2] He Hb.
  destruct (Z.eq_dec z 0) as [->|Hz0].
  - apply (representable_compat 0); [ring|].
    exists 0. split; [now apply round64_zero | reflexivity].
  - set (q := inject_Z z * pow2 e) in *.
    pose proof (pow2_pos e) as Hpe.
    assert (Hq0 : 0 < q).
    { unfold q. apply Qmult_lt_0_compat; [|exact Hpe].
      change 0 with (inject_Z 0). rewrite <- Zlt_Qlt. lia. }
    assert (Hq0' : 0 < Qred q) by now rewrite Qred_correct.
    assert (Hr : rnd (Qred q) == q).
    { rewrite (rnd_pos _ Hq0').
      rewrite (round_pos_scaled z e (Qred q)); [apply Qred_correct | lia | exact He |].
      apply Qred_correct. }
    destruct (round64_of_rnd q) as (v & Hv & Ev).
    + rewrite Hr. pose proof (pow2_pos emax). lra.
    + exists v. split; [exact Hv|]. now rewrite Ev.
Qed.

Lemma Qopp_opp_eq (x : Q) : - - x = x.
Proof. destruct x as [a b]. unfold Qopp. cbn. now rewrite Z.opp_involutive. Qed.

Lemma rnd_opp (x : Q) : rnd (- x) == - rnd x.
Proof.
  destruct (Qcompare_spec x 0) as [H|H|H].
  - rewrite (rnd_zero x H). rewrite rnd_zero; [reflexivity | rewrite H; reflexivity].
  - assert (H' : 0 < - x) by lra.
    rewrite (rnd_pos _ H'), (rnd_neg _ H). ring.
  - assert (H' : - x < 0) by lra.
    rewrite (rnd_neg _ H'), (rnd_pos _ H), Qopp_opp_eq. reflexivity.
Qed.

Lemma representable_opp (q : Q) : representable q -> representable (- q).
Proof.
  intros (v & Hv & Ev).
  apply round64_Fin in Hv. destruct Hv as [Hv Hb].
  assert (Hr : rnd (Qred (- q)) == - v).
  { rewrite Qred_opp, rnd_opp. now rewrite Hv. }
  destruct (round64_of_rnd (- q)) as (w & Hw & Ew).
  - rewrite Hr. lra.
  - exists w. split; [exact Hw|]. rewrite Ew, Hr, Ev. reflexivity.
Qed.

Lemma representable_pow2 (e : Z) :
  (0 <= e < emax)%Z -> representable (pow2 e).
Proof.
  intros [H1 H2].
  apply (representable_compat (inject_Z 1 * pow2 e)); [ring|].
  apply representable_scaled; [unfold prec; lia | exact H1 |].
  setoid_replace (inject_Z 1 * pow2 e) with (pow2 e) by ring.
  now apply pow2_lt.
Qed.

Lemma huge_le : huge <= pow2 997.
Proof.
  unfold huge. rewrite pow2_Z by lia. rewrite <- Zle_Qle.
  apply Z.leb_le. vm_compute. reflexivity.
Qed.

Lemma change_bound (c p : Q) :
  bounded c -> bounded p ->
  exists d, Binary64.sub (Fin p) (Fin c) = Fin d /\ - pow2 998 <= d <= pow2 998.
Proof.
  intros [Hc1 Hc2] [Hp1 Hp2].
  pose proof huge_le as Hh.
  assert (E : pow2 998 == 2 * pow2 997).
  { replace 998%Z with (1 + 997)%Z by lia. rewrite pow2_plus. reflexivity. }
  unfold Binary64.sub, JS.sub. cbn [neg JS.add rounded].
  apply round64_between.
  - apply representable_opp, representable_pow2. unfold emax. lia.
  - apply representable_pow2. unfold emax. lia.
  - rewrite E. lra.
Qed.

Lemma length_slice_le {A : Type} (l : list A) (a b : Z) :
  (length (slice l a b) <= length l)%nat.
Proof.
  unfold slice. rewrite length_firstn, length_skipn. lia.
Qed.

Lemma gains_capped (closes : list Q) :
  Forall bounded closes -> Forall capped (Binary64.RSI_gains (map Fin closes)).
Proof.
  intro Hb. unfold Binary64.RSI_gains, Binary64.changes. apply Forall_map.
  induction closes as [|a [|b tl] IH]; cbn [map pairs_map]; try constructor.
  - inversion Hb as [|? ? Ha Hb']; subst. inversion Hb' as [|? ? Hb0 _]; subst.
    destruct (change_bound a b Ha Hb0) as (d & -> & Hd1 & Hd2).
    pose proof (pow2_pos 998) as HP.
    unfold gt. destruct ($0 <? Fin d) eqn:E.
    + apply lt_Fin in E. exists d. split; [reflexivity | lra].
    + exists 0. split; [reflexivity | lra].
  - apply IH. now inversion Hb.
Qed.

Lemma losses_capped (closes : list Q) :
  Forall bounded closes -> Forall capped (Binary64.RSI_losses (map Fin closes)).
Proof.
  intro Hb. unfold Binary64.RSI_losses, Binary64.changes. apply Forall_map.
  induction closes as [|a [|b tl] IH]; cbn [map pairs_map]; try constructor.
  - inversion Hb as [|? ? Ha Hb']; subst. inversion Hb' as [|? ? Hb0 _]; subst.
    destruct (change_bound a b Ha Hb0) as (d & -> & Hd1 & Hd2).
    pose proof (pow2_pos 998) as HP.
    destruct (Fin d <? $0) eqn:E.
    + exists (Qabs d). split; [reflexivity|]. split; [apply Qabs_nonneg|].
      apply Qabs_Qle_condition. split; assumption.
    + exists 0. split; [reflexivity | lra].
  - apply IH. now inversion Hb.
Qed.

Lemma sum_capped (l : list num) :
  Forall capped l ->
  forall (j : nat) (a : Q),
    (Z.of_nat (j + length l) <= 1000000)%Z ->
    0 <= a <= inject_Z (Z.of_nat j) * pow2 998 ->
    exists s,
      fold_left Binary64.add l (Fin a) = Fin s /\
      0 <= s <= inject_Z (Z.of_nat (j + length l)) * pow2 998.
Proof.
  induction 1 as [|x l Hx Hl IH]; intros j a Hj Ha.
  - exists a. split; [reflexivity|]. cbn [length]. now rewrite Nat.add_0_r.
  - destruct Hx as (g & -> & Hg).
    cbn [fold_left length] in *. unfold Binary64.add at 2. cbn [JS.add rounded].
    assert (E : inject_Z (Z.of_nat (S j)) * pow2 998
                == inject_Z (Z.of_nat j) * pow2 998 + pow2 998).
    { rewrite Nat2Z.inj_succ. unfold Z.succ. rewrite inject_Z_plus. ring. }
    destruct (round64_between (a + g) 0 (inject_Z (Z.of_nat (S j)) * pow2 998))
      as (v & Hv & Ev).
    + apply (representable_Z 0). unfold prec. cbn. lia.
    + apply representable_scaled; [unfold prec; lia | lia |].
      apply Qle_lt_trans with (inject_Z (2 ^ 20) * pow2 998).
      * apply Qmult_le_r; [apply pow2_pos|]. rewrite <- Zle_Qle. lia.
      * rewrite <- pow2_Z by lia. rewrite <- pow2_plus. apply pow2_lt.
        unfold emax. lia.
    + rewrite E. lra.
    + rewrite Hv. destruct (IH (S j) v) as (s & Hs & Es); [lia | exact Ev|].
      exists s. split; [exact Hs|].
      now replace (j + S (length l))%nat with (S j + length l)%nat by lia.
Qed.

Lemma of_nat_exact (n : nat) :
  (Z.of_nat n <= 1000000)%Z ->
  exists v, Binary64.of_nat n = Fin v /\ v == inject_Z (Z.of_nat n).
Proof.
  intro H. apply (representable_Z (Z.of_nat n)). unfold prec. lia.
Qed.

Lemma mean_nonneg (l : list num) (n : nat) :
  Forall capped l -> (Z.of_nat (length l) <= 1000000)%Z ->
  (1 <= n)%nat -> (Z.of_nat n <= 1000000)%Z ->
  nonneg (Binary64.div (Binary64.sum l) (Binary64.of_nat n)).
Proof.
  intros Hl Hlen Hn Hn'.
  destruct (sum_capped l Hl 0 0) as (s & Hs & Hs1 & Hs2);
    [cbn [Nat.add]; exact Hlen
    | change (inject_Z (Z.of_nat 0)) with 0; rewrite Qmult_0_l; split; apply Qle_refl |].
  cbn [Nat.add] in Hs2.
  destruct (of_nat_exact n Hn') as (v & Hv & Ev).
  unfold Binary64.sum. rewrite Hs, Hv.
  pose proof (of_nat_pos n Hn) as HN.
  assert (Hv0 : ~ v == 0) by lra.
  unfold Binary64.div. rewrite (div_Fin s v Hv0). cbn [rounded].
  destruct (round64_between (s / v) 0 (inject_Z (Z.of_nat (length l)) * pow2 998))
    as (w & Hw & Hw1 & Hw2).
  - apply (representable_Z 0). unfold prec. cbn. lia.
  - apply representable_scaled; [unfold prec; lia | lia |].
    apply Qle_lt_trans with (inject_Z (2 ^ 20) * pow2 998).
    + apply Qmult_le_r; [apply pow2_pos|]. rewrite <- Zle_Qle. lia.
    + rewrite <- pow2_Z by lia. rewrite <- pow2_plus. apply pow2_lt.
      unfold emax. lia.
  - assert (Hv1 : 1 <= v).
    { rewrite Ev. change 1 with (inject_Z 1). rewrite <- Zle_Qle. lia. }
    split.
    + apply Qle_shift_div_l; lra.
    + apply Qle_trans with s; [|exact Hs2].
      apply Qle_shift_div_r; [lra|].
      assert (Hm : 0 <= s * (v - 1)) by (apply Qmult_le_0_compat; lra).
      lra.
  - exists w. split; [exact Hw | exact Hw1].
Qed.

Lemma lit_Z (z : Z) :
  (Z.abs z < 2 ^ prec)%Z -> exists c, lit (inject_Z z) = Fin c /\ c == inject_Z z.
Proof. apply representable_Z. Qed.

Lemma round64_nonneg (x : Q) :
  0 <= x -> round64 x = PInf \/ exists v, round64 x = Fin v /\ 0 <= v.
Proof.
  intro H. pose proof (round64_le 0 x H) as Hle.
  rewrite (round64_zero 0 (Qeq_refl 0)) in Hle.
  destruct (round64 x) as [v| | |]; try discriminate.
  - right. exists v. split; [reflexivity|]. now apply le_Fin in Hle.
  - now left.
Qed.

Lemma round64_ge_1 (x : Q) :
  1 <= x -> round64 x = PInf \/ exists v, round64 x = Fin v /\ 1 <= v.
Proof.
  intro H. pose proof (round64_le 1 x H) as Hle.
  destruct (representable_Z 1) as (c & Hc & Ec); [unfold prec; cbn; lia|].
  change (inject_Z 1) with 1 in *. rewrite Hc in Hle.
  destruct (round64 x) as [v| | |]; try discriminate.
  - right. exists v. split; [reflexivity|]. apply le_Fin in Hle. lra.
  - now left.
Qed.

(** [100 - 100 / t] for a double [t >= 1] or [t = Infinity] *)
Lemma RSI_complement (c : Q) (t : num) :
  c == 100 ->
  t = PInf \/ (exists v, t = Fin v /\ 1 <= v) ->
  exists q, Binary64.sub (Fin c) (Binary64.div (Fin c) t) = Fin q /\ 0 <= q <= 100.
Proof.
  intros Ec Ht.
  assert (H0 : representable 0) by (apply (representable_Z 0); unfold prec; cbn; lia).
  assert (H100 : representable 100)
    by (apply (representable_Z 100); unfold prec; cbn; lia).
  assert (Hq : exists u, Binary64.div (Fin c) t = Fin u /\ 0 <= u <= 100).
  { destruct Ht as [->|(v & -> & Hv)].
    - unfold Binary64.div. cbn [JS.div rounded].
      rewrite (round64_zero 0 (Qeq_refl 0)). exists 0. split; [reflexivity | lra].
    - assert (Hv0 : ~ v == 0) by lra.
      unfold Binary64.div. rewrite (div_Fin c v Hv0). cbn [rounded].
      apply round64_between; [exact H0 | exact H100 |]. split.
      + apply Qle_shift_div_l; lra.
      + apply Qle_shift_div_r; lra. }
  destruct Hq as (u & -> & Hu).
  unfold Binary64.sub, JS.sub. cbn [neg JS.add rounded].
  apply round64_between; [exact H0 | exact H100 | lra].
Qed.

Lemma RSI_value_range64 (g l : Q) :
  0 <= g -> 0 <= l ->
  exists q, Binary64.RSI_value (Fin g) (Fin l) = Fin q /\ 0 <= q <= 100.
Proof.
  intros Hg Hl. unfold Binary64.RSI_value. cbn [eq].
  destruct (lit_Z 100) as (c & Hc & Ec); [unfold prec; cbn; lia|].
  destruct (lit_Z 1) as (c1 & Hc1 & Ec1); [unfold prec; cbn; lia|].
  change (inject_Z 100) with 100 in *. change (inject_Z 1) with 1 in *.
  rewrite Hc, Hc1.
  destruct (Qeq_bool l 0) eqn:E.
  - exists c. split; [reflexivity | lra].
  - assert (Hl0 : ~ l == 0).
    { intro H. apply Qeq_bool_iff in H. congruence. }
    assert (Hlpos : 0 < l).
    { destruct (Qlt_le_dec 0 l) as [H|H]; [exact H|]. exfalso. apply Hl0. lra. }
    cbv zeta. apply (RSI_complement c _ Ec).
    assert (Hr : 0 <= g / l) by (apply Qle_shift_div_l; lra).
    assert (Hrs : Binary64.div (Fin g) (Fin l) = round64 (g / l)).
    { unfold Binary64.div. now rewrite (div_Fin g l Hl0). }
    rewrite Hrs.
    destruct (round64_nonneg _ Hr) as [->|(r & -> & Hr0)].
    + left. reflexivity.
    + unfold Binary64.add. cbn [JS.add rounded].
      apply round64_ge_1. lra.
Qed.

Lemma RSI_avg_nonneg64 (xs : list num) (period i : nat) :
  Forall capped xs -> (Z.of_nat (length xs) <= 1000000)%Z ->
  (1 <= period)%nat -> (Z.of_nat period <= 1000000)%Z ->
  nonneg (Binary64.RSI_avg xs period i).
Proof.
  intros Hxs Hlen Hp Hp'. unfold Binary64.RSI_avg, prefix, window.
  destruct (at_warmup i period); apply mean_nonneg; auto;
    try (apply Forall_slice; exact Hxs);
    match goal with
    | |- context [slice ?l ?a ?b] => pose proof (length_slice_le l a b); lia
    end.
Qed.

(** C6 (as amended).  In binary64, for at most a million closes within
    [10 ^ 300] in magnitude and a period of at least 1, every non-absent
    entry of [RSI] lies in [[0, 100]], and the entry is exactly 100 wherever
    the trailing average loss is 0. *)
Theorem C6_RSI_range_binary64 (closes : list Q) (period : nat) :
  (1 <= period)%nat ->
  (Z.of_nat (length closes) <= 1000000)%Z -> Forall bounded closes ->
  (forall i v,
      nth_error (Binary64.RSI (map Fin closes) period) i = Some (Some v) ->
      in_0_100 v) /\
  (forall i,
      (i < length (Binary64.RSI_gains (map Fin closes)))%nat ->
      (period - 1 <= i)%nat ->
      same (Binary64.RSI_avg (Binary64.RSI_losses (map Fin closes)) period i) $0 ->
      nth_error (Binary64.RSI (map Fin closes) period) (S i) = Some (Some $100)).
Proof.
  intros Hp Hlen Hb.
  assert (Hlg : length (Binary64.RSI_gains (map Fin closes)) = (length closes - 1)%nat).
  { unfold Binary64.RSI_gains, Binary64.changes.
    now rewrite length_map, length_pairs_map, length_map. }
  assert (Hll : length (Binary64.RSI_losses (map Fin closes)) = (length closes - 1)%nat).
  { unfold Binary64.RSI_losses, Binary64.changes.
    now rewrite length_map, length_pairs_map, length_map. }
  unfold Binary64.RSI. split.
  - intros [|i] v; cbn [nth_error]; [discriminate|].
    rewrite nth_error_map_seq.
    destruct (i <? _)%nat eqn:Ei; [|discriminate]. cbn [Nat.add].
    apply Nat.ltb_lt in Ei.
    destruct (before_warmup i period) eqn:Ew; [discriminate|].
    apply before_warmup_false in Ew.
    intro H. injection H as <-.
    destruct (RSI_avg_nonneg64 (Binary64.RSI_gains (map Fin closes)) period i)
      as [g [-> Hg]]; [now apply gains_capped | lia | exact Hp | lia |].
    destruct (RSI_avg_nonneg64 (Binary64.RSI_losses (map Fin closes)) period i)
      as [l [-> Hl]]; [now apply losses_capped | lia | exact Hp | lia |].
    destruct (RSI_value_range64 g l Hg Hl) as [q [-> Hq]].
    now apply in_0_100_Fin.
  - intros i Hi Hw Hzero. cbn [nth_error].
    rewrite nth_error_map_seq.
    apply Nat.ltb_lt in Hi. rewrite Hi. cbn [Nat.add].
    apply before_warmup_false in Hw. rewrite Hw.
    destruct (Binary64.RSI_avg (Binary64.RSI_losses (map Fin closes)) period i) as [l| | |];
      cbn [same] in Hzero; try contradiction.
    unfold Binary64.RSI_value. cbn [eq].
    apply Qeq_bool_iff in Hzero. rewrite Hzero. reflexivity.
Qed.

(** C6 at closes 1, 2, 3, 2 with period 2. *)
Lemma C6_RSI_range_binary64_witness :
  in_0_100 $50 /\
  nth_error (Binary64.RSI (map Fin [1; 2; 3; 2]%Q) 2) 2 = Some (Some $100).
Proof.
  assert (Hb : Forall bounded [1; 2; 3; 2]%Q)
    by (repeat constructor; vm_compute; discriminate).
  assert (Hlen : (Z.of_nat (length [1; 2; 3; 2]%Q) <= 1000000)%Z)
    by (cbn [length Z.of_nat]; lia).
  destruct (C6_RSI_range_binary64 [1; 2; 3; 2]%Q 2 (le_S 1 1 (le_n 1)) Hlen Hb)
    as [Hr Hz].
  split.
  - apply (Hr 3%nat). vm_compute. reflexivity.
  - apply (Hz 1%nat); [vm_compute; lia | vm_compute; lia | vm_compute; reflexivity].
Defined.

(** without the bound on the closes the sums of gains and losses overflow
    and the entry is not a number *)
Lemma RSI_overflow :
  nth_error (Binary64.RSI (map Fin [0; pow2 1023; 0; pow2 1023; 0]) 4) 4
  = Some (Some NaN).
Proof. vm_compute. reflexivity. Qed.

End Binary64Facts.

(** ** Stop-loss, take-profit and leverage *)

Lemma Qltb_inject_Z (a b : Z) : Qltb (inject_Z a) (inject_Z b) = (a <? b)%Z.
Proof.
  destruct (a <? b)%Z eqn:E.
  - apply Qltb_lt. rewrite <- Zlt_Qlt. now apply Z.ltb_lt.
  - apply Qltb_ge. rewrite <- Zle_Qle. now apply Z.ltb_ge.
Qed.

Lemma min2_of_Z (a b : Z) : min2 (of_Z a) (of_Z b) = of_Z (Z.min a b).
Proof.
  unfold of_Z. cbn [min2 lt]. rewrite Qltb_inject_Z.
  destruct (b <? a)%Z eqn:E.
  - apply Z.ltb_lt in E. now rewrite Z.min_r by lia.
  - apply Z.ltb_ge in E. now rewrite Z.min_l by lia.
Qed.

Lemma max2_of_Z (a b : Z) : max2 (of_Z a) (of_Z b) = of_Z (Z.max a b).
Proof.
  unfold of_Z. cbn [max2 lt]. rewrite Qltb_inject_Z.
  destruct (a <? b)%Z eqn:E.
  - apply Z.ltb_lt in E. now rewrite Z.max_r by lia.
  - apply Z.ltb_ge in E. now rewrite Z.max_l by lia.
Qed.

Lemma desiredLeverage_tier (absScore confluenceScore : Z) :
  exists z, desiredLeverage absScore confluenceScore = of_Z z /\ (8 <= z <= 15)%Z.
Proof.
  unfold desiredLeverage.
  destruct (_ && _); [exists 15%Z; split; [reflexivity | lia]|].
  destruct (_ && _); [exists 12%Z; split; [reflexivity | lia]|].
  destruct (_ && _); [exists 10%Z; split; [reflexivity | lia]|].
  exists 8%Z; split; [reflexivity | lia].
Qed.

(** the leverage block on a signal with a positive risk *)
Lemma suggest_leverage_clamped (analysis : Analysis) (a : Action) (risk : Q) :
  a <> WAIT -> (0 < risk)%Q ->
  exists z,
    fst (fst (suggest_leverage analysis a (Some (Fin risk)))) = of_Z z /\
    (5 <= z <= 15)%Z.
Proof.
  intros Ha Hr. unfold suggest_leverage. cbn [ctruthy truthy].
  assert (Hz : ~ (risk == 0)%Q) by lra.
  pose proof (proj2 (Qzerob_false risk) Hz) as Hzb. rewrite Hzb. cbn [negb cnum].
  destruct (desiredLeverage_tier (Z.abs (totalScore analysis))
              (if (totalScore analysis >? 0)%Z then bullishConfluence analysis
               else bearishConfluence analysis)) as [dz [Hd Hdz]].
  assert (Hlev :
    min2 (max2 (min2 (desiredLeverage (Z.abs (totalScore analysis))
                        (if (totalScore analysis >? 0)%Z
                         then bullishConfluence analysis
                         else bearishConfluence analysis))
                     (floor ($25 / Fin risk))) $5) $15
    = of_Z (Z.min (Z.max (Z.min dz (Qfloor (25 / risk))) 5) 15)).
  { rewrite Hd, (div_Fin 25 risk Hz). cbn [floor].
    rewrite min2_of_Z. change $5 with (of_Z 5). rewrite max2_of_Z.
    change $15 with (of_Z 15). now rewrite min2_of_Z. }
  destruct a; [| |congruence]; cbv zeta; cbn [fst]; rewrite Hlev;
    eexists; (split; [reflexivity | lia]).
Qed.

(** [riskPercent] of a finite level at a positive price *)
Lemma percent_from_Fin (p level : Q) (towards : bool) :
  (0 < p)%Q -> ~ (level == 0)%Q ->
  percent_from (Fin p) (Some (Fin level)) towards
  = Some (Fin (Qabs ((if towards then level + - p else p + - level) / p * 100))).
Proof.
  intros Hp Hl. unfold percent_from. cbn [ctruthy truthy cnum].
  rewrite (proj2 (Qzerob_false level) Hl). cbn [negb].
  assert (Hpz : ~ (p == 0)%Q) by lra.
  destruct towards; unfold sub; cbn [neg add];
    rewrite (div_Fin _ p Hpz); reflexivity.
Qed.


Lemma nonzero_truthy (q : Q) : ~ (q == 0)%Q -> ctruthy (Some (Fin q)) = true.
Proof.
  intro H. cbn. now rewrite (proj2 (Qzerob_false q) H).
Qed.

Lemma decide_long_levels (analysis : Analysis) (p : Q)
      (sr : SRLevels) (rej : list Text) (s r : Q) :
  (0 < p)%Q ->
  nearestSupport sr = Some (Fin s) -> (s < p)%Q -> ~ (s == 0)%Q ->
  nearestResistance sr = Some (Fin r) -> (p < r)%Q ->
  levels_ok p (decide_long analysis (Fin p) sr rej).
Proof.
  intros Hp Hs Hsp Hs0 Hr Hpr. unfold decide_long.
  rewrite Hs, Hr. rewrite (nonzero_truthy s Hs0).
  assert (Hr0 : ~ (r == 0)%Q) by lra.
  rewrite (nonzero_truthy r Hr0). cbn [negb andb cnum].
  destruct (length rej =? 0)%nat; [|split; reflexivity].
  unfold levels_ok. cbv zeta. cbn [d_action d_stopLoss d_takeProfit].
  unfold sub, gt. cbn [mul neg add lt le].
  destruct (Qltb (p + - (s * 0.997)) (p * 0.015)) eqn:Esl.
  - apply Qltb_lt in Esl. cbn [neg add mul lt le].
    destruct (Qltb (p * 1.005) r) eqn:Er.
    + apply Qltb_lt in Er. cbn [le].
      destruct (Qle_bool (r * 0.998) (p * 1.005)) eqn:Et;
        do 2 eexists; (split; [reflexivity|]); (split; [reflexivity|]).
      * repeat split; lra.
      * assert ((p * 1.005 < r * 0.998)%Q).
        { apply Qnot_le_lt. intro H. apply Qle_bool_iff in H. congruence. }
        repeat split; lra.
    + cbn [le].
      destruct (Qle_bool _ (p * 1.005));
        do 2 eexists; (split; [reflexivity|]); (split; [reflexivity|]);
        repeat split; lra.
  - apply Qltb_ge in Esl. cbn [neg add mul lt le].
    destruct (Qltb (p * 1.005) r) eqn:Er.
    + apply Qltb_lt in Er. cbn [le].
      destruct (Qle_bool (r * 0.998) (p * 1.005)) eqn:Et;
        do 2 eexists; (split; [reflexivity|]); (split; [reflexivity|]).
      * repeat split; lra.
      * assert ((p * 1.005 < r * 0.998)%Q).
        { apply Qnot_le_lt. intro H. apply Qle_bool_iff in H. congruence. }
        repeat split; lra.
    + cbn [le].
      destruct (Qle_bool _ (p * 1.005));
        do 2 eexists; (split; [reflexivity|]); (split; [reflexivity|]);
        repeat split; lra.
Qed.

Lemma decide_short_levels (analysis : Analysis) (p : Q)
      (sr : SRLevels) (rej : list Text) (s r : Q) :
  (0 < p)%Q ->
  nearestSupport sr = Some (Fin s) -> (s < p)%Q -> ~ (s == 0)%Q ->
  nearestResistance sr = Some (Fin r) -> (p < r)%Q ->
  levels_ok p (decide_short analysis (Fin p) sr rej).
Proof.
  intros Hp Hs Hsp Hs0 Hr Hpr. unfold decide_short.
  rewrite Hs, Hr. rewrite (nonzero_truthy s Hs0).
  assert (Hr0 : ~ (r == 0)%Q) by lra.
  rewrite (nonzero_truthy r Hr0). cbn [negb andb cnum].
  destruct (length rej =? 0)%nat; [|split; reflexivity].
  unfold levels_ok. cbv zeta. cbn [d_action d_stopLoss d_takeProfit].
  unfold sub, ge. cbn [mul neg add lt le].
  destruct (Qltb (r * 1.003 + - p) (p * 0.015)) eqn:Esl.
  - apply Qltb_lt in Esl. cbn [neg add mul lt le].
    destruct (Qltb s (p * 0.995)) eqn:Es.
    + apply Qltb_lt in Es. cbn [le].
      destruct (Qle_bool (p * 0.995) (s * 1.002)) eqn:Et;
        do 2 eexists; (split; [reflexivity|]); (split; [reflexivity|]).
      * repeat split; lra.
      * assert ((s * 1.002 < p * 0.995)%Q).
        { apply Qnot_le_lt. intro H. apply Qle_bool_iff in H. congruence. }
        repeat split; lra.
    + cbn [le].
      destruct (Qle_bool (p * 0.995) _);
        do 2 eexists; (split; [reflexivity|]); (split; [reflexivity|]);
        repeat split; lra.
  - apply Qltb_ge in Esl. cbn [neg add mul lt le].
    destruct (Qltb s (p * 0.995)) eqn:Es.
    + apply Qltb_lt in Es. cbn [le].
      destruct (Qle_bool (p * 0.995) (s * 1.002)) eqn:Et;
        do 2 eexists; (split; [reflexivity|]); (split; [reflexivity|]).
      * repeat split; lra.
      * assert ((s * 1.002 < p * 0.995)%Q).
        { apply Qnot_le_lt. intro H. apply Qle_bool_iff in H. congruence. }
        repeat split; lra.
    + cbn [le].
      destruct (Qle_bool (p * 0.995) _);
        do 2 eexists; (split; [reflexivity|]); (split; [reflexivity|]);
        repeat split; lra.
Qed.

Lemma length_snoc_nonzero {A : Type} (l : list A) (x : A) :
  (length (l ++ [x]) =? 0)%nat = false.
Proof.
  rewrite length_app. simpl. apply Nat.eqb_neq. lia.
Qed.

(** the levels of [decide] at a positive price, on any candles *)
Lemma decide_levels (config : Config) (analysis : Analysis)
      (candles : list Candle) (p : Q) :
  (0 < p)%Q -> levels_ok p (decide config analysis (Fin p) candles).
Proof.
  intro Hp. unfold decide.
  destruct (Nat.lt_ge_cases (length candles) 50) as [Hlen|Hlen].
  - assert (Hsr : findSupportResistance candles (Fin p)
                  = mkSRLevels [] [] None None None None).
    { unfold findSupportResistance. apply Nat.ltb_lt in Hlen. now rewrite Hlen. }
    rewrite Hsr.
    destruct (_ && _ && _).
    + unfold decide_long. cbn [nearestSupport ctruthy negb].
      rewrite length_snoc_nonzero. split; reflexivity.
    + destruct (_ && _ && _).
      * unfold decide_short. cbn [nearestResistance ctruthy negb].
        rewrite length_snoc_nonzero. split; reflexivity.
      * split; reflexivity.
  - destruct (findSupportResistance_levels candles p Hlen Hp)
      as ((s & Hs & Hsp & Hs0) & (r & Hr & Hpr) & _).
    destruct (_ && _ && _).
    + now apply (decide_long_levels analysis p _ _ s r).
    + destruct (_ && _ && _).
      * now apply (decide_short_levels analysis p _ _ s r).
      * split; reflexivity.
Qed.





(** C4 on the sideways variant of the sample analysis. *)
Lemma C4_sideway_wait_witness :
  let s := generateSignal default_config (long_analysis true) $100.7
             (level_candles 101 100 100.7 50) no_series in
  action s = WAIT /\ stopLoss s = None /\ takeProfit s = None /\
  In (reason_sideway default_config) (reasons s).
Proof.
  apply (C4_sideway_wait default_config (long_analysis true) $100.7
           (level_candles 101 100 100.7 50) no_series).
  reflexivity.
Defined.

(** C8 on the closes 4, 3, 2, 1, 5 with periods 1, 2 and 2: the histogram
    goes from 0 to 5/9. *)
Lemma C8_MACD_cross_witness :
  let closes := map of_Z [4; 3; 2; 1; 5]%Z in
  let indicators :=
    mkIndicators [] (MACD closes 1 2 2) [] [] [] [] (mkBands [] [] []) []
                 None [] in
  ia_score (analyzeMACD (li_macd (getLatestIndicators indicators))) = 3%Z.
Proof.
  intros closes indicators.
  edestruct (C8_MACD_cross default_config indicators closes 1 2 2) as [Hup _].
  - reflexivity.
  - vm_compute. reflexivity.
  - vm_compute. reflexivity.
  - apply Hup; vm_compute; reflexivity.
Defined.


(** C1.  The levels computed by [generateSignal] are ordered around the
    entry and the stop-loss is at least 1.5% away ([decide_levels]), but the
    emitted fields are these levels rounded to two decimals.  At the price
    0.004 (low 0.0039, high 0.0041) the [LONG] signal carries the stop-loss
    [0.00] and the take-profit [0.00], which is not above the entry; at the
    price 100.7 (low 100) it carries the stop-loss [99.19], which is less
    than 1.5% of the entry away. *)
Theorem C1_emitted_levels_rounded :
  (let s := generateSignal default_config (long_analysis false) $0.004
              (level_candles 0.0041 0.0039 0.004 50) no_series in
   action s = LONG /\ entry s = $0.004 /\
   exists sl tp,
     stopLoss s = Some (Fin sl) /\ takeProfit s = Some (Fin tp) /\
     (sl == 0)%Q /\ (tp == 0)%Q /\ ~ (0.004 < tp)%Q) /\
  (let s := generateSignal default_config (long_analysis false) $100.7
              (level_candles 101 100 100.7 50) no_series in
   action s = LONG /\ entry s = $100.7 /\
   exists sl,
     stopLoss s = Some (Fin sl) /\ (sl == 99.19)%Q /\
     ~ (100.7 * 0.015 <= 100.7 - sl)%Q).
Proof.
  split.
  - vm_compute. split; [reflexivity|]. split; [reflexivity|].
    do 2 eexists. split; [reflexivity|]. split; [reflexivity|].
    repeat split; try reflexivity. intro H. discriminate H.
  - vm_compute. split; [reflexivity|]. split; [reflexivity|].
    eexists. split; [reflexivity|].
    split; [reflexivity|]. intro H. apply H. reflexivity.
Qed.

(** what holds of every emitted signal at a positive price: before the
    rounding, the levels are ordered and the stop is 1.5% away *)
Lemma generateSignal_levels_before_rounding
      (config : Config) (analysis : Analysis) (p : Q)
      (candles : list Candle) (indicators : Indicators) :
  (0 < p)%Q ->
  action (generateSignal config analysis (Fin p) candles indicators)
  = d_action (decide config analysis (Fin p) candles) /\
  entry (generateSignal config analysis (Fin p) candles indicators) = Fin p /\
  levels_ok p (decide config analysis (Fin p) candles).
Proof.
  intro Hp. unfold generateSignal.
  destruct (suggest_leverage _ _ _) as [[lev risk] pushed].
  cbn [action entry]. repeat split. now apply decide_levels.
Qed.

(** * Further properties *)

(** ** The gates of the composer *)

Lemma filters_nil_not_sideway (config : Config) (analysis : Analysis) :
  (length (filters config analysis) =? 0)%nat = true ->
  isSideway analysis = false.
Proof.
  unfold filters. destruct (isSideway analysis); [discriminate | reflexivity].
Qed.

Lemma decide_long_action (analysis : Analysis) (currentPrice : num)
      (sr : SRLevels) (rej : list Text) :
  d_action (decide_long analysis currentPrice sr rej) <> WAIT ->
  d_action (decide_long analysis currentPrice sr rej) = LONG /\
  (length rej =? 0)%nat = true /\ ctruthy (nearestSupport sr) = true.
Proof.
  unfold decide_long.
  destruct (ctruthy (nearestSupport sr)); cbn [negb].
  - destruct (length rej =? 0)%nat; cbn [d_action]; [auto | congruence].
  - rewrite length_snoc_nonzero. cbn [d_action]. congruence.
Qed.

Lemma decide_short_action (analysis : Analysis) (currentPrice : num)
      (sr : SRLevels) (rej : list Text) :
  d_action (decide_short analysis currentPrice sr rej) <> WAIT ->
  d_action (decide_short analysis currentPrice sr rej) = SHORT /\
  (length rej =? 0)%nat = true /\ ctruthy (nearestResistance sr) = true.
Proof.
  unfold decide_short.
  destruct (ctruthy (nearestResistance sr)); cbn [negb].
  - destruct (length rej =? 0)%nat; cbn [d_action]; [auto | congruence].
  - rewrite length_snoc_nonzero. cbn [d_action]. congruence.
Qed.

Lemma short_candles_no_levels (candles : list Candle) (currentPrice : num) :
  (length candles < 50)%nat ->
  findSupportResistance candles currentPrice
  = mkSRLevels [] [] None None None None.
Proof.
  intro H. unfold findSupportResistance. apply Nat.ltb_lt in H. now rewrite H.
Qed.

Lemma action_generateSignal (config : Config) (analysis : Analysis)
      (currentPrice : num) (candles : list Candle) (indicators : Indicators) :
  action (generateSignal config analysis currentPrice candles indicators)
  = d_action (decide config analysis currentPrice candles).
Proof.
  unfold generateSignal. destruct (suggest_leverage _ _ _) as [[lev risk] pushed].
  reflexivity.
Qed.

(** A [LONG] or [SHORT] signal is only given when no filter rejected: the
    market is not sideways, the score and the confluence of the signal's
    side reach their thresholds, and there are at least 50 candles. *)
Theorem signal_passed_the_gates
        (config : Config) (analysis : Analysis) (currentPrice : num)
        (candles : list Candle) (indicators : Indicators) :
  let s := generateSignal config analysis currentPrice candles indicators in
  action s <> WAIT ->
  filters config analysis = [] /\
  isSideway analysis = false /\
  (50 <= length candles)%nat /\
  (action s = LONG /\
   (of_Z (totalScore analysis) >=? minScoreForSignal config) = true /\
   (of_Z (bullishConfluence analysis) >=? minConfluence config) = true
   \/
   action s = SHORT /\
   (of_Z (totalScore analysis) <=? neg (minScoreForSignal config)) = true /\
   (of_Z (bearishConfluence analysis) >=? minConfluence config) = true).
Proof.
  intro s. unfold s. rewrite action_generateSignal. unfold decide.
  destruct (Nat.lt_ge_cases (length candles) 50) as [Hlen|Hlen].
  - rewrite (short_candles_no_levels candles currentPrice Hlen).
    destruct (_ && _ && _).
    + intro H. apply decide_long_action in H. cbn in H. destruct H as (_ & _ & H).
      discriminate.
    + destruct (_ && _ && _).
      * intro H. apply decide_short_action in H. cbn in H.
        destruct H as (_ & _ & H). discriminate.
      * cbn. congruence.
  - match goal with |- context [if ?c then _ else _] => destruct c eqn:EL end.
    + intro H. apply decide_long_action in H. destruct H as (Ha & Hr & _).
      apply andb_prop in EL. destruct EL as [EL Hc].
      apply andb_prop in EL. destruct EL as [Hsc _].
      split; [now destruct (filters config analysis)|].
      split; [now apply (filters_nil_not_sideway config)|].
      split; [exact Hlen|]. left. auto.
    + match goal with |- context [if ?c then _ else _] => destruct c eqn:ES end.
      * intro H. apply decide_short_action in H. destruct H as (Ha & Hr & _).
        apply andb_prop in ES. destruct ES as [ES Hc].
        apply andb_prop in ES. destruct ES as [Hsc _].
        split; [now destruct (filters config analysis)|].
        split; [now apply (filters_nil_not_sideway config)|].
        split; [exact Hlen|]. right. auto.
      * cbn. congruence.
Qed.

(** the gates on the sample analysis at the price 100.7 *)
Lemma signal_passed_the_gates_witness :
  filters default_config (long_analysis false) = [] /\
  (50 <= length (level_candles 101 100 100.7 50))%nat.
Proof.
  destruct (signal_passed_the_gates default_config (long_analysis false) $100.7
              (level_candles 101 100 100.7 50) no_series) as (Hf & _ & Hl & _).
  - vm_compute. discriminate.
  - split; assumption.
Defined.

Lemma decide_wait_bare (config : Config) (analysis : Analysis)
      (currentPrice : num) (candles : list Candle) :
  d_action (decide config analysis currentPrice candles) = WAIT ->
  d_stopLoss (decide config analysis currentPrice candles) = None /\
  d_takeProfit (decide config analysis currentPrice candles) = None /\
  d_confidence (decide config analysis currentPrice candles) = $0.
Proof.
  unfold decide.
  destruct (_ && _ && _).
  - unfold decide_long.
    destruct (length _ =? 0)%nat; cbn; [discriminate | auto].
  - destruct (_ && _ && _).
    + unfold decide_short.
      destruct (length _ =? 0)%nat; cbn; [discriminate | auto].
    + cbn. auto.
Qed.

(** A [WAIT] signal carries no levels: stop-loss, take-profit, risk, reward
    and risk/reward are all [null], the confidence is 0, the leverage stays
    1 and its risk [LOW]. *)
Theorem wait_signal_is_bare
        (config : Config) (analysis : Analysis) (currentPrice : num)
        (candles : list Candle) (indicators : Indicators) :
  let s := generateSignal config analysis currentPrice candles indicators in
  action s = WAIT ->
  stopLoss s = None /\ takeProfit s = None /\
  riskPercent s = None /\ rewardPercent s = None /\ riskReward s = None /\
  s_confidence s = toFixed 1 $0 /\
  leverage s = $1 /\ leverageRisk s = RISK_LOW.
Proof.
  intro s. unfold s. rewrite action_generateSignal. intro Ha.
  destruct (decide_wait_bare config analysis currentPrice candles Ha)
    as (Hsl & Htp & Hc).
  unfold generateSignal. rewrite Ha, Hsl, Htp, Hc.
  cbn. repeat split; reflexivity.
Qed.

(** the sideways sample: a [WAIT] without levels *)
Lemma wait_signal_is_bare_witness :
  let s := generateSignal default_config (long_analysis true) $100.7
             (level_candles 101 100 100.7 50) no_series in
  stopLoss s = None /\ leverage s = $1.
Proof.
  intro s.
  destruct (wait_signal_is_bare default_config (long_analysis true) $100.7
              (level_candles 101 100 100.7 50) no_series) as (H1 & _ & _ & _ & _ & _ & H2 & _).
  - vm_compute. reflexivity.
  - split; assumption.
Defined.

(** ** Scores and confluence *)

Lemma analyzeRSI_score (config : Config) (rsi : LatestRSI) :
  (-3 <= ia_score (analyzeRSI config rsi) <= 3)%Z.
Proof.
  unfold analyzeRSI. destruct (current rsi) as [cur|]; [|cbn; lia].
  repeat match goal with
         | |- context [if ?c then _ else _] => destruct c
         end; cbn; lia.
Qed.

Lemma analyzeMACD_score (m : LatestMACD) :
  (-3 <= ia_score (analyzeMACD m) <= 3)%Z.
Proof.
  unfold analyzeMACD.
  destruct (l_macd m); [|cbn; lia]. destruct (l_signal m); [|cbn; lia].
  repeat match goal with
         | |- context [if ?c then _ else _] => destruct c
         end; cbn; lia.
Qed.

Lemma analyzeEMA_score (e : LatestEMA) (currentPrice : num) :
  (-2 <= ia_score (analyzeEMA e currentPrice) <= 2)%Z.
Proof.
  unfold analyzeEMA.
  destruct (l_fast e); [|cbn; lia]. destruct (l_slow e); [|cbn; lia].
  repeat match goal with
         | |- context [if ?c then _ else _] => destruct c
         end; cbn; lia.
Qed.

Lemma analyzeBB_score (b : LatestBB) (currentPrice : num) :
  (-2 <= ia_score (analyzeBB b currentPrice) <= 2)%Z.
Proof.
  unfold analyzeBB.
  destruct (l_upper b); [|cbn; lia]. destruct (l_lower b); [|cbn; lia].
  repeat match goal with
         | |- context [if ?c then _ else _] => destruct c
         end; cbn; lia.
Qed.

Lemma analyzeTrend_score (e : LatestEMA) (currentPrice : num) :
  (-2 <= ia_score (analyzeTrend e currentPrice) <= 2)%Z.
Proof.
  unfold analyzeTrend.
  repeat match goal with
         | |- context [if ?c then _ else _] => destruct c
         end; cbn; lia.
Qed.

Lemma analyzeADX_score (adx : cell) : ia_score (analyzeADX adx) = 0%Z.
Proof.
  unfold analyzeADX. destruct adx as [a|]; [|reflexivity].
  repeat match goal with
         | |- context [if ?c then _ else _] => destruct c
         end; reflexivity.
Qed.

(** what the [forEach] loop adds to its counters *)
Lemma tally_fold (l : list IndicatorAnalysis) (t : Tally) :
  Forall (fun a => (-3 <= ia_score a <= 3)%Z) l ->
  let t' := fold_left tally_step l t in
  (t_signalCount t' = t_signalCount t + Z.of_nat (length l) /\
   t_bullishCount t <= t_bullishCount t' /\
   t_bearishCount t <= t_bearishCount t' /\
   (t_bullishCount t' - t_bullishCount t)
   + (t_bearishCount t' - t_bearishCount t) <= Z.of_nat (length l) /\
   t_totalScore t' - t_totalScore t
   <= 3 * (t_bullishCount t' - t_bullishCount t)
      - (t_bearishCount t' - t_bearishCount t) /\
   (t_bullishCount t' - t_bullishCount t)
   - 3 * (t_bearishCount t' - t_bearishCount t)
   <= t_totalScore t' - t_totalScore t)%Z.
Proof.
  revert t. induction l as [|a l IH]; intros t Hl; cbn [fold_left length].
  - cbv zeta. lia.
  - inversion Hl as [|? ? Ha Hl']; subst.
    specialize (IH (tally_step t a) Hl'). cbv zeta in IH |- *.
    destruct IH as (H1 & H2 & H3 & H4 & H5 & H6).
    assert (Hs :
      (t_signalCount (tally_step t a) = t_signalCount t + 1 /\
       t_totalScore (tally_step t a) = t_totalScore t + ia_score a /\
       ((0 < ia_score a /\ t_bullishCount (tally_step t a) = t_bullishCount t + 1
         /\ t_bearishCount (tally_step t a) = t_bearishCount t) \/
        (ia_score a < 0 /\ t_bullishCount (tally_step t a) = t_bullishCount t
         /\ t_bearishCount (tally_step t a) = t_bearishCount t + 1) \/
        (ia_score a = 0 /\ t_bullishCount (tally_step t a) = t_bullishCount t
         /\ t_bearishCount (tally_step t a) = t_bearishCount t)))%Z).
    { unfold tally_step.
      destruct (ia_score a >? 0)%Z eqn:E1; [cbn; lia|].
      destruct (ia_score a <? 0)%Z eqn:E2; cbn; lia. }
    lia.
Qed.

Lemma tally_total (l : list IndicatorAnalysis) (t : Tally) :
  t_totalScore (fold_left tally_step l t)
  = (t_totalScore t + fold_right (fun a s => ia_score a + s) 0 l)%Z.
Proof.
  revert t. induction l as [|a l IH]; intro t; cbn [fold_left fold_right].
  - lia.
  - rewrite IH. unfold tally_step.
    destruct (ia_score a >? 0)%Z; [cbn; lia|].
    destruct (ia_score a <? 0)%Z; cbn; lia.
Qed.

(** The aggregate of [analyzeIndicators]: the total is the sum of the five
    main scores and lies in [[-12, 12]]; the two confluence counts are not
    negative and add up to at most 5; the total is at most three times the
    bullish count and at least minus three times the bearish one; ADX adds
    no score, and the average is the total over 5. *)
Theorem analyzeIndicators_bounds
        (config : Config) (indicators : LatestIndicators) (currentPrice : num) :
  let a := analyzeIndicators config indicators currentPrice in
  (totalScore a
   = ia_score (a_rsi a) + ia_score (a_macd a) + ia_score (a_ema a)
     + ia_score (a_bb a) + ia_score (a_trend a) /\
   -12 <= totalScore a <= 12 /\
   0 <= bullishConfluence a /\ 0 <= bearishConfluence a /\
   bullishConfluence a + bearishConfluence a <= 5 /\
   confluence a = Z.max (bullishConfluence a) (bearishConfluence a) /\
   totalScore a <= 3 * bullishConfluence a - bearishConfluence a /\
   bullishConfluence a - 3 * bearishConfluence a <= totalScore a /\
   ia_score (a_adx a) = 0)%Z /\
  averageScore a = of_Z (totalScore a) / of_Z 5.
Proof.
  intro a. unfold a, analyzeIndicators.
  cbn [a_rsi a_macd a_ema a_bb a_trend a_adx totalScore bullishConfluence
       bearishConfluence confluence averageScore].
  set (l := [analyzeRSI config (li_rsi indicators);
             analyzeMACD (li_macd indicators);
             analyzeEMA (li_ema indicators) currentPrice;
             analyzeBB (li_bb indicators) currentPrice;
             analyzeTrend (li_ema indicators) currentPrice]).
  pose proof (analyzeRSI_score config (li_rsi indicators)) as H1.
  pose proof (analyzeMACD_score (li_macd indicators)) as H2.
  pose proof (analyzeEMA_score (li_ema indicators) currentPrice) as H3.
  pose proof (analyzeBB_score (li_bb indicators) currentPrice) as H4.
  pose proof (analyzeTrend_score (li_ema indicators) currentPrice) as H5.
  assert (Hl : Forall (fun a => (-3 <= ia_score a <= 3)%Z) l).
  { unfold l. repeat constructor; lia. }
  pose proof (tally_fold l (mkTally 0 0 0 0) Hl) as Ht. cbv zeta in Ht.
  change (length l) with 5%nat in Ht.
  cbn [t_signalCount t_bullishCount t_bearishCount t_totalScore] in Ht.
  destruct Ht as (Hc & Hb & Hr & Hsum & Hup & Hlo).
  pose proof (tally_total l (mkTally 0 0 0 0)) as Htot.
  unfold l in Htot at 2. cbn [fold_right t_totalScore] in Htot.
  split.
  - rewrite analyzeADX_score. repeat split; try lia.
  - rewrite Hc. reflexivity.
Qed.

(** ** The ADX gate *)

(** With the library that has no [ADX] function, the report of [analyze]
    has no ADX value, and the analysis is neither sideways nor trending: the
    sideways filter cannot reject. *)
Theorem analyze_without_ADX
        (config : Config) (sqrt : num -> num) (now : string)
        (candles : list Candle) :
  (50 <= length candles)%nat ->
  exists report,
    analyze config sqrt None now candles = Analyzed report /\
    li_adx (r_indicators report) = None /\
    isSideway (r_analysis report) = false /\
    hasTrend (r_analysis report) = false /\
    ia_signal (a_adx (r_analysis report)) = "N/A"%string.
Proof.
  intro H. unfold analyze. apply Nat.ltb_ge in H. rewrite H.
  eexists. split; [reflexivity|].
  cbn [r_indicators r_analysis]. unfold getLatestIndicators, calculateIndicators.
  cbn [i_adx li_adx]. unfold analyzeIndicators. cbn [li_adx isSideway hasTrend a_adx].
  repeat split; reflexivity.
Qed.

(** on 50 equal candles *)
Lemma analyze_without_ADX_witness :
  exists report,
    analyze default_config (fun x => x) None "2024-01-01T00:00:00.000Z"
            (level_candles 101 100 100.7 50) = Analyzed report /\
    isSideway (r_analysis report) = false.
Proof.
  destruct (analyze_without_ADX default_config (fun x => x)
              "2024-01-01T00:00:00.000Z" (level_candles 101 100 100.7 50))
    as (r & Hr & _ & Hs & _).
  - apply Nat.leb_le. vm_compute. reflexivity.
  - exists r. split; assumption.
Defined.

(** When the sideways threshold is not above the trend threshold, an
    analysis is never both sideways and trending. *)
Theorem sideways_excludes_trend
        (config : Config) (indicators : LatestIndicators) (currentPrice : num)
        (s t : Q) :
  sidewaysADXThreshold config = Fin s ->
  adxTrendThreshold config = Fin t ->
  (s <= t)%Q ->
  let a := analyzeIndicators config indicators currentPrice in
  isSideway a && hasTrend a = false.
Proof.
  intros Hs Ht Hst a. unfold a, analyzeIndicators. cbn [isSideway hasTrend].
  rewrite Hs, Ht.
  destruct (li_adx indicators) as [[q| | |]|]; try reflexivity.
  unfold ge. cbn [lt le].
  destruct (Qltb q s) eqn:E1; [|reflexivity].
  apply Qltb_lt in E1. cbn [andb].
  destruct (Qle_bool t q) eqn:E2; [|reflexivity].
  apply Qle_bool_iff in E2. lra.
Qed.

(** the default thresholds 20 and 25 at an ADX of 10 *)
Lemma sideways_excludes_trend_witness :
  let li :=
    mkLatestIndicators (mkLatestRSI None None) (mkLatestMACD None None None None)
                       (mkLatestEMA None None None None)
                       (mkLatestBB None None None) None (Some $10) None in
  let a := analyzeIndicators default_config li $100 in
  isSideway a && hasTrend a = false.
Proof.
  intros li.
  apply (sideways_excludes_trend default_config li $100 20 25);
    [reflexivity | reflexivity | discriminate].
Defined.

(** ** The latest and the previous value of a series *)

Lemma from_end_snoc (l : list cell) (c : cell) :
  from_end (l ++ [c])
  = match c with Some v => v :: from_end l | None => from_end l end.
Proof.
  unfold from_end. rewrite rev_app_distr. cbn [rev app valid].
  destruct c; reflexivity.
Qed.

(** [getLatest] and [getPrevious] skip the absent entries at the end: a
    trailing [null] changes neither; after a trailing value [v] the latest is
    [v] and the previous is what the latest was before; and the latest is
    [null] exactly when every entry is [null]. *)
Theorem latest_and_previous (l : list cell) (v : num) :
  getLatest (l ++ [None]) = getLatest l /\
  getPrevious (l ++ [None]) = getPrevious l /\
  getLatest (l ++ [Some v]) = Some v /\
  getPrevious (l ++ [Some v]) = getLatest l /\
  (getLatest l = None <-> Forall (fun c => c = None) l) /\
  (getPrevious l <> None -> getLatest l <> None).
Proof.
  unfold getLatest, getPrevious. rewrite !from_end_snoc.
  repeat split; try reflexivity.
  - intro H. apply Forall_forall. intros [w|] Hin; [|reflexivity].
    exfalso. destruct (In_getLatest l w Hin) as [u Hu].
    unfold getLatest in Hu. congruence.
  - intro H. destruct (nth_error (from_end l) 0) as [w|] eqn:E; [|reflexivity].
    exfalso. apply (getLatest_In l w) in E.
    rewrite Forall_forall in H. specialize (H _ E). discriminate.
  - destruct (from_end l) as [|x tl]; cbn; congruence.
Qed.

(** ** Position sizing *)

Import TradingService.

Section PositionSizing64.

Import Binary64.
Local Open Scope Q_scope.

(** A stop at the entry has no distance to divide by: in binary64, with a
    positive entry and leverage, whenever the risk amount comes out
    positive the position size, the quantity and the margin are
    [Infinity]. *)
Theorem position_at_entry_is_infinite (balance risk entryP lev : Q) :
  0 < entryP -> 0 < lev ->
  let r := Binary64.calculatePositionSize
             (Fin balance) (Fin risk) (Fin entryP) (Fin entryP)
             (Some (Fin lev)) in
  (riskAmount r >? $0)%js = true ->
  positionSize r = PInf /\ quantity r = PInf /\ marginRequired r = PInf.
Proof.
  intros He Hl r. unfold r, Binary64.calculatePositionSize.
  cbn [riskAmount positionSize quantity marginRequired].
  set (ra := Binary64.mul (Fin balance) (Binary64.div (Fin risk) (lit 100))).
  assert (He0 : ~ entryP == 0) by lra.
  assert (Hd : Binary64.sub (Fin entryP) (Fin entryP) = Fin 0).
  { unfold Binary64.sub, JS.sub. cbn [neg JS.add rounded].
    apply round64_zero. ring. }
  rewrite Hd.
  assert (Hq : Binary64.div (Fin 0) (Fin entryP) = Fin 0).
  { unfold Binary64.div. rewrite (div_Fin 0 entryP He0). cbn [rounded].
    apply round64_zero. field. exact He0. }
  rewrite Hq. cbn [abs]. intro Hra.
  assert (Hps : Binary64.div ra (Fin (Qabs 0)) = PInf).
  { unfold Binary64.div. destruct ra as [x| | |]; try discriminate Hra.
    - unfold gt in Hra. cbn [lt] in Hra. cbn [JS.div].
      change (Qzerob (Qabs 0)) with true. cbv iota.
      assert (Hx : 0 < x) by now apply Qltb_lt.
      assert (Hnz : ~ x == 0) by lra.
      rewrite (proj2 (Qzerob_false _) Hnz), Hra. reflexivity.
    - reflexivity. }
  rewrite Hps. unfold Binary64.div. cbn [JS.div].
  assert (E1 : Qltb entryP 0 = false) by (apply Qltb_ge; lra).
  assert (E2 : Qltb lev 0 = false) by (apply Qltb_ge; lra).
  rewrite E1, E2. auto.
Qed.

(** a stop at the entry 100 *)
Lemma position_at_entry_is_infinite_witness :
  positionSize (Binary64.calculatePositionSize $1000 $2 $100 $100 (Some $10))
  = PInf.
Proof.
  apply (position_at_entry_is_infinite 1000 2 100 10); reflexivity.
Defined.

(** when the risk amount underflows to 0 the sizes are [0 / 0] *)
Example position_at_entry_underflow :
  positionSize (Binary64.calculatePositionSize
                  (Fin (pow2 (-700))) (Fin (pow2 (-700))) $100 $100 (Some $10))
  = NaN.
Proof. vm_compute. reflexivity. Qed.

End PositionSizing64.

(** ** Order blocks *)

Lemma fold_left_invariant {A B : Type} (P : A -> Prop) (f : A -> B -> A)
      (l : list B) (a : A) :
  P a -> (forall a x, In x l -> P a -> P (f a x)) -> P (fold_left f l a).
Proof.
  revert a. induction l as [|x l IH]; intros a Ha Hstep; cbn [fold_left].
  - exact Ha.
  - apply IH.
    + apply Hstep; [now left | exact Ha].
    + intros a' y Hy. apply Hstep. now right.
Qed.

Lemma bullishOB_step_zone (recent : list Candle) (currentPrice : num)
      (o : option Zone) (i : nat) :
  (5 <= i < 27)%nat -> bullish_zone currentPrice o ->
  bullish_zone currentPrice (bullishOB_step recent currentPrice o i).
Proof.
  intros Hi Ho. unfold bullishOB_step.
  destruct (close _ <? open _); [|exact Ho].
  match goal with |- context [if ?c then _ else _] => destruct c eqn:E end;
    [|exact Ho].
  apply andb_prop in E. destruct E as [E E3].
  apply andb_prop in E. destruct E as [_ E2].
  cbn [bullish_zone z_low z_high z_index]. auto.
Qed.

Lemma bearishOB_step_zone (recent : list Candle) (currentPrice : num)
      (o : option Zone) (i : nat) :
  (5 <= i < 27)%nat -> bearish_zone currentPrice o ->
  bearish_zone currentPrice (bearishOB_step recent currentPrice o i).
Proof.
  intros Hi Ho. unfold bearishOB_step.
  destruct (close _ >? open _); [|exact Ho].
  match goal with |- context [if ?c then _ else _] => destruct c eqn:E end;
    [|exact Ho].
  apply andb_prop in E. destruct E as [E E3].
  apply andb_prop in E. destruct E as [_ E2].
  cbn [bearish_zone z_low z_high z_index]. auto.
Qed.

Lemma length_last_n {A : Type} (l : list A) (k : nat) :
  (1 <= k)%nat -> length (last_n l k) = Nat.min k (length l).
Proof.
  intro Hk. unfold last_n, slice_from, slice.
  rewrite length_firstn, length_skipn.
  destruct (- Z.of_nat k <? 0)%Z eqn:E1;
    destruct (Z.of_nat (length l) <? 0)%Z eqn:E2;
    try (apply Z.ltb_lt in E2; lia);
    try apply Z.ltb_lt in E1; try apply Z.ltb_ge in E1; lia.
Qed.

(** A reported order block holds the current price: a [BULLISH] block has
    the price above its low and below 105% of its high and scores 2, a
    [BEARISH] one has the price below its high and above 95% of its low and
    scores -2; the block's candle is one of the indices 5 to 26 of the last
    30 candles; without a block the score is 0. *)
Theorem order_block_holds_price (candles : list Candle) (currentPrice : num) :
  let ob := findOrderBlocks candles currentPrice in
  (ob_type ob = "BULLISH"%string /\ ob_score ob = 2%Z /\
   exists z, ob_zone ob = Some z /\ bullish_zone currentPrice (Some z)) \/
  (ob_type ob = "BEARISH"%string /\ ob_score ob = (-2)%Z /\
   exists z, ob_zone ob = Some z /\ bearish_zone currentPrice (Some z)) \/
  (ob_type ob = "NONE"%string /\ ob_score ob = 0%Z /\ ob_zone ob = None).
Proof.
  intro ob. unfold ob, findOrderBlocks.
  destruct (length candles <? 30)%nat eqn:Elen; [right; right; cbn; auto|].
  apply Nat.ltb_ge in Elen. cbv zeta.
  rewrite length_last_n by lia. rewrite Nat.min_l by exact Elen.
  set (recent := last_n candles 30).
  assert (Hb : bullish_zone currentPrice
                 (fold_left (bullishOB_step recent currentPrice)
                            (seq 5 (30 - 3 - 5)) None)).
  { apply fold_left_invariant; [exact I|].
    intros a i Hi Ha. apply in_seq in Hi.
    apply bullishOB_step_zone; [cbn in Hi; lia | exact Ha]. }
  assert (Hs : bearish_zone currentPrice
                 (fold_left (bearishOB_step recent currentPrice)
                            (seq 5 (30 - 3 - 5)) None)).
  { apply fold_left_invariant; [exact I|].
    intros a i Hi Ha. apply in_seq in Hi.
    apply bearishOB_step_zone; [cbn in Hi; lia | exact Ha]. }
  destruct (fold_left (bullishOB_step recent currentPrice) _ None) as [b|];
    destruct (fold_left (bearishOB_step recent currentPrice) _ None) as [s|].
  - destruct (z_index s <? z_index b)%nat.
    + left. cbn. eauto.
    + right; left. cbn. eauto.
  - left. cbn. eauto.
  - right; left. cbn. eauto.
  - right; right. cbn. auto.
Qed.

(** ** Market structure *)

Lemma swings_at_rising (recent : list Candle) (i : nat) :
  (1 <= i)%nat ->
  (high (candle_at recent i) <? high (candle_at recent (S i))) = true ->
  (low (candle_at recent (i - 1)) <? low (candle_at recent i)) = true ->
  swings_at recent i = [].
Proof.
  intros Hi Hh Hl. unfold swings_at, gt.
  rewrite Nat.add_1_r.
  rewrite (lt_gt_false _ _ Hh), (lt_gt_false _ _ Hl).
  rewrite !andb_false_r. reflexivity.
Qed.

Lemma swings_at_falling (recent : list Candle) (i : nat) :
  (1 <= i)%nat ->
  (high (candle_at recent i) <? high (candle_at recent (i - 1))) = true ->
  (low (candle_at recent (S i)) <? low (candle_at recent i)) = true ->
  swings_at recent i = [].
Proof.
  intros Hi Hh Hl. unfold swings_at, gt.
  rewrite Nat.add_1_r.
  rewrite (lt_gt_false _ _ Hh), (lt_gt_false _ _ Hl).
  rewrite !andb_false_r. reflexivity.
Qed.

Lemma flat_map_all_nil {A B : Type} (f : A -> list B) (l : list A) :
  (forall x, In x l -> f x = []) -> flat_map f l = [].
Proof.
  induction l as [|a l IH]; intro H; cbn [flat_map]; [reflexivity|].
  rewrite (H a (or_introl Logic.eq_refl)), IH; [reflexivity|].
  intros x Hx. apply H. now right.
Qed.

(** A steady run has no swing points: when the highs and the lows of the
    last 20 candles all rise, or all fall, from one candle to the next,
    [analyzeMarketStructure] reports [SIDEWAYS] with score 0, not a trend. *)
Theorem steady_run_is_sideways (candles : list Candle) :
  (20 <= length candles)%nat ->
  let recent := last_n candles 20 in
  (forall i, (i < 19)%nat ->
     (high (candle_at recent i) <? high (candle_at recent (S i))) = true /\
     (low (candle_at recent i) <? low (candle_at recent (S i))) = true)
  \/
  (forall i, (i < 19)%nat ->
     (high (candle_at recent (S i)) <? high (candle_at recent i)) = true /\
     (low (candle_at recent (S i)) <? low (candle_at recent i)) = true) ->
  analyzeMarketStructure candles
  = mkMarketStructure "SIDEWAYS" "Không đủ swing points" 0 None.
Proof.
  intros Hlen recent H. unfold analyzeMarketStructure.
  apply Nat.ltb_ge in Hlen. rewrite Hlen. apply Nat.ltb_ge in Hlen.
  cbv zeta. fold recent.
  assert (Hr : length recent = 20%nat).
  { unfold recent. rewrite length_last_n by lia. lia. }
  rewrite Hr.
  rewrite flat_map_all_nil; [reflexivity|].
  intros i Hi. apply in_seq in Hi. cbn in Hi.
  destruct H as [H|H].
  - apply swings_at_rising; [lia | apply (H i); lia |].
    destruct (H (i - 1)%nat) as [_ Hl]; [lia|].
    replace (S (i - 1)) with i in Hl by lia. exact Hl.
  - apply swings_at_falling; [lia | | apply (H i); lia].
    destruct (H (i - 1)%nat) as [Hh _]; [lia|].
    replace (S (i - 1)) with i in Hh by lia. exact Hh.
Qed.

(** twenty candles rising by 1 each *)
Lemma steady_run_is_sideways_witness :
  analyzeMarketStructure (rising_candles 20)
  = mkMarketStructure "SIDEWAYS" "Không đủ swing points" 0 None.
Proof.
  apply steady_run_is_sideways; [vm_compute; lia|].
  left. intros i Hi.
  do 19 (destruct i as [|i]; [vm_compute; auto|]). lia.
Defined.

(** ** Pullback depth *)




(** ** The nearest levels *)

Section NearestLevels64.

Import Binary64.
Local Open Scope Q_scope.

Lemma sub_Fin (a b : Q) : Binary64.sub (Fin a) (Fin b) = round64 (a + - b).
Proof. reflexivity. Qed.

(** the distance to a level on the right side is a number that is not
    negative, or [Infinity] *)
Lemma distance_shape (a b : Q) :
  b < a ->
  Binary64.sub (Fin a) (Fin b) = PInf \/
  exists d, Binary64.sub (Fin a) (Fin b) = Fin d /\ 0 <= d.
Proof.
  intro H. rewrite sub_Fin. apply round64_nonneg. lra.
Qed.

Lemma le_trans_Fin (d' d : Q) (x : num) :
  d' <= d -> (Fin d <=? x)%js = true -> (Fin d' <=? x)%js = true.
Proof.
  intros H Hx. destruct x as [v| | |]; try discriminate; [|reflexivity].
  apply le_Fin in Hx. apply le_Fin. lra.
Qed.

Lemma nearest_below_step64 (p : Q) (seen : list num) (st : num * cell) (x : num) :
  nearest_below_state64 p seen st ->
  nearest_below_state64 p (seen ++ [x]) (Binary64.nearest_below (Fin p) st x).
Proof.
  intro H. unfold Binary64.nearest_below.
  assert (Hin : forall q, In (Fin q) (seen ++ [x]) ->
                          In (Fin q) seen \/ x = Fin q).
  { intros q Hq. apply in_app_or in Hq. destruct Hq as [Hq|[Hq|[]]]; auto. }
  assert (Hkeep : (forall q, x = Fin q -> q < p ->
                     match st with
                     | (Fin d, _) => (Fin d <=? Binary64.sub (Fin p) (Fin q))%js = true
                     | _ => Binary64.sub (Fin p) (Fin q) = PInf
                     end) ->
                  nearest_below_state64 p (seen ++ [x]) st).
  { intro Hx.
    destruct H as [[-> Hnone] | (s & d & -> & Hd & Hs & Hins & Hmax)].
    - left. split; [reflexivity|]. intros q' Hq' Hlt.
      destruct (Hin q' Hq') as [Hold|Heq];
        [exact (Hnone q' Hold Hlt) | exact (Hx q' Heq Hlt)].
    - right. exists s, d. split; [reflexivity|]. split; [exact Hd|].
      split; [exact Hs|]. split; [apply in_or_app; now left|].
      intros q' Hq' Hlt. destruct (Hin q' Hq') as [Hold|Heq];
        [exact (Hmax q' Hold Hlt) | exact (Hx q' Heq Hlt)]. }
  destruct x as [q| | |]; cbn [lt].
  - destruct (Qltb q p) eqn:E.
    + apply Qltb_lt in E.
      destruct (distance_shape p q E) as [Hinf | (d' & Hd' & Hd0)].
      * rewrite Hinf.
        assert (Hf : (PInf <? fst st)%js = false) by (destruct (fst st); reflexivity).
        rewrite Hf. apply Hkeep. intros q' Heq _. injection Heq as <-.
        rewrite Hinf. destruct st as [[d| | |] c]; reflexivity.
      * rewrite Hd'.
        destruct H as [[-> Hnone] | (s & d & -> & Hd & Hs & Hins & Hmax)];
          cbn [fst lt].
        -- right. exists q, d'. split; [reflexivity|]. split; [exact Hd'|].
           split; [exact E|]. split; [apply in_or_app; right; now left|].
           intros q' Hq' Hlt. destruct (Hin q' Hq') as [Hold|Heq].
           ++ rewrite (Hnone q' Hold Hlt). reflexivity.
           ++ injection Heq as ->. rewrite Hd'. apply le_Fin. lra.
        -- destruct (Qltb d' d) eqn:D.
           ++ apply Qltb_lt in D. right. exists q, d'.
              split; [reflexivity|]. split; [exact Hd'|].
              split; [exact E|]. split; [apply in_or_app; right; now left|].
              intros q' Hq' Hlt. destruct (Hin q' Hq') as [Hold|Heq].
              ** apply (le_trans_Fin d' d); [lra | exact (Hmax q' Hold Hlt)].
              ** injection Heq as ->. rewrite Hd'. apply le_Fin. lra.
           ++ apply Qltb_ge in D. right. exists s, d.
              split; [reflexivity|]. split; [exact Hd|].
              split; [exact Hs|]. split; [apply in_or_app; now left|].
              intros q' Hq' Hlt. destruct (Hin q' Hq') as [Hold|Heq].
              ** exact (Hmax q' Hold Hlt).
              ** injection Heq as ->. rewrite Hd'. now apply le_Fin.
    + apply Qltb_ge in E. apply Hkeep. intros q' Heq Hlt.
      injection Heq as <-. lra.
  - apply Hkeep. discriminate.
  - assert (Hd : Binary64.sub (Fin p) NInf = PInf) by reflexivity.
    rewrite Hd.
    assert (Hf : (PInf <? fst st)%js = false) by (destruct (fst st); reflexivity).
    rewrite Hf. apply Hkeep. discriminate.
  - apply Hkeep. discriminate.
Qed.

Lemma nearest_below_fold64 (p : Q) (l seen : list num) (st : num * cell) :
  nearest_below_state64 p seen st ->
  nearest_below_state64 p (seen ++ l)
    (fold_left (Binary64.nearest_below (Fin p)) l st).
Proof.
  revert seen st. induction l as [|x l IH]; intros seen st H; cbn [fold_left].
  - now rewrite app_nil_r.
  - replace (seen ++ x :: l) with ((seen ++ [x]) ++ l)
      by (rewrite <- app_assoc; reflexivity).
    apply IH, nearest_below_step64, H.
Qed.

Lemma nearest_above_step64 (p : Q) (seen : list num) (st : num * cell) (x : num) :
  nearest_above_state64 p seen st ->
  nearest_above_state64 p (seen ++ [x]) (Binary64.nearest_above (Fin p) st x).
Proof.
  intro H. unfold Binary64.nearest_above, gt.
  assert (Hin : forall q, In (Fin q) (seen ++ [x]) ->
                          In (Fin q) seen \/ x = Fin q).
  { intros q Hq. apply in_app_or in Hq. destruct Hq as [Hq|[Hq|[]]]; auto. }
  assert (Hkeep : (forall q, x = Fin q -> p < q ->
                     match st with
                     | (Fin d, _) => (Fin d <=? Binary64.sub (Fin q) (Fin p))%js = true
                     | _ => Binary64.sub (Fin q) (Fin p) = PInf
                     end) ->
                  nearest_above_state64 p (seen ++ [x]) st).
  { intro Hx.
    destruct H as [[-> Hnone] | (r & d & -> & Hd & Hr & Hinr & Hmin)].
    - left. split; [reflexivity|]. intros q' Hq' Hlt.
      destruct (Hin q' Hq') as [Hold|Heq];
        [exact (Hnone q' Hold Hlt) | exact (Hx q' Heq Hlt)].
    - right. exists r, d. split; [reflexivity|]. split; [exact Hd|].
      split; [exact Hr|]. split; [apply in_or_app; now left|].
      intros q' Hq' Hlt. destruct (Hin q' Hq') as [Hold|Heq];
        [exact (Hmin q' Hold Hlt) | exact (Hx q' Heq Hlt)]. }
  destruct x as [q| | |]; cbn [lt].
  - destruct (Qltb p q) eqn:E.
    + apply Qltb_lt in E.
      destruct (distance_shape q p E) as [Hinf | (d' & Hd' & Hd0)].
      * rewrite Hinf.
        assert (Hf : (PInf <? fst st)%js = false) by (destruct (fst st); reflexivity).
        rewrite Hf. apply Hkeep. intros q' Heq _. injection Heq as <-.
        rewrite Hinf. destruct st as [[d| | |] c]; reflexivity.
      * rewrite Hd'.
        destruct H as [[-> Hnone] | (r & d & -> & Hd & Hr & Hinr & Hmin)];
          cbn [fst lt].
        -- right. exists q, d'. split; [reflexivity|]. split; [exact Hd'|].
           split; [exact E|]. split; [apply in_or_app; right; now left|].
           intros q' Hq' Hlt. destruct (Hin q' Hq') as [Hold|Heq].
           ++ rewrite (Hnone q' Hold Hlt). reflexivity.
           ++ injection Heq as ->. rewrite Hd'. apply le_Fin. lra.
        -- destruct (Qltb d' d) eqn:D.
           ++ apply Qltb_lt in D. right. exists q, d'.
              split; [reflexivity|]. split; [exact Hd'|].
              split; [exact E|]. split; [apply in_or_app; right; now left|].
              intros q' Hq' Hlt. destruct (Hin q' Hq') as [Hold|Heq].
              ** apply (le_trans_Fin d' d); [lra | exact (Hmin q' Hold Hlt)].
              ** injection Heq as ->. rewrite Hd'. apply le_Fin. lra.
           ++ apply Qltb_ge in D. right. exists r, d.
              split; [reflexivity|]. split; [exact Hd|].
              split; [exact Hr|]. split; [apply in_or_app; now left|].
              intros q' Hq' Hlt. destruct (Hin q' Hq') as [Hold|Heq].
              ** exact (Hmin q' Hold Hlt).
              ** injection Heq as ->. rewrite Hd'. now apply le_Fin.
    + apply Qltb_ge in E. apply Hkeep. intros q' Heq Hlt.
      injection Heq as <-. lra.
  - assert (Hd : Binary64.sub PInf (Fin p) = PInf) by reflexivity.
    rewrite Hd.
    assert (Hf : (PInf <? fst st)%js = false) by (destruct (fst st); reflexivity).
    rewrite Hf. apply Hkeep. discriminate.
  - apply Hkeep. discriminate.
  - apply Hkeep. discriminate.
Qed.

Lemma nearest_above_fold64 (p : Q) (l seen : list num) (st : num * cell) :
  nearest_above_state64 p seen st ->
  nearest_above_state64 p (seen ++ l)
    (fold_left (Binary64.nearest_above (Fin p)) l st).
Proof.
  revert seen st. induction l as [|x l IH]; intros seen st H; cbn [fold_left].
  - now rewrite app_nil_r.
  - replace (seen ++ x :: l) with ((seen ++ [x]) ++ l)
      by (rewrite <- app_assoc; reflexivity).
    apply IH, nearest_above_step64, H.
Qed.

Lemma le_PInf_round64 (x : Q) : (round64 x <=? PInf)%js = true.
Proof.
  pose proof (round64_not_NaN x) as H.
  destruct (round64 x); try reflexivity. contradiction.
Qed.

Lemma support_choice64 (p : Q) (sup : list num) (st : num * cell) :
  0 < p -> representable p -> nearest_below_state64 p sup st ->
  exists s,
    (if ctruthy (snd st) then snd st
     else Some (Binary64.mul (Fin p) (lit 0.97))) = Some (Fin s) /\
    (forall q, In (Fin q) sup -> q < p ->
               (Binary64.sub (Fin p) (Fin s) <=? Binary64.sub (Fin p) (Fin q))%js
               = true) /\
    (In (Fin s) sup \/ Fin s = Binary64.mul (Fin p) (lit 0.97)).
Proof.
  intros Hp Hrep H.
  destruct (support_fallback64 p Hp Hrep) as (s0 & Hs0 & Hs0pos & Hs0le & _).
  destruct H as [[-> Hnone] | (s & d & -> & Hd & Hs & Hins & Hmax)];
    cbn [snd ctruthy truthy].
  - exists s0. rewrite Hs0. split; [reflexivity|]. split; [|now right].
    intros q Hq Hlt. rewrite (Hnone q Hq Hlt). rewrite sub_Fin.
    apply le_PInf_round64.
  - destruct (Qzerob s) eqn:Es; cbn [negb].
    + apply Qzerob_true in Es.
      exists s0. rewrite Hs0. split; [reflexivity|]. split; [|now right].
      intros q Hq Hlt.
      assert (H0 : representable 0)
        by (apply (representable_Z 0); unfold prec; cbn; lia).
      destruct (round64_between (p + - s0) 0 p H0 Hrep) as (d0 & Hd0 & Hd0b);
        [lra|].
      rewrite sub_Fin, Hd0.
      destruct (round64_same (p + - s) p) as (v & Hv & Ev);
        [rewrite Es; ring | exact Hrep |].
      rewrite sub_Fin, Hv in Hd. injection Hd as <-.
      apply (le_trans_Fin d0 v); [lra | exact (Hmax q Hq Hlt)].
    + exists s. split; [reflexivity|]. split; [|now left].
      intros q Hq Hlt. rewrite Hd. exact (Hmax q Hq Hlt).
Qed.

Lemma resistance_fallback_finite (p : Q) :
  0 < p -> bounded p ->
  exists r, Binary64.mul (Fin p) (lit 1.03) = Fin r.
Proof.
  intros Hp [_ Hb].
  assert (H0 : representable 0)
    by (apply (representable_Z 0); unfold prec; cbn; lia).
  assert (H1 : representable 1)
    by (apply (representable_Z 1); unfold prec; cbn; lia).
  assert (H2 : representable 2)
    by (apply (representable_Z 2); unfold prec; cbn; lia).
  destruct (round64_between 1.03 1 2 H1 H2) as (c & Hc & Hc1 & Hc2); [lra|].
  unfold lit. rewrite Hc. unfold Binary64.mul. cbn [JS.mul rounded].
  pose proof huge_le as Hh.
  assert (E : pow2 998 == 2 * pow2 997).
  { replace 998%Z with (1 + 997)%Z by lia. rewrite pow2_plus. reflexivity. }
  destruct (round64_between (p * c) 0 (pow2 998) H0) as (r & Hr & _).
  - apply representable_pow2. unfold emax. lia.
  - split.
    + apply Qmult_le_0_compat; lra.
    + apply Qle_trans with (p * 2).
      * apply Qmult_le_l; [exact Hp | exact Hc2].
      * rewrite E. lra.
  - exists r. exact Hr.
Qed.

Lemma resistance_choice64 (p : Q) (res : list num) (st : num * cell) :
  0 < p -> bounded p -> nearest_above_state64 p res st ->
  exists r,
    (if ctruthy (snd st) then snd st
     else Some (Binary64.mul (Fin p) (lit 1.03))) = Some (Fin r) /\
    (forall q, In (Fin q) res -> p < q ->
               (Binary64.sub (Fin r) (Fin p) <=? Binary64.sub (Fin q) (Fin p))%js
               = true) /\
    (In (Fin r) res \/ Fin r = Binary64.mul (Fin p) (lit 1.03)).
Proof.
  intros Hp Hb H.
  destruct (resistance_fallback_finite p Hp Hb) as (r0 & Hr0).
  destruct H as [[-> Hnone] | (r & d & -> & Hd & Hr & Hinr & Hmin)];
    cbn [snd ctruthy truthy].
  - exists r0. rewrite Hr0. split; [reflexivity|]. split; [|now right].
    intros q Hq Hlt. rewrite (Hnone q Hq Hlt). rewrite sub_Fin.
    apply le_PInf_round64.
  - assert (Hrz : ~ r == 0) by lra.
    rewrite (proj2 (Qzerob_false r) Hrz). cbn [negb].
    exists r. split; [reflexivity|]. split; [|now left].
    intros q Hq Hlt. rewrite Hd. exact (Hmin q Hq Hlt).
Qed.

(** The nearest levels are the nearest: in binary64, at a positive price
    (a double of at most [10^300]) on at least 50 candles, both levels are
    finite numbers; no listed support below the price is at a smaller
    computed distance [currentPrice - s] than [nearestSupport], and no
    listed resistance above the price is at a smaller computed distance
    than [nearestResistance]; each is one of the listed levels or the 3%
    fallback. *)
Theorem nearest_levels_are_nearest (candles : list Candle) (p : Q) :
  (50 <= length candles)%nat -> 0 < p -> representable p -> bounded p ->
  let sr := Binary64.findSupportResistance candles (Fin p) in
  exists s r,
    nearestSupport sr = Some (Fin s) /\
    nearestResistance sr = Some (Fin r) /\
    (forall q, In (Fin q) (supports sr) -> (Fin q <? Fin p)%js = true ->
               (Binary64.sub (Fin p) (Fin s) <=? Binary64.sub (Fin p) (Fin q))%js
               = true) /\
    (forall q, In (Fin q) (resistances sr) -> (Fin q >? Fin p)%js = true ->
               (Binary64.sub (Fin r) (Fin p) <=? Binary64.sub (Fin q) (Fin p))%js
               = true) /\
    (In (Fin s) (supports sr) \/ Fin s = Binary64.mul (Fin p) (lit 0.97)) /\
    (In (Fin r) (resistances sr) \/ Fin r = Binary64.mul (Fin p) (lit 1.03)).
Proof.
  intros Hlen Hp Hrep Hb. unfold Binary64.findSupportResistance.
  apply Nat.ltb_ge in Hlen. rewrite Hlen. cbv zeta.
  cbn [nearestSupport nearestResistance supports resistances].
  match goal with
  | |- context [fold_left (Binary64.nearest_below (Fin p)) ?l _] => set (sup := l)
  end.
  match goal with
  | |- context [fold_left (Binary64.nearest_above (Fin p)) ?l _] => set (res := l)
  end.
  assert (Hs : nearest_below_state64 p sup
                 (fold_left (Binary64.nearest_below (Fin p)) sup (PInf, None))).
  { apply (nearest_below_fold64 p sup [] (PInf, None)).
    left. split; [reflexivity|]. intros q []. }
  assert (Hr : nearest_above_state64 p res
                 (fold_left (Binary64.nearest_above (Fin p)) res (PInf, None))).
  { apply (nearest_above_fold64 p res [] (PInf, None)).
    left. split; [reflexivity|]. intros q []. }
  destruct (support_choice64 p sup _ Hp Hrep Hs) as (s & Es & Hmax & Hins).
  destruct (resistance_choice64 p res _ Hp Hb Hr) as (r & Er & Hmin & Hinr).
  exists s, r. split; [exact Es|]. split; [exact Er|].
  split; [|split; [|split]].
  - intros q Hq Hlt. apply In_sort_by in Hq. apply lt_Fin in Hlt.
    exact (Hmax q Hq Hlt).
  - intros q Hq Hlt. apply In_sort_by in Hq. unfold gt in Hlt.
    apply lt_Fin in Hlt. exact (Hmin q Hq Hlt).
  - destruct Hins as [H|H]; [left; now apply In_sort_by | now right].
  - destruct Hinr as [H|H]; [left; now apply In_sort_by | now right].
Qed.

(** fifty candles between 100 and 101 with the price at 100.5 *)
Lemma nearest_levels_are_nearest_witness :
  exists s r,
    nearestSupport (Binary64.findSupportResistance
                      (level_candles 101 100 100.5 50) (Fin 100.5))
    = Some (Fin s) /\
    nearestResistance (Binary64.findSupportResistance
                         (level_candles 101 100 100.5 50) (Fin 100.5))
    = Some (Fin r).
Proof.
  destruct (nearest_levels_are_nearest (level_candles 101 100 100.5 50) 100.5)
    as (s & r & Hs & Hr & _).
  - vm_compute. lia.
  - reflexivity.
  - eexists. split; [vm_compute; reflexivity | reflexivity].
  - split; apply Qle_bool_iff; vm_compute; reflexivity.
  - exists s, r. split; assumption.
Defined.

(** at the price [10^17] the lows 1 and 2 are at the same computed
    distance, so the loop keeps whichever comes first *)
Example equal_distances :
  Binary64.sub (Fin (inject_Z (10 ^ 17))) (Fin 1)
  = Binary64.sub (Fin (inject_Z (10 ^ 17))) (Fin 2).
Proof. vm_compute. reflexivity. Qed.

End NearestLevels64.

(** ** Moving averages stay in the range of their data *)











(** ** ATR *)



Lemma pairs_map_Forall {A B : Type} (P : A -> Prop) (R : B -> Prop)
      (f : A -> A -> B) (l : list A) :
  (forall a b, P a -> P b -> R (f a b)) ->
  Forall P l -> Forall R (pairs_map f l).
Proof.
  intros Hf Hl. induction l as [|a [|b tl] IH]; cbn [pairs_map]; try constructor.
  - inversion Hl as [|? ? Ha Hl']; subst. inversion Hl'; subst. now apply Hf.
  - apply IH. now inversion Hl.
Qed.





(** ** MACD of a flat series *)








(** ** ADX of a flat market *)

Lemma or_zero_null_or_zero (d : cell) : null_or_zero d -> or_zero d = $0.
Proof.
  intros [-> | (q & -> & Hq)]; [reflexivity|].
  cbn [or_zero truthy]. now rewrite (proj2 (Qzerob_true q) Hq).
Qed.

Lemma or_zero_acc (a : Q) :
  (a == 0)%Q -> exists b, or_zero (Some (Fin a)) = Fin b /\ (b == 0)%Q.
Proof.
  intro Ha. cbn [or_zero truthy]. rewrite (proj2 (Qzerob_true a) Ha).
  exists 0%Q. split; reflexivity.
Qed.

Lemma wilder_sum_zero (l : list cell) (a : Q) :
  (a == 0)%Q -> Forall null_or_zero l ->
  exists s, fold_left (fun a b => or_zero (Some a) + or_zero b) l (Fin a) = Fin s
            /\ (s == 0)%Q.
Proof.
  revert a. induction l as [|d l IH]; intros a Ha Hl; cbn [fold_left].
  - exists a. split; [reflexivity | exact Ha].
  - inversion Hl as [|? ? Hd Hl']; subst.
    destruct (or_zero_acc a Ha) as (b & -> & Hb).
    rewrite (or_zero_null_or_zero d Hd). cbn [add].
    apply IH; [lra | exact Hl'].
Qed.

Lemma wilder_loop_zero (period : nat) (f0 : Q) (rest : list cell) :
  (1 <= period)%nat -> (f0 == 0)%Q -> Forall null_or_zero rest ->
  forall (i : nat) (prior : option cell) (t : nat) (c : cell),
    ((period - 1 < i)%nat ->
     exists q, prior = Some (Some (Fin q)) /\ (q == 0)%Q) ->
    nth_error (wilder_loop period (Fin f0) i prior rest) t = Some c ->
    ((i + t < period - 1)%nat -> c = None) /\
    ((period - 1 <= i + t)%nat -> exists q, c = Some (Fin q) /\ (q == 0)%Q).
Proof.
  intros Hp Hf Hrest. induction Hrest as [|d tl Hd Htl IH];
    intros i prior t c Hprior; cbn [wilder_loop].
  - destruct t; discriminate.
  - cbv zeta.
    assert (Hout :
      exists out,
        (if before_warmup i period then None
         else if at_warmup i period then Some (Fin f0)
              else match prior with
                   | Some None => None
                   | Some (Some p) => Some (p - p / of_nat period + or_zero d)
                   | None => Some NaN
                   end) = out /\
        ((i < period - 1)%nat -> out = None) /\
        ((period - 1 <= i)%nat -> exists q, out = Some (Fin q) /\ (q == 0)%Q)).
    { eexists. split; [reflexivity|].
      destruct (before_warmup i period) eqn:Eb.
      - apply before_warmup_true in Eb. split; [reflexivity | lia].
      - apply before_warmup_false in Eb. split; [lia|]. intros _.
        destruct (at_warmup i period) eqn:Ea.
        + exists f0. split; [reflexivity | exact Hf].
        + assert (Hne : ~ (1 <= period /\ i = period - 1)%nat).
          { intro H. apply at_warmup_true in H. congruence. }
          destruct Hprior as (q & -> & Hq); [lia|].
          rewrite (or_zero_null_or_zero d Hd).
          unfold of_nat, of_Z.
          rewrite (div_Fin q _ (of_nat_nonzero period Hp)).
          unfold sub. cbn [neg add].
          eexists. split; [reflexivity|].
          rewrite Hq. field. exact (of_nat_nonzero period Hp). }
    destruct Hout as (out & -> & Hlo & Hhi).
    destruct t as [|t]; cbn [nth_error].
    + intro H. injection H as <-. rewrite Nat.add_0_r. split; assumption.
    + intro H. replace (i + S t)%nat with (S i + t)%nat by lia.
      apply (IH (S i) (Some out) t c); [|exact H].
      intro Hi. destruct Hhi as (q & -> & Hq); [lia|].
      exists q. split; [reflexivity | exact Hq].
Qed.

Lemma wilderSmooth_zero (data : list cell) (period t : nat) (c : cell) :
  (1 <= period)%nat -> Forall null_or_zero data ->
  nth_error (wilderSmooth data period) t = Some c ->
  ((t < period - 1)%nat -> c = None) /\
  ((period - 1 <= t)%nat -> exists q, c = Some (Fin q) /\ (q == 0)%Q).
Proof.
  intros Hp Hd H. unfold wilderSmooth in H.
  destruct (wilder_sum_zero (prefix data period) 0 (Qeq_refl 0)
              (Forall_slice _ _ _ _ Hd)) as (s & Hs & Hs0).
  change (Fin 0) with $0 in Hs. rewrite Hs in H.
  unfold of_nat, of_Z in H.
  rewrite (div_Fin s _ (of_nat_nonzero period Hp)) in H.
  assert (Hf : (s / inject_Z (Z.of_nat period) == 0)%Q).
  { rewrite Hs0. field. exact (of_nat_nonzero period Hp). }
  apply (wilder_loop_zero period _ data Hp Hf Hd 0 None t c); [lia | exact H].
Qed.

Lemma max2_zero (a b : Q) :
  (a == 0)%Q -> (b == 0)%Q ->
  exists c, max2 (Fin a) (Fin b) = Fin c /\ (c == 0)%Q.
Proof.
  intros Ha Hb. cbn [max2 lt].
  destruct (Qltb a b); [exists b | exists a]; split; auto.
Qed.

Lemma trueRange_flat (P : Q) (prev c : Candle) :
  flat_candle P prev -> flat_candle P c ->
  null_or_zero (Some (trueRange prev c)).
Proof.
  intros (_ & _ & Hpc) (Hh & Hl & _).
  unfold trueRange, Math_max. rewrite Hh, Hl, Hpc.
  unfold sub. cbn [neg add abs fold_left].
  change (max2 NInf (Fin (P + - P))) with (Fin (P + - P)).
  assert (H0 : (P + - P == 0)%Q) by ring.
  assert (H1 : (Qabs (P + - P) == 0)%Q) by (rewrite H0; reflexivity).
  destruct (max2_zero _ _ H0 H1) as (c1 & -> & Hc1).
  destruct (max2_zero _ _ Hc1 H1) as (c2 & -> & Hc2).
  right. exists c2. split; [reflexivity | exact Hc2].
Qed.

Lemma ADX_dx_flat (sTR sPlus sMinus : list cell) (i : nat) :
  Forall null_or_zero sTR -> ADX_dx sTR sPlus sMinus i = None.
Proof.
  intro H. unfold ADX_dx.
  destruct (nth_error sTR i) as [[tr|]|] eqn:E; try reflexivity.
  apply nth_error_In in E. rewrite Forall_forall in H.
  destruct (H _ E) as [Hn | (q & Hq & Hz)]; [discriminate|].
  injection Hq as ->. cbn [eq]. now rewrite (proj2 (Qeq_bool_iff q 0) Hz).
Qed.

Lemma getLatest_last (l : list cell) (v : num) :
  nth_error l (length l - 1) = Some (Some v) -> getLatest l = Some v.
Proof.
  destruct l as [|c l] using rev_ind; [discriminate|].
  rewrite length_app. cbn [length].
  replace (length l + 1 - 1)%nat with (length l) by lia.
  rewrite nth_error_app2 by lia. rewrite Nat.sub_diag. cbn [nth_error].
  intro H. injection H as ->.
  unfold getLatest. rewrite from_end_snoc. reflexivity.
Qed.

(** the smoothed series of [ADX] on flat candles: the directional indexes
    are all skipped *)
Lemma ADX_flat_dx (P : Q) (candles : list Candle) (period : nat) :
  (1 <= period)%nat -> (period + 1 <= length candles)%nat ->
  Forall (flat_candle P) candles ->
  exists dx,
    ADX candles period = None :: wilderSmooth dx period /\
    Forall null_or_zero dx /\ length dx = (length candles - 1)%nat.
Proof.
  intros Hp Hlen Hflat. unfold ADX.
  assert (E : (length candles <? period + 1)%nat = false)
    by (apply Nat.ltb_ge; exact Hlen).
  rewrite E. cbv zeta.
  set (trs := map Some (pairs_map trueRange candles)).
  assert (Htrs : Forall null_or_zero trs).
  { unfold trs. apply Forall_map.
    apply (pairs_map_Forall (flat_candle P)
             (fun x => null_or_zero (Some x))); [|exact Hflat].
    intros a b. apply trueRange_flat. }
  assert (HsTR : Forall null_or_zero (wilderSmooth trs period)).
  { apply Forall_forall. intros c Hc. apply In_nth_error in Hc.
    destruct Hc as [t Ht].
    destruct (wilderSmooth_zero trs period t c Hp Htrs Ht) as [Hlo Hhi].
    destruct (Nat.lt_ge_cases t (period - 1)) as [Hc|Hc].
    - left. now apply Hlo.
    - right. destruct (Hhi Hc) as (q & -> & Hq). eauto. }
  eexists. split; [reflexivity|]. split.
  - apply Forall_map. apply Forall_forall. intros i _.
    left. now apply ADX_dx_flat.
  - unfold trs.
    now rewrite length_map, length_seq, length_wilderSmooth, length_map,
      length_pairs_map.
Qed.

Lemma ADX_flat_latest (P : Q) (candles : list Candle) (period : nat) :
  (1 <= period)%nat -> (period + 1 <= length candles)%nat ->
  Forall (flat_candle P) candles ->
  exists q, getLatest (ADX candles period) = Some (Fin q) /\ (q == 0)%Q.
Proof.
  intros Hp Hlen Hflat.
  destruct (ADX_flat_dx P candles period Hp Hlen Hflat)
    as (dx & -> & Hdx & Hdxlen).
  assert (Hlast : exists c,
            nth_error (wilderSmooth dx period) (length candles - 2) = Some c).
  { destruct (nth_error (wilderSmooth dx period) (length candles - 2)) eqn:En;
      [eauto|].
    apply nth_error_None in En. rewrite length_wilderSmooth, Hdxlen in En. lia. }
  destruct Hlast as [c Hc].
  destruct (wilderSmooth_zero dx period _ c Hp Hdx Hc) as [_ Hhi].
  destruct Hhi as (q & -> & Hq); [lia|].
  exists q. split; [|exact Hq].
  apply getLatest_last. cbn [length].
  rewrite length_wilderSmooth, Hdxlen.
  replace (S (length candles - 1) - 1)%nat with (S (length candles - 2)) by lia.
  cbn [nth_error]. exact Hc.
Qed.

(** On a flat market ADX is 0: when every candle has the same high, low and
    close, the true ranges are 0 and every directional index is skipped, so
    (for a period of at least 1, on more candles than the period) [ADX] has
    an entry for every candle, each of them absent or 0, and its latest
    value is the number 0. *)
Theorem ADX_of_flat_market (P : Q) (candles : list Candle) (period : nat) :
  (1 <= period)%nat -> (period + 1 <= length candles)%nat ->
  Forall (flat_candle P) candles ->
  length (ADX candles period) = length candles /\
  Forall null_or_zero (ADX candles period) /\
  exists q, getLatest (ADX candles period) = Some (Fin q) /\ (q == 0)%Q.
Proof.
  intros Hp Hlen Hflat.
  split; [|split; [|exact (ADX_flat_latest P candles period Hp Hlen Hflat)]].
  - destruct (ADX_flat_dx P candles period Hp Hlen Hflat)
      as (dx & -> & _ & Hdxlen).
    cbn [length]. rewrite length_wilderSmooth, Hdxlen. lia.
  - destruct (ADX_flat_dx P candles period Hp Hlen Hflat)
      as (dx & -> & Hdx & _).
    constructor; [now left|].
    apply Forall_forall. intros c Hc. apply In_nth_error in Hc.
    destruct Hc as [t Ht].
    destruct (wilderSmooth_zero dx period t c Hp Hdx Ht) as [Hlo Hhi].
    destruct (Nat.lt_ge_cases t (period - 1)) as [Hc|Hc].
    + left. now apply Hlo.
    + right. destruct (Hhi Hc) as (q & -> & Hq). eauto.
Qed.

(** twenty candles at 100 with period 14 *)
Lemma ADX_of_flat_market_witness :
  exists q,
    getLatest (ADX (level_candles 100 100 100 20) 14) = Some (Fin q) /\
    (q == 0)%Q.
Proof.
  refine (proj2 (proj2 (ADX_of_flat_market 100 (level_candles 100 100 100 20) 14
                          _ _ _))).
  - lia.
  - vm_compute. lia.
  - apply Forall_forall. intros c Hc. apply repeat_spec in Hc. subst c.
    repeat split; reflexivity.
Defined.

(** A flat market is rejected as sideways: with the library's [ADX], a
    positive sideways threshold and at least 50 candles (more than the ADX
    period) that all have the same high, low and close, [analyze] finds
    [isSideway] and answers [WAIT] with the sideways rejection among the
    reasons, whatever the other indicators say. *)
Theorem flat_market_waits
        (config : Config) (sqrt : num -> num) (now : string)
        (P t : Q) (candles : list Candle) :
  (50 <= length candles)%nat ->
  (1 <= adxPeriod config)%nat ->
  (adxPeriod config + 1 <= length candles)%nat ->
  sidewaysADXThreshold config = Fin t -> (0 < t)%Q ->
  Forall (flat_candle P) candles ->
  exists report,
    analyze config sqrt (Some ADX) now candles = Analyzed report /\
    isSideway (r_analysis report) = true /\
    action (r_signal report) = WAIT /\
    stopLoss (r_signal report) = None /\
    takeProfit (r_signal report) = None /\
    In (reason_sideway config) (reasons (r_signal report)).
Proof.
  intros Hlen Hp Hplen Ht Htpos Hflat. unfold analyze.
  assert (E : (length candles <? 50)%nat = false) by (apply Nat.ltb_ge; exact Hlen).
  rewrite E. eexists. split; [reflexivity|].
  cbn [r_analysis r_signal].
  match goal with
  | |- context [analyzeIndicators config ?li ?cp] =>
      set (analysis := analyzeIndicators config li cp)
  end.
  assert (Hside : isSideway analysis = true).
  { unfold analysis, analyzeIndicators. cbn [isSideway].
    unfold getLatestIndicators, calculateIndicators. cbn [i_adx li_adx].
    destruct (ADX_flat_latest P candles (adxPeriod config) Hp Hplen Hflat)
      as (q & -> & Hq).
    rewrite Ht. cbn [lt]. apply Qltb_lt. lra. }
  split; [exact Hside|].
  match goal with
  | |- context [generateSignal config analysis ?cp ?cs ?ind] =>
      set (price := cp); set (inds := ind)
  end.
  unfold generateSignal.
  rewrite (decide_sideway config analysis price candles Hside).
  destruct (filters_sideway config analysis Hside) as [rest Hrest].
  unfold decide_wait. cbn [d_action d_stopLoss d_takeProfit d_reason ctruthy].
  unfold suggest_leverage. cbn [action stopLoss takeProfit reasons].
  repeat split; try reflexivity.
  rewrite Hrest. cbn [length Nat.ltb Nat.leb]. rewrite app_nil_r.
  apply in_or_app. right. apply in_or_app. left. left. reflexivity.
Qed.

(** fifty candles at 100 under the default configuration *)
Lemma flat_market_waits_witness :
  exists report,
    analyze default_config (fun x => x) (Some ADX) "2024-01-01T00:00:00.000Z"
            (level_candles 100 100 100 50) = Analyzed report /\
    action (r_signal report) = WAIT.
Proof.
  destruct (flat_market_waits default_config (fun x => x)
              "2024-01-01T00:00:00.000Z" 100 20 (level_candles 100 100 100 50))
    as (r & Hr & _ & Ha & _).
  - vm_compute. lia.
  - vm_compute. lia.
  - vm_compute. lia.
  - reflexivity.
  - reflexivity.
  - apply Forall_forall. intros c Hc. apply repeat_spec in Hc. subst c.
    repeat split; reflexivity.
  - exists r. split; assumption.
Defined.

(** ** Leverage and the loss at the stop *)




(** ** Stochastic RSI *)












(** ** Confidence of an emitted signal *)

(** [Math.min((score / 10) * 100 + 30 + confluence * 5, 95)] *)
Lemma confidence_base (x y : Q) :
  exists q,
    min2 (Fin x / $10 * $100 + $30 + Fin y * $5) $95 = Fin q /\
    (q <= 95)%Q /\
    forall lo, (lo <= 95)%Q -> (lo <= 10 * x + 30 + 5 * y)%Q -> (lo <= q)%Q.
Proof.
  assert (H10 : ~ (10 == 0)%Q) by (intro H; discriminate H).
  rewrite (div_Fin x 10 H10). cbn [mul add min2 lt].
  destruct (Qltb 95 _) eqn:E.
  - exists 95%Q. split; [reflexivity|]. split; [lra|]. intros lo Hlo _. exact Hlo.
  - apply Qltb_ge in E. eexists. split; [reflexivity|]. split; [exact E|].
    intros lo _ Hlo.
    assert (Hx : (x / 10 * 100 == 10 * x)%Q) by field. lra.
Qed.

(** [Math.min(confidence + 10, 95)] *)
Lemma confidence_bonus (q : Q) :
  (q <= 95)%Q ->
  exists q',
    min2 (Fin q + $10) $95 = Fin q' /\ (q' <= 95)%Q /\
    forall lo, (lo <= 95)%Q -> (lo <= q)%Q -> (lo <= q')%Q.
Proof.
  intro Hq. cbn [add min2 lt].
  destruct (Qltb 95 (q + 10)) eqn:E.
  - exists 95%Q. split; [reflexivity|]. split; [lra|]. intros lo Hlo _. exact Hlo.
  - apply Qltb_ge in E. eexists. split; [reflexivity|]. split; [exact E|].
    intros lo _ Hlo. lra.
Qed.

Lemma s_confidence_generateSignal (config : Config) (analysis : Analysis)
      (currentPrice : num) (candles : list Candle) (indicators : Indicators) :
  s_confidence (generateSignal config analysis currentPrice candles indicators)
  = toFixed 1 (d_confidence (decide config analysis currentPrice candles)).
Proof.
  unfold generateSignal. destruct (suggest_leverage _ _ _) as [[lev risk] pushed].
  reflexivity.
Qed.

(** The confidence of a LONG or SHORT signal moves in a narrow band: it is
    capped at 95, and since the score and the confluence already passed
    their thresholds [s] and [c] it is at least [10 s + 30 + 5 c] (or 95 when
    that is larger); the emitted field is this number formatted with one
    decimal.  Under the default thresholds 4 and 3 the band is [[85, 95]]. *)
Theorem confidence_band
        (config : Config) (analysis : Analysis) (currentPrice : num)
        (candles : list Candle) (indicators : Indicators) (s c : Q) :
  minScoreForSignal config = Fin s -> minConfluence config = Fin c ->
  action (generateSignal config analysis currentPrice candles indicators)
  <> WAIT ->
  exists q,
    s_confidence (generateSignal config analysis currentPrice candles indicators)
    = toFixed 1 (Fin q) /\
    (q <= 95)%Q /\
    forall lo, (lo <= 95)%Q -> (lo <= 10 * s + 30 + 5 * c)%Q -> (lo <= q)%Q.
Proof.
  intros Hs Hc. rewrite action_generateSignal, s_confidence_generateSignal.
  unfold decide. rewrite Hs, Hc.
  match goal with |- context [if ?b then _ else _] => destruct b eqn:El end.
  - apply andb_prop in El. destruct El as [El Hbc].
    apply andb_prop in El. destruct El as [Hts _].
    unfold ge, of_Z in Hts, Hbc. cbn [le] in Hts, Hbc.
    apply Qle_bool_iff in Hts. apply Qle_bool_iff in Hbc.
    intro Ha. apply decide_long_action in Ha. destruct Ha as (_ & Hrej & Hsup).
    unfold decide_long. rewrite Hsup. cbn [negb andb]. rewrite Hrej.
    cbn [d_confidence]. unfold of_Z.
    destruct (confidence_base (inject_Z (totalScore analysis))
                (inject_Z (bullishConfluence analysis)))
      as (q & -> & Hq & Hlo).
    destruct (_ <? $0.015).
    + destruct (confidence_bonus q Hq) as (q' & -> & Hq' & Hlo').
      exists q'. split; [reflexivity|]. split; [exact Hq'|].
      intros lo H95 H. apply Hlo'; [exact H95|]. apply Hlo; [exact H95 | lra].
    + exists q. split; [reflexivity|]. split; [exact Hq|].
      intros lo H95 H. apply Hlo; [exact H95 | lra].
  - match goal with |- context [if ?b then _ else _] => destruct b eqn:Esh end.
    + apply andb_prop in Esh. destruct Esh as [Esh Hbc].
      apply andb_prop in Esh. destruct Esh as [Hts _].
      unfold ge, of_Z in Hts, Hbc. cbn [le neg] in Hts, Hbc.
      apply Qle_bool_iff in Hts. apply Qle_bool_iff in Hbc.
      intro Ha. apply decide_short_action in Ha.
      destruct Ha as (_ & Hrej & Hres).
      unfold decide_short. rewrite Hres. cbn [negb andb]. rewrite Hrej.
      cbn [d_confidence]. unfold of_Z. cbn [abs].
      assert (Habs : (s <= Qabs (inject_Z (totalScore analysis)))%Q).
      { apply Qle_trans with (- inject_Z (totalScore analysis))%Q; [lra|].
        rewrite <- Qabs_opp. apply Qle_Qabs. }
      destruct (confidence_base (Qabs (inject_Z (totalScore analysis)))
                  (inject_Z (bearishConfluence analysis)))
        as (q & -> & Hq & Hlo).
      destruct (_ <? $0.015).
      * destruct (confidence_bonus q Hq) as (q' & -> & Hq' & Hlo').
        exists q'. split; [reflexivity|]. split; [exact Hq'|].
        intros lo H95 H. apply Hlo'; [exact H95|]. apply Hlo; [exact H95 | lra].
      * exists q. split; [reflexivity|]. split; [exact Hq|].
        intros lo H95 H. apply Hlo; [exact H95 | lra].
    + unfold decide_wait. cbn [d_action]. congruence.
Qed.

(** a LONG under the default thresholds: the confidence is at least 85 *)
Lemma confidence_band_witness :
  exists q,
    s_confidence (generateSignal default_config (long_analysis false) $100.7
                    (level_candles 101 100 100.7 50) no_series)
    = toFixed 1 (Fin q) /\
    (85 <= q <= 95)%Q.
Proof.
  destruct (confidence_band default_config (long_analysis false) $100.7
              (level_candles 101 100 100.7 50) no_series 4 3)
    as (q & Hq & Hhi & Hlo).
  - reflexivity.
  - reflexivity.
  - vm_compute. discriminate.
  - exists q. split; [exact Hq|]. split; [|exact Hhi].
    apply Hlo; unfold Qle; cbn; lia.
Defined.

(** ** Volume confirmation *)

Lemma last_n_skipn {A : Type} (l : list A) (k : nat) :
  (1 <= k <= length l)%nat -> last_n l k = skipn (length l - k) l.
Proof.
  intro Hk. unfold last_n, slice_from, slice.
  destruct (- Z.of_nat k <? 0)%Z eqn:E1; [|apply Z.ltb_ge in E1; lia].
  destruct (Z.of_nat (length l) <? 0)%Z eqn:E2; [apply Z.ltb_lt in E2; lia|].
  cbv zeta.
  replace (Z.to_nat (Z.max (Z.of_nat (length l) + - Z.of_nat k) 0))
    with (length l - k)%nat by lia.
  apply firstn_all2. rewrite length_skipn. lia.
Qed.

Lemma fold_add_zero (l : list num) (a : Q) :
  Forall is_zero l ->
  exists s, fold_left add l (Fin a) = Fin s /\ (s == a)%Q.
Proof.
  revert a. induction l as [|y l IH]; intros a Hl.
  - exists a. split; reflexivity.
  - inversion Hl as [|? ? [q [-> Hq]] Hl']; subst.
    cbn [fold_left add]. destruct (IH (a + q)%Q Hl') as (s & Hs & Es).
    exists s. split; [exact Hs|]. rewrite Es, Hq. ring.
Qed.

Lemma In_skipn_last {A : Type} (l : list A) (n : nat) (x dflt : A) :
  (n < length l)%nat -> nth (length l - 1) l dflt = x -> In x (skipn n l).
Proof.
  intros Hn Hx. apply (nth_error_In _ (length l - 1 - n)).
  rewrite nth_error_skipn.
  replace (n + (length l - 1 - n))%nat with (length l - 1)%nat by lia.
  rewrite <- Hx. apply nth_error_nth'. lia.
Qed.

(** A dead market counts as normal volume: when the last 20 volumes are
    all 0 the average is 0 and the ratio is [0 / 0]; no comparison with it
    holds, so the verdict is [NORMAL] with score 0 and a ratio that is not
    a number. *)
Theorem dead_volume_is_normal (candles : list Candle) (volumes : list num) :
  (20 <= length volumes)%nat -> Forall is_zero (last_n volumes 20) ->
  vc_signal (analyzeVolumeConfirmation candles volumes) = "NORMAL"%string /\
  vc_score (analyzeVolumeConfirmation candles volumes) = 0%Z /\
  vc_ratio (analyzeVolumeConfirmation candles volumes) = NaN.
Proof.
  intros Hlen Hz. unfold analyzeVolumeConfirmation.
  assert (E : (length volumes <? 20)%nat = false) by (apply Nat.ltb_ge; exact Hlen).
  rewrite E. cbv zeta.
  rewrite (length_last_n volumes 20) by lia.
  replace (Nat.min 20 (length volumes)) with 20%nat by lia.
  rewrite (last_n_skipn volumes 20) in * by lia.
  assert (Hcur : is_zero (at_num volumes (length volumes - 1))).
  { rewrite Forall_forall in Hz. apply Hz.
    apply (In_skipn_last volumes _ _ NaN); [lia | reflexivity]. }
  destruct Hcur as (cur & -> & Hc0).
  destruct (fold_add_zero _ 0 Hz) as (s & Hs & Es).
  unfold sum. rewrite Hs. unfold of_nat, of_Z.
  assert (H20 : ~ (inject_Z (Z.of_nat 20) == 0)%Q) by (intro H; discriminate H).
  rewrite (div_Fin s _ H20).
  assert (H0 : (s / inject_Z (Z.of_nat 20) == 0)%Q) by (rewrite Es; reflexivity).
  assert (Hratio : Fin cur / Fin (s / inject_Z (Z.of_nat 20)) = NaN).
  { cbn [div]. rewrite (proj2 (Qzerob_true _) H0).
    now rewrite (proj2 (Qzerob_true _) Hc0). }
  rewrite Hratio. cbn. repeat split; reflexivity.
Qed.

(** twenty-five volumes of 0 *)
Lemma dead_volume_is_normal_witness :
  vc_ratio (analyzeVolumeConfirmation [] (repeat $0 25)) = NaN.
Proof.
  apply (dead_volume_is_normal [] (repeat $0 25)).
  - vm_compute. lia.
  - apply Forall_forall. intros x Hx.
    assert (Hin : In x (repeat $0 25)).
    { rewrite (last_n_skipn (repeat $0 25) 20) in Hx by (vm_compute; lia).
      revert Hx. apply (Forall_forall (fun y => In y (repeat $0 25))).
      apply Forall_skipn_keep, Forall_forall. auto. }
    apply repeat_spec in Hin. subst x. exists 0%Q. split; reflexivity.
Defined.

(** ** Bollinger Bands *)





